(** * CodeWise: the repository ingestion orchestrator of [ingest.py]

    A shallow embedding of the class [RepoIngestor] (URL parsing, path
    normalisation, index invalidation, the call of the external ingestion
    tool and the optional clone) together with the pieces of the Python
    runtime it relies on: [str] methods, the backtracking regular
    expressions of [re], [pathlib] paths and a POSIX directory tree.

    Conventions of the embedding.
    - A Python [str] is a [string]; a character is a code point below 256.
    - The directory tree has directories and regular files only: no
      symbolic links, no permissions, no quotas.  Path resolution follows
      POSIX, including [.] and [..].
    - The two external programs ([gitingest] and [git]) are functions of
      the host: what they return and what they do to the tree is theirs to
      decide.  Every call is recorded in a journal together with the
      writes and removals that the orchestrator performs itself.
    - Calls to [logger] are left out: they touch neither the result nor
      the tree. *)

From Stdlib Require Import ZArith Ascii String Lia.
From stdpp Require Import base option list gmap strings.

Local Open Scope string_scope.

(* ===================================================================== *)
(** ** Python strings *)
(* ===================================================================== *)

Module PyStr.

Definition chr (n : nat) : ascii := ascii_of_nat n.

Definition LF : ascii := chr 10.

Definition dquote : ascii := chr 34.

(** [str.isspace] on the code points below 256. *)
Definition is_space (c : ascii) : bool :=
  let n := nat_of_ascii c in
  (((9 <=? n) && (n <=? 13)) || ((28 <=? n) && (n <=? 32))
   || (n =? 133) || (n =? 160))%nat.

Definition is_empty (s : string) : bool :=
  match s with EmptyString => true | _ => false end.

Fixpoint lstrip_by (p : ascii -> bool) (s : string) : string :=
  match s with
  | String c s' => if p c then lstrip_by p s' else s
  | EmptyString => EmptyString
  end.

Fixpoint rstrip_by (p : ascii -> bool) (s : string) : string :=
  match s with
  | String c s' =>
      let r := rstrip_by p s' in
      if is_empty r && p c then EmptyString else String c r
  | EmptyString => EmptyString
  end.

Definition strip_by (p : ascii -> bool) (s : string) : string :=
  rstrip_by p (lstrip_by p s).

(** [s.strip()] *)
Definition strip (s : string) : string := strip_by is_space s.

(** [s.strip(chars)] for a one-character [chars]. *)
Definition strip_char (c : ascii) (s : string) : string :=
  strip_by (Ascii.eqb c) s.

Fixpoint drop (n : nat) (s : string) : string :=
  match n, s with
  | S k, String _ s' => drop k s'
  | _, _ => s
  end.

Definition take (n : nat) (s : string) : string := String.substring 0 n s.

(** [s.startswith(t)] *)
Definition startswith (t s : string) : bool := String.prefix t s.

(** [t in s] *)
Fixpoint contains (t s : string) : bool :=
  String.prefix t s ||
  match s with
  | String _ s' => contains t s'
  | EmptyString => false
  end.

(** [s.replace(old, new)] for a non-empty [old]: occurrences are replaced
    from left to right and do not overlap ([skip] characters of the
    occurrence just replaced are still to be passed over). *)
Fixpoint replace_from (old new : string) (skip : nat) (s : string) : string :=
  match s with
  | EmptyString => EmptyString
  | String c s' =>
      match skip with
      | S k => replace_from old new k s'
      | O =>
          if String.prefix old s
          then new +:+ replace_from old new (String.length old - 1) s'
          else String c (replace_from old new 0 s')
      end
  end.

Definition replace (old new s : string) : string := replace_from old new 0 s.

(** [s.split(sep)] for a one-character separator. *)
Fixpoint split_on (sep : ascii) (s : string) : list string :=
  match s with
  | EmptyString => [EmptyString]
  | String c s' =>
      if Ascii.eqb c sep then EmptyString :: split_on sep s'
      else match split_on sep s' with
           | w :: ws => String c w :: ws
           | [] => [String c EmptyString]
           end
  end.

(** [sep.join(ws)] *)
Definition join (sep : string) (ws : list string) : string :=
  String.concat sep ws.

(** [str.isprintable] on the code points below 256: the controls, the
    no-break space and the soft hyphen are not printable. *)
Definition is_printable (c : ascii) : bool :=
  let n := nat_of_ascii c in
  (((32 <=? n) && (n <=? 126)) || ((161 <=? n) && negb (n =? 173)))%nat.

(** A hexadecimal digit, in lower case. *)
Definition hex_digit (n : nat) : ascii :=
  chr (if (n <? 10)%nat then 48 + n else 87 + n).

(** One character of [repr(s)]: the quote in use and the backslash are
    escaped with a backslash, tab, line feed and carriage return are
    written with their letters, and any other character that is not
    printable is written with its two hexadecimal digits. *)
Definition repr_char (quote c : ascii) : string :=
  let n := nat_of_ascii c in
  if Ascii.eqb c quote || Ascii.eqb c "\" then String "\" (String c EmptyString)
  else if (n =? 9)%nat then "\t"
  else if (n =? 10)%nat then "\n"
  else if (n =? 13)%nat then "\r"
  else if is_printable c then String c EmptyString
  else String "\" (String "x"
         (String (hex_digit (n / 16)) (String (hex_digit (n mod 16)) EmptyString))).

Fixpoint repr_chars (quote : ascii) (s : string) : string :=
  match s with
  | EmptyString => EmptyString
  | String c s' => repr_char quote c +:+ repr_chars quote s'
  end.

(** [repr(s)]: the text between single quotes, or between double quotes
    when it has a single quote and no double quote. *)
Definition repr (s : string) : string :=
  let quote :=
    if contains "'" s && negb (contains (String dquote EmptyString) s)
    then dquote else "'"%char in
  String quote (repr_chars quote s +:+ String quote EmptyString).

End PyStr.

(* ===================================================================== *)
(** ** Regular expressions ([re]) *)
(* ===================================================================== *)

(** A backtracking matcher with Python's priorities: alternatives are tried
    from left to right, a greedy repetition tries the longest run first, a
    lazy one the shortest, and the first overall success is the match.
    Repetition is over single-character items, which is all the two
    patterns of [ingest.py] use. *)
Module Re.

Inductive item :=
| Chr (c : ascii)                     (* a literal character *)
| NotIn (cs : list ascii).            (* [^...] *)

Definition item_ok (i : item) (c : ascii) : bool :=
  match i with
  | Chr d => Ascii.eqb d c
  | NotIn cs => negb (existsb (Ascii.eqb c) cs)
  end.

Inductive regex :=
| Lit (t : string)                    (* literal text *)
| In (cs : list ascii)                (* [...] *)
| Plus (greedy : bool) (i : item)     (* i+ and i+? *)
| Opt (r : regex)                     (* r? *)
| Alt (r1 r2 : regex)                 (* r1|r2 *)
| Cat (r1 r2 : regex)
| Group (name : string) (r : regex)   (* (?P<name>r) *)
| Bol                                 (* ^ *)
| Eol.                                (* $ *)

Fixpoint strip_prefix (t s : string) : option string :=
  match t, s with
  | EmptyString, _ => Some s
  | String a t', String b s' => if Ascii.eqb a b then strip_prefix t' s' else None
  | String _ _, EmptyString => None
  end.

Section Repeat.
Context {R : Type} (p : ascii -> bool) (k : string -> option R).

(** zero or more, longest first *)
Fixpoint star_greedy (s : string) : option R :=
  match s with
  | String c s' =>
      if p c then
        match star_greedy s' with
        | Some r => Some r
        | None => k s
        end
      else k s
  | EmptyString => k s
  end.

(** zero or more, shortest first *)
Fixpoint star_lazy (s : string) : option R :=
  match k s with
  | Some r => Some r
  | None =>
      match s with
      | String c s' => if p c then star_lazy s' else None
      | EmptyString => None
      end
  end.

Definition plus (greedy : bool) (s : string) : option R :=
  match s with
  | String c s' =>
      if p c then (if greedy then star_greedy s' else star_lazy s') else None
  | EmptyString => None
  end.
End Repeat.

(** [$] without [re.MULTILINE]: at the end of the subject, or just before
    a line feed that ends it. *)
Definition at_eol (s : string) : bool :=
  match s with
  | EmptyString => true
  | String c EmptyString => Ascii.eqb c PyStr.LF
  | _ => false
  end.

Abbreviation groups := (gmap string string).

(** [run r n s g k]: match [r] at the head of [s], the rest of a subject of
    length [n], with the groups [g] closed so far; [k] is what remains to
    be matched. *)
Fixpoint run (r : regex) (n : nat) (s : string) (g : groups)
    (k : string -> groups -> option groups) : option groups :=
  match r with
  | Lit t =>
      match strip_prefix t s with
      | Some s' => k s' g
      | None => None
      end
  | In cs =>
      match s with
      | String c s' => if existsb (Ascii.eqb c) cs then k s' g else None
      | EmptyString => None
      end
  | Plus greedy i => plus (item_ok i) (fun s' => k s' g) greedy s
  | Opt r1 =>
      match run r1 n s g k with
      | Some m => Some m
      | None => k s g
      end
  | Alt r1 r2 =>
      match run r1 n s g k with
      | Some m => Some m
      | None => run r2 n s g k
      end
  | Cat r1 r2 => run r1 n s g (fun s' g' => run r2 n s' g' k)
  | Group name r1 =>
      run r1 n s g (fun s' g' =>
        k s' (<[name := PyStr.take (String.length s - String.length s') s]> g'))
  | Bol => if (String.length s =? n)%nat then k s g else None
  | Eol => if at_eol s then k s g else None
  end.

Definition accept (_ : string) (g : groups) : option groups := Some g.

(** [re.match]: at the start of the subject only. *)
Definition rematch (r : regex) (s : string) : option groups :=
  run r (String.length s) s ∅ accept.

Fixpoint search_from (r : regex) (n : nat) (s : string) : option groups :=
  match run r n s ∅ accept with
  | Some m => Some m
  | None =>
      match s with
      | String _ s' => search_from r n s'
      | EmptyString => None
      end
  end.

(** [re.search]: the leftmost position at which the pattern matches. *)
Definition search (r : regex) (s : string) : option groups :=
  search_from r (String.length s) s.

End Re.

(** The pattern of [parse_github_url]:
    [github\.com[:/](?P<owner>[^/]+)/(?P<repo>[^/]+?)(?:\.git)?$] *)
Definition github_url_re : Re.regex :=
  Re.Cat (Re.Lit "github.com")
  (Re.Cat (Re.In [":"; "/"]%char)
  (Re.Cat (Re.Group "owner" (Re.Plus true (Re.NotIn ["/"%char])))
  (Re.Cat (Re.Lit "/")
  (Re.Cat (Re.Group "repo" (Re.Plus false (Re.NotIn ["/"%char])))
  (Re.Cat (Re.Opt (Re.Lit ".git"))
          Re.Eol))))).

(** The pattern of [_is_probable_git_url]: [^(https?://|git@|ssh://)] *)
Definition scheme_re : Re.regex :=
  Re.Cat Re.Bol
    (Re.Alt (Re.Cat (Re.Lit "http") (Re.Cat (Re.Opt (Re.Lit "s")) (Re.Lit "://")))
    (Re.Alt (Re.Lit "git@") (Re.Lit "ssh://"))).

(** [parse_github_url]: [None] stands for the [ValueError] of line 43. *)
Definition parse_github_url_groups (url : string) : option (string * string) :=
  match Re.search github_url_re url with
  | Some m =>
      match m !! "owner", m !! "repo" with
      | Some o, Some r => Some (o, r)
      | _, _ => None
      end
  | None => None
  end.


(* ===================================================================== *)
(** ** Paths ([pathlib.PurePosixPath]) *)
(* ===================================================================== *)

Module PathLib.

(** A path is an anchor (empty, a slash, or exactly two slashes) followed by its
    parts; the constructor drops empty parts and single dots, and keeps
    double dots. *)
Record path := mk_path { anchor : string; parts : list string }.

Definition keeps (w : string) : bool :=
  negb (PyStr.is_empty w) && negb (String.eqb w ".").

Fixpoint leading_slashes (s : string) : nat :=
  match s with
  | String c s' => if Ascii.eqb c "/" then S (leading_slashes s') else 0
  | EmptyString => 0
  end.

Definition anchor_of (s : string) : string :=
  match leading_slashes s with
  | 0 => EmptyString
  | 2 => "//"
  | _ => "/"
  end.

(** [Path(s)] *)
Definition Path (s : string) : path :=
  mk_path (anchor_of s) (filter (fun w => Is_true (keeps w)) (PyStr.split_on "/" s)).

(** [str(p)] *)
Definition to_str (p : path) : string :=
  match anchor p, parts p with
  | EmptyString, [] => "."
  | a, ws => a +:+ PyStr.join "/" ws
  end.

(** [p / s]: an absolute right operand replaces the left one. *)
Definition div (p : path) (s : string) : path :=
  let q := Path s in
  if PyStr.is_empty (anchor q) then mk_path (anchor p) (parts p ++ parts q) else q.

(** [p.name] *)
Definition name (p : path) : string := List.last (parts p) EmptyString.

(** [p.parent] *)
Definition parent (p : path) : path := mk_path (anchor p) (removelast (parts p)).

End PathLib.

Infix "</>" := PathLib.div (at level 40, left associativity).

(* ===================================================================== *)
(** ** The directory tree and the system calls *)
(* ===================================================================== *)

Inductive node :=
| File (content : string)
| Dir.

(** Entries are keyed by their names from the root down; the root itself is
    the empty key and is always a directory. *)
Abbreviation key := (list string).
Abbreviation tree := (gmap (list string) node).

Inductive errno := ENOENT | ENOTDIR | EEXIST | EISDIR | EBUSY | ENUL.

Inductive exn :=
| ValueError (msg : string)
| RuntimeError (msg : string)
| OSError (e : errno) (path : string)
| HostError (msg : string).          (* raised inside [subprocess.run] *)

Definition strerror (e : errno) : string :=
  match e with
  | ENOENT => "[Errno 2] No such file or directory"
  | ENOTDIR => "[Errno 20] Not a directory"
  | EEXIST => "[Errno 17] File exists"
  | EISDIR => "[Errno 21] Is a directory"
  | EBUSY => "[Errno 16] Device or resource busy"
  | ENUL => "embedded null byte"
  end.

(** [str(e)]; for an [OSError] with a file name it ends with the [repr]
    of the name. *)
Definition exn_str (e : exn) : string :=
  match e with
  | ValueError m | RuntimeError m | HostError m => m
  | OSError ENUL _ => strerror ENUL
  | OSError e p => strerror e +:+ ": " +:+ PyStr.repr p
  end.

(** The outcome of [subprocess.run(..., capture_output=True, text=True)]. *)
Inductive proc :=
| Exited (returncode : Z) (stdout stderr : string)
| Failed (e : exn).

Module OS.

Definition node_at (t : tree) (k : key) : option node :=
  match k with
  | [] => Some Dir
  | _ => t !! k
  end.

Definition is_dir_at (t : tree) (k : key) : bool :=
  match node_at t k with Some Dir => true | _ => false end.

(** One step of path resolution from the directory [cur]. *)
Definition step (cur : key) (w : string) : key :=
  if PyStr.is_empty w || String.eqb w "." then cur
  else if String.eqb w ".." then removelast cur
  else cur ++ [w].

(** Every component is looked up in a directory that exists. *)
Fixpoint walk (t : tree) (cur : key) (ws : list string) : errno + key :=
  match ws with
  | [] => inr cur
  | w :: ws' =>
      match node_at t cur with
      | Some Dir => walk t (step cur w) ws'
      | Some (File _) => inl ENOTDIR
      | None => inl ENOENT
      end
  end.

Definition has_nul (s : string) : bool :=
  existsb (Ascii.eqb zero) (list_ascii_of_string s).

Definition is_abs (s : string) : bool := PyStr.startswith "/" s.

(** The entry that the path string [s] names, seen from the working
    directory [cwd]; the entry itself need not exist. *)
Definition locate (t : tree) (cwd : key) (s : string) : errno + key :=
  if PyStr.is_empty s then inl ENOENT
  else if has_nul s then inl ENUL
  else walk t (if is_abs s then [] else cwd) (PyStr.split_on "/" s).

(** [os.stat] *)
Definition stat (t : tree) (cwd : key) (s : string) : errno + node :=
  match locate t cwd s with
  | inr k =>
      match node_at t k with
      | Some n => inr n
      | None => inl ENOENT
      end
  | inl e => inl e
  end.

(** [os.path.isdir] *)
Definition isdir (t : tree) (cwd : key) (s : string) : bool :=
  match stat t cwd s with inr Dir => true | _ => false end.

(** [os.path.exists] *)
Definition exists_ (t : tree) (cwd : key) (s : string) : bool :=
  match stat t cwd s with inr _ => true | inl _ => false end.

(** [os.mkdir] *)
Definition mkdir (t : tree) (cwd : key) (s : string) : errno + tree :=
  match locate t cwd s with
  | inr k =>
      match node_at t k with
      | Some _ => inl EEXIST
      | None => inr (<[k := Dir]> t)
      end
  | inl e => inl e
  end.

(** [open(s, "w")] followed by one [write] and [close]. *)
Definition write_file (t : tree) (cwd : key) (s content : string) : errno + tree :=
  match locate t cwd s with
  | inr k =>
      match node_at t k with
      | Some Dir => inl EISDIR
      | _ => inr (<[k := File content]> t)
      end
  | inl e => inl e
  end.

(** [open(s, "r")] followed by [read]. *)
Definition read_file (t : tree) (cwd : key) (s : string) : errno + string :=
  match stat t cwd s with
  | inr (File c) => inr c
  | inr Dir => inl EISDIR
  | inl e => inl e
  end.

(** [os.remove] *)
Definition remove (t : tree) (cwd : key) (s : string) : errno + tree :=
  match locate t cwd s with
  | inr k =>
      match node_at t k with
      | Some (File _) => inr (delete k t)
      | Some Dir => inl EISDIR
      | None => inl ENOENT
      end
  | inl e => inl e
  end.

(** [k] lies strictly below [d]. *)
Definition below (d k : key) : bool :=
  bool_decide (d `prefix_of` k) && negb (bool_decide (k = d)).

(** The tree without everything below [d]. *)
Definition prune (d : key) (t : tree) : tree :=
  filter (fun kv => Is_true (negb (below d kv.1))) t.

End OS.

(* ===================================================================== *)
(** ** Effects: the tree, exceptions and the journal *)
(* ===================================================================== *)

(** What a run leaves behind for an observer, in the order it happened. *)
Inductive event :=
| Wrote (path content : string)
    (* a file opened for writing, written and closed *)
| Removed (path : string)
    (* [shutil.rmtree] emptied the directory [path] *)
| Gitingest (cmd : list string) (token : option string) (seen : tree) (res : proc)
    (* [subprocess.run] of the ingestion tool; [token] is what the
       environment variable GITHUB_TOKEN was set to, [seen] the tree at the
       time of the call *)
| GitClone (cmd : list string) (seen : tree) (res : proc).
    (* [subprocess.run] of the version-control client *)

(** The process and its surroundings, fixed for the duration of one call. *)
Record host := {
  cwd : key;                               (* the working directory *)
  now : string;                            (* datetime.now().strftime("%Y%m%d_%H%M%S") *)
  expanduser : string -> string;           (* os.path.expanduser *)
  expandvars : string -> string;           (* os.path.expandvars *)
  mkstemp : tree -> string;                (* the name tempfile.mkstemp picks *)
  gitingest : list string -> option string -> tree -> proc * tree;
  git : list string -> tree -> proc * tree;
}.

Inductive res (A : Type) :=
| Ret (a : A)
| Raise (e : exn).
Arguments Ret {A} a.
Arguments Raise {A} e.

(** A computation reads and updates the tree, returns or raises, and emits
    events. *)
Definition M (A : Type) : Type := tree -> res A * tree * list event.

Definition ret {A} (a : A) : M A := fun t => (Ret a, t, []).

Definition raise {A} (e : exn) : M A := fun t => (Raise e, t, []).

Definition bind {A B} (m : M A) (f : A -> M B) : M B :=
  fun t =>
    match m t with
    | (Ret a, t1, ev1) =>
        match f a t1 with
        | (r, t2, ev2) => (r, t2, (ev1 ++ ev2)%list)
        end
    | (Raise e, t1, ev1) => (Raise e, t1, ev1)
    end.

(** [try: m except Exception as e: h e] *)
Definition try_except {A} (m : M A) (h : exn -> M A) : M A :=
  fun t =>
    match m t with
    | (Ret a, t1, ev1) => (Ret a, t1, ev1)
    | (Raise e, t1, ev1) =>
        match h e t1 with
        | (r, t2, ev2) => (r, t2, (ev1 ++ ev2)%list)
        end
    end.

(** [try: m finally: c] *)
Definition try_finally {A} (m : M A) (c : M unit) : M A :=
  fun t =>
    match m t with
    | (r, t1, ev1) =>
        match c t1 with
        | (Ret _, t2, ev2) => (r, t2, (ev1 ++ ev2)%list)
        | (Raise e, t2, ev2) => (Raise e, t2, (ev1 ++ ev2)%list)
        end
    end.

Definition get_tree : M tree := fun t => (Ret t, t, []).
Definition put_tree (t' : tree) : M unit := fun _ => (Ret tt, t', []).
Definition emit (e : event) : M unit := fun t => (Ret tt, t, [e]).

Notation "x <- m ;; k" := (bind m (fun x => k))
  (at level 100, m at next level, right associativity).
Notation "m ;; k" := (bind m (fun _ => k))
  (at level 100, right associativity).

(** The exception a failed system call turns into. *)
Definition os_error (e : errno) (path : string) : exn :=
  match e with
  | ENUL => ValueError (strerror ENUL)
  | _ => OSError e path
  end.

Definition lift_os {A} (path : string) (r : errno + A) : M A :=
  match r with
  | inr a => ret a
  | inl e => raise (os_error e path)
  end.

Section Runtime.
Variable H : host.

Definition os_path_isdir (s : string) : M bool :=
  t <- get_tree ;; ret (OS.isdir t (cwd H) s).

Definition os_path_exists (s : string) : M bool :=
  t <- get_tree ;; ret (OS.exists_ t (cwd H) s).

Definition os_mkdir (s : string) : M unit :=
  t <- get_tree ;; t' <- lift_os s (OS.mkdir t (cwd H) s) ;; put_tree t'.

Definition os_remove (s : string) : M unit :=
  t <- get_tree ;; t' <- lift_os s (OS.remove t (cwd H) s) ;; put_tree t'.

(** [with open(s, "w", encoding="utf-8") as f: f.write(content)] *)
Definition write_text (s content : string) : M unit :=
  t <- get_tree ;;
  t' <- lift_os s (OS.write_file t (cwd H) s content) ;;
  put_tree t' ;;
  emit (Wrote s content).

(** A new, empty file, as [tempfile.mkstemp] leaves it. *)
Definition create_file (s : string) : M unit :=
  t <- get_tree ;;
  t' <- lift_os s (OS.write_file t (cwd H) s EmptyString) ;;
  put_tree t'.

(** [with open(s, "r", ...) as f: f.read()] *)
Definition read_text (s : string) : M string :=
  t <- get_tree ;; lift_os s (OS.read_file t (cwd H) s).

(** [Path.exists] and [Path.is_dir] *)
Definition path_exists (p : PathLib.path) : M bool :=
  os_path_exists (PathLib.to_str p).

Definition path_is_dir (p : PathLib.path) : M bool :=
  os_path_isdir (PathLib.to_str p).

(** [Path.resolve()]: the absolute path without [.] and [..].  In a tree
    without symbolic links this is a matter of spelling only. *)
Definition path_resolve (p : PathLib.path) : PathLib.path :=
  let start := if PyStr.is_empty (PathLib.anchor p) then cwd H else [] in
  PathLib.mk_path "/" (fold_left OS.step (PathLib.parts p) start).

(** [Path.mkdir(parents=False, exist_ok=...)]: an existing directory is
    accepted when [exist_ok] is set; a missing parent is an error. *)
Definition mkdir_here (exist_ok : bool) (p : PathLib.path) : M unit :=
  try_except (os_mkdir (PathLib.to_str p)) (fun e =>
    match e with
    | OSError ENOENT _ => raise e
    | OSError _ _ =>
        d <- path_is_dir p ;;
        if exist_ok && d then ret tt else raise e
    | _ => raise e
    end).

(** [Path.mkdir(parents=True, exist_ok=...)] for a path of [n] parts: when
    the parent is missing it is made first, with its own parents, and the
    directory is then made as by [mkdir_here].  A path without parts is
    its own parent. *)
Fixpoint mkdir_parents (n : nat) (exist_ok : bool) (p : PathLib.path) : M unit :=
  try_except (os_mkdir (PathLib.to_str p)) (fun e =>
    match e with
    | OSError ENOENT _ =>
        match n with
        | S n' =>
            mkdir_parents n' true (PathLib.parent p) ;;
            mkdir_here exist_ok p
        | O => raise e
        end
    | OSError _ _ =>
        d <- path_is_dir p ;;
        if exist_ok && d then ret tt else raise e
    | _ => raise e
    end).

(** [p.mkdir(parents=..., exist_ok=...)] *)
Definition path_mkdir (parents exist_ok : bool) (p : PathLib.path) : M unit :=
  if parents then mkdir_parents (length (PathLib.parts p)) exist_ok p
  else mkdir_here exist_ok p.

(** [shutil.rmtree(s, onerror=handle_remove_readonly)].  The directory is
    emptied first and removed last, by the same path string; when that
    string leads through the directory's own contents (a trailing [..])
    the last step no longer finds it.  The handler retries the call that
    failed, which fails again: the error propagates. *)
Definition rmtree (s : string) : M unit :=
  t <- get_tree ;;
  k <- lift_os s (OS.locate t (cwd H) s) ;;
  match OS.node_at t k with
  | None => raise (OSError ENOENT s)
  | Some (File _) => raise (OSError ENOTDIR s)
  | Some Dir =>
      let t1 := OS.prune k t in
      put_tree t1 ;;
      emit (Removed s) ;;
      k' <- lift_os s (OS.locate t1 (cwd H) s) ;;
      match k' with
      | [] => raise (OSError EBUSY s)
      | _ => put_tree (delete k' t1)
      end
  end.

(** [subprocess.run] of the two external programs. *)
Definition run_gitingest_tool (cmd : list string) (token : option string) : M proc :=
  t <- get_tree ;;
  let '(r, t') := gitingest H cmd token t in
  put_tree t' ;;
  emit (Gitingest cmd token t r) ;;
  ret r.

Definition run_git (cmd : list string) : M proc :=
  t <- get_tree ;;
  let '(r, t') := git H cmd t in
  put_tree t' ;;
  emit (GitClone cmd t r) ;;
  ret r.

End Runtime.

(* ===================================================================== *)
(** ** [class RepoIngestor] *)
(* ===================================================================== *)

(** The values found in a result record. *)
Inductive pyval :=
| VBool (b : bool)
| VStr (s : string)
| VNone.

(** A result record: a Python [dict] with string keys. *)
Abbreviation record := (gmap string pyval).

(** Truth value of an optional string: [None] and the empty string are
    false. *)
Definition truthy (o : option string) : bool :=
  match o with
  | Some s => negb (PyStr.is_empty s)
  | None => false
  end.

(** Truth value of [d.get(k)]. *)
Definition get_truthy (d : record) (k : string) : bool :=
  match d !! k with
  | Some (VBool b) => b
  | Some (VStr s) => negb (PyStr.is_empty s)
  | Some VNone | None => false
  end.

Module RepoIngestor.
Section Methods.
Variable H : host.
Variable github_token : option string.       (* self.github_token *)

Definition token_text : string := default EmptyString github_token.

(** [parse_github_url] *)
Definition parse_github_url (url : string) : M (string * string) :=
  match parse_github_url_groups url with
  | Some (owner, repo) => ret (owner, repo)
  | None => raise (ValueError ("Invalid GitHub URL: " +:+ url))
  end.

(** [clone_repo] *)
Definition clone_repo (url target_dir : string) (fresh : bool) : M string :=
  names <- parse_github_url url ;;
  let '(owner, repo) := names in
  let repo_path := PathLib.Path target_dir </> owner </> repo in
  (if fresh then
     ex <- path_exists H repo_path ;;
     if ex then rmtree H (PathLib.to_str repo_path) else ret tt
   else ret tt) ;;
  path_mkdir H true true (PathLib.parent repo_path) ;;
  (* Use token if provided *)
  let clone_url :=
    if truthy github_token && negb (PyStr.contains "@" url)
    then PyStr.replace "https://" ("https://" +:+ token_text +:+ "@") url
    else url in
  result <- run_git H ["git"; "clone"; "--depth"; "1"; clone_url;
                       PathLib.to_str repo_path] ;;
  match result with
  | Failed e => raise e
  | Exited returncode _ stderr =>
      if negb (returncode =? 0)%Z
      then raise (RuntimeError ("Git clone failed: " +:+ PyStr.strip stderr))
      else ret (PathLib.to_str repo_path)
  end.

(** The body of the [try] of [run_gitingest] once the output file is
    known (lines 93 to 118). *)
Definition run_gitingest_body (repo_input output_file : string) : M record :=
  local <- os_path_isdir H repo_input ;;
  let with_token := truthy github_token && negb local in
  let cmd := (["gitingest"; repo_input; "--output"; output_file]
              ++ (if with_token then ["--token"; token_text] else []))%list in
  let env := if with_token then Some token_text else None in
  result <- run_gitingest_tool H cmd env ;;
  match result with
  | Failed e => raise e
  | Exited returncode _ stderr =>
      if negb (returncode =? 0)%Z
      then ret (<["success" := VBool false]>
                (<["error" := VStr (PyStr.strip stderr)]>
                (<["repo_input" := VStr repo_input]> ∅)))
      else
        read_text H output_file ;;
        ret (<["success" := VBool true]>
             (<["structured_text" := VStr "File Successfully Ingested!"]>
             (<["repo_input" := VStr repo_input]> ∅)))
  end.

(** The [except Exception as e] of [run_gitingest]. *)
Definition failure (repo_input : string) (e : exn) : M record :=
  ret (<["success" := VBool false]>
       (<["error" := VStr (exn_str e)]>
       (<["repo_input" := VStr repo_input]> ∅))).

(** The [finally] of [run_gitingest]: a temporary file is removed, and a
    failure to remove it is ignored. *)
Definition cleanup (temp_file : option string) : M unit :=
  match temp_file with
  | Some f =>
      if PyStr.is_empty f then ret tt
      else
        ex <- os_path_exists H f ;;
        if ex then try_except (os_remove H f) (fun _ => ret tt) else ret tt
  | None => ret tt
  end.

(** [run_gitingest]: without an output file a temporary one is made by
    [tempfile.mkstemp], used and removed. *)
Definition run_gitingest (repo_input output_file : string) : M record :=
  if PyStr.is_empty output_file then
    t <- get_tree ;;
    let temp_file := mkstemp H t in
    try_except
      (create_file H temp_file ;;
       try_finally
         (try_except (run_gitingest_body repo_input temp_file) (failure repo_input))
         (cleanup (Some temp_file)))
      (failure repo_input)
  else
    try_finally
      (try_except (run_gitingest_body repo_input output_file) (failure repo_input))
      (cleanup None).

(** [repo_index_exists] *)
Definition repo_index_exists (repo indexes_dir : string) : M bool :=
  let repo_dir := PathLib.Path indexes_dir </> repo in
  a <- path_exists H (repo_dir </> "repo.index") ;;
  b <- path_exists H (repo_dir </> "chunks.json") ;;
  c <- path_exists H (repo_dir </> "graph.pkl") ;;
  ret (a && b && c).

(** [delete_repo_index] *)
Definition delete_repo_index (repo indexes_dir : string) : M bool :=
  let repo_dir := PathLib.Path indexes_dir </> repo in
  ex <- path_exists H repo_dir ;;
  if ex then rmtree H (PathLib.to_str repo_dir) ;; ret true
  else ret false.

(** [_is_probable_git_url] *)
Definition _is_probable_git_url (s : string) : bool :=
  let s := PyStr.strip s in
  bool_decide (is_Some (Re.rematch scheme_re s)) || PyStr.contains "github.com" s.

(** [_normalize_local_path] *)
Definition _normalize_local_path (s : string) : string :=
  let p := PyStr.strip_char "'" (PyStr.strip_char PyStr.dquote (PyStr.strip s)) in
  let p := expanduser H p in
  let p := expandvars H p in
  PathLib.to_str (PathLib.Path p).

(** [ingest_repo] from the index check on (lines 205 to 229), once
    [owner], [repo] and [effective_input] are known. *)
Definition ingest_finish (owner repo effective_input : string) (is_url : bool)
    (output_dir : string) (clone : bool) (indexes_dir : string) : M record :=
  (* Check and delete existing index data if present *)
  complete <- repo_index_exists repo indexes_dir ;;
  (if complete then delete_repo_index repo indexes_dir ;; ret tt else ret tt) ;;
  let timestamp := now H in
  let output_file :=
    output_dir +:+ "/" +:+ owner +:+ "_" +:+ repo +:+ "_" +:+ timestamp +:+ ".txt" in
  (* Run gitingest (for URL or local path) *)
  result <- run_gitingest effective_input output_file ;;
  if negb (get_truthy result "success") then ret result
  else
    let result := <["output_file" := VStr output_file]> result in
    (* Clone only for URL inputs *)
    local <- os_path_isdir H effective_input ;;
    if clone && is_url && negb local then
      try_except
        (local_path <- clone_repo effective_input "my_repos" true ;;
         ret (<["local_repo" := VStr local_path]> result))
        (fun _ => ret (<["local_repo" := VNone]> result))
    else ret result.

(** [ingest_repo] for a local path (lines 184 to 199): the directory must
    exist; its resolved location is saved under [my_repos/Local]. *)
Definition ingest_local (raw_input output_dir : string) (clone : bool)
    (indexes_dir : string) : M record :=
  let local_path := _normalize_local_path raw_input in
  found <- os_path_isdir H local_path ;;
  if negb found then
    ret (<["success" := VBool false]>
         (<["error" := VStr ("Local path not found or not a directory: "
                             +:+ local_path)]> ∅))
  else
    let repo_path := path_resolve H (PathLib.Path local_path) in
    let owner := "Local" in
    let repo := PathLib.name repo_path in
    let local_repo_dir := PathLib.Path "my_repos" </> owner </> repo in
    path_mkdir H true true local_repo_dir ;;
    let local_repo_file := local_repo_dir </> "repopath.txt" in
    write_text H (PathLib.to_str local_repo_file) (PathLib.to_str repo_path) ;;
    let effective_input := PathLib.to_str repo_path in
    ingest_finish owner repo effective_input false output_dir clone indexes_dir.

(** [ingest_repo] *)
Definition ingest_repo (repo_input output_dir : string) (clone : bool)
    (indexes_dir : string) : M record :=
  path_mkdir H false true (PathLib.Path output_dir) ;;
  (* Sanitize input *)
  if PyStr.is_empty repo_input || PyStr.is_empty (PyStr.strip repo_input) then
    ret (<["success" := VBool false]>
         (<["error" := VStr "No repository URL or local path provided."]> ∅))
  else
    let raw_input := PyStr.strip repo_input in
    let is_url := _is_probable_git_url raw_input in
    if negb is_url then
      (* Treat as local path; require it to exist *)
      ingest_local raw_input output_dir clone indexes_dir
    else
      (* Git URL *)
      names <- parse_github_url raw_input ;;
      let '(owner, repo) := names in
      let effective_input := raw_input in
      ingest_finish owner repo effective_input true output_dir clone indexes_dir.

(** The HTTP route [/ingest]: whatever [ingest_repo] raises is turned
    into a failure record. *)
Definition ingest_route (repo_link : string) : M record :=
  try_except
    (ingest_repo repo_link "gitingest_outputs" true "indexes")
    (fun e => ret (<["success" := VBool false]> (<["error" := VStr (exn_str e)]> ∅))).

End Methods.
End RepoIngestor.

(* ===================================================================== *)
(** ** The command line *)
(* ===================================================================== *)

(** The terminal of the script: what is still to be read from the standard
    input, one line at a time, and what has been written to the standard
    output. *)
Module Terminal.

Inductive written :=
| Prompt (s : string)               (* the prompt of an [input] *)
| Print (s : string)                (* [print(s)] *)
| PrintRecord (d : record).         (* [print(result)] *)

(** How a part of the script ends: with a value, at the end of the input,
    or with an exception of the orchestrator. *)
Inductive ending (A : Type) :=
| Done (a : A)
| EOFError
| Crashed (e : exn).
Arguments Done {A} a.
Arguments EOFError {A}.
Arguments Crashed {A} e.

(** A computation reads lines and writes; it stops at the first part that
    does not end with a value. *)
Definition T (A : Type) : Type := list string -> ending A * list string * list written.

Definition ret {A} (a : A) : T A := fun lines => (Done a, lines, []).

Definition bind {A B} (m : T A) (k : A -> T B) : T B :=
  fun lines =>
    match m lines with
    | (Done a, rest, out) =>
        match k a rest with
        | (r, rest', out') => (r, rest', (out ++ out')%list)
        end
    | (EOFError, rest, out) => (EOFError, rest, out)
    | (Crashed e, rest, out) => (Crashed e, rest, out)
    end.

(** [print(s)] *)
Definition print (s : string) : T unit := fun lines => (Done tt, lines, [Print s]).

(** [input(prompt)]: the prompt is written and a line is read; at the end
    of the input it raises [EOFError]. *)
Definition input (prompt : string) : T string :=
  fun lines =>
    match lines with
    | [] => (EOFError, [], [Prompt prompt])
    | l :: rest => (Done l, rest, [Prompt prompt])
    end.

End Terminal.

Definition is_choice (s : string) : bool := String.eqb s "1" || String.eqb s "2".

(** Lines 239 to 241: the answer is asked for until it is [1] or [2];
    [again] tells the first prompt from the later ones. *)
Fixpoint ask_choice (again : bool) (lines : list string) :
    Terminal.ending string * list string * list Terminal.written :=
  let prompt :=
    Terminal.Prompt (if again then "Please enter 1 or 2: " else "Enter 1 or 2: ") in
  match lines with
  | [] => (Terminal.EOFError, [], [prompt])
  | l :: rest =>
      let choice := PyStr.strip l in
      if is_choice choice then (Terminal.Done choice, rest, [prompt])
      else
        match ask_choice true rest with
        | (r, rest', out) => (r, rest', prompt :: out)
        end
  end.

(** Lines 248 to 253: a path is asked for until it is that of a
    directory. *)
Fixpoint ask_path (H : host) (t : tree) (lines : list string) :
    Terminal.ending string * list string * list Terminal.written :=
  let prompt := Terminal.Prompt "Enter local repo path: " in
  match lines with
  | [] => (Terminal.EOFError, [], [prompt])
  | l :: rest =>
      let path := PyStr.strip_char "'" (PyStr.strip_char PyStr.dquote (PyStr.strip l)) in
      let path := expanduser H path in
      if OS.isdir t (cwd H) path then (Terminal.Done path, rest, [prompt])
      else
        match ask_path H t rest with
        | (r, rest', out) =>
            (r, rest',
             prompt
             :: Terminal.Print ("Path not found or not a directory: " +:+ path
                                +:+ ". Try again." +:+ String PyStr.LF EmptyString)
             :: out)
        end
  end.

(** [prompt_repo_input]: the input and the token, which is [None] when it
    was left blank and for a local path. *)
Definition prompt_repo_input (H : host) (t : tree) : Terminal.T (string * option string) :=
  Terminal.bind (Terminal.print (String PyStr.LF "Select input type:")) (fun _ =>
  Terminal.bind
    (Terminal.print "  [1] Git URL (e.g., https://github.com/owner/repo.git)") (fun _ =>
  Terminal.bind (Terminal.print "  [2] Local repo path (e.g., C:\dev\myproject)") (fun _ =>
  Terminal.bind (ask_choice false) (fun choice =>
  if String.eqb choice "1" then
    Terminal.bind (Terminal.input "Enter Git repo URL: ") (fun url =>
    Terminal.bind (Terminal.input "Enter GitHub token (leave blank if not needed): ")
      (fun token =>
    let token := PyStr.strip token in
    Terminal.ret (PyStr.strip url, if PyStr.is_empty token then None else Some token)))
  else
    Terminal.bind (ask_path H t) (fun path => Terminal.ret (path, None)))))).

(** What a run of the script leaves: how it ended, the tree, the journal
    of the orchestrator, the lines not read, and what was written. *)
Record session := {
  ended : Terminal.ending unit;
  final_tree : tree;
  journal : list event;
  unread : list string;
  output : list Terminal.written;
}.

(** The script (lines 256 to 275), called with the values that [argparse]
    gives to [args.repo] and [args.token] ([None] for an option that is
    not there).  With [--repo] it ingests and prints the record; without
    it it asks for the input, ingests, and prints the heading only. *)
Definition main (H : host) (repo token : option string) (lines : list string) (t : tree) :
    session :=
  if truthy repo then
    (* Non-interactive mode (no prompts) *)
    let github_token := if truthy token then token else None in
    match RepoIngestor.ingest_repo H github_token (default EmptyString repo)
            "gitingest_outputs" true "indexes" t with
    | (Ret result, t', evs) =>
        {| ended := Terminal.Done tt; final_tree := t'; journal := evs; unread := lines;
           output := [Terminal.Print (String PyStr.LF "Ingest result:");
                      Terminal.PrintRecord result] |}
    | (Raise e, t', evs) =>
        {| ended := Terminal.Crashed e; final_tree := t'; journal := evs; unread := lines;
           output := [] |}
    end
  else
    (* Interactive mode (prompts user for input) *)
    match prompt_repo_input H t lines with
    | (Terminal.Done (repo_input, token), rest, out) =>
        match RepoIngestor.ingest_repo H token repo_input
                "gitingest_outputs" true "indexes" t with
        | (Ret result, t', evs) =>
            {| ended := Terminal.Done tt; final_tree := t'; journal := evs; unread := rest;
               output := (out ++ [Terminal.Print (String PyStr.LF "Ingest result:")])%list |}
        | (Raise e, t', evs) =>
            {| ended := Terminal.Crashed e; final_tree := t'; journal := evs;
               unread := rest; output := out |}
        end
    | (Terminal.EOFError, rest, out) =>
        {| ended := Terminal.EOFError; final_tree := t; journal := [];
           unread := rest; output := out |}
    | (Terminal.Crashed e, rest, out) =>
        {| ended := Terminal.Crashed e; final_tree := t; journal := [];
           unread := rest; output := out |}
    end.

(* ===================================================================== *)
(** ** Vocabulary of the statements *)
(* ===================================================================== *)

Fixpoint all_chars (p : ascii -> bool) (s : string) : bool :=
  match s with
  | String c s' => p c && all_chars p s'
  | EmptyString => true
  end.

Definition not_slash (c : ascii) : bool := negb (Ascii.eqb c "/").

(** A path segment of a URL: not empty, and without a slash. *)
Definition segment (s : string) : Prop :=
  s <> EmptyString /\ all_chars not_slash s = true.

(** A segment that names an entry of a directory: neither [.] nor [..]. *)
Definition plain (s : string) : Prop :=
  segment s /\ s <> "." /\ s <> "..".

Fixpoint last_char (s : string) : option ascii :=
  match s with
  | EmptyString => None
  | String c EmptyString => Some c
  | String _ s' => last_char s'
  end.

(** What may follow the repository name in the pattern of
    [parse_github_url]: nothing or [.git], and then the end of the subject
    or a last line feed. *)
Definition closes (s : string) : bool :=
  match Re.strip_prefix ".git" s with
  | Some r => Re.at_eol r || Re.at_eol s
  | None => Re.at_eol s
  end.

(** The name with a final [.git] taken off, when something precedes it. *)
Fixpoint chop_git (s : string) : string :=
  match s with
  | EmptyString => EmptyString
  | String c s' =>
      if String.eqb s' ".git" then String c EmptyString else String c (chop_git s')
  end.

(** A path as [pathlib] builds it: one of the three anchors, and no part
    that is empty or a single dot. *)
Definition tidy (p : PathLib.path) : Prop :=
  Forall (fun w => PathLib.keeps w = true) (PathLib.parts p) /\
  (PathLib.anchor p = EmptyString \/ PathLib.anchor p = "/" \/ PathLib.anchor p = "//").

(** Where the path string [s] leads by its spelling alone. *)
Definition lex (cwd : key) (s : string) : key :=
  fold_left OS.step (PyStr.split_on "/" s) (if OS.is_abs s then [] else cwd).

(** [t'] has everything [t] has, and every directory of [t] still is one. *)
Definition grows (t t' : tree) : Prop :=
  forall k, (is_Some (t !! k) -> is_Some (t' !! k)) /\
            (t !! k = Some Dir -> t' !! k = Some Dir).

(** [t] and [t'] have the same entries at and below [d]. *)
Definition same_below (d : key) (t t' : tree) : Prop :=
  forall k, d `prefix_of` k -> t' !! k = t !! k.

(** Nothing is left at or below [d]. *)
Definition gone (d : key) (t : tree) : Prop :=
  forall k, d `prefix_of` k -> t !! k = None.

Definition raised {A} (r : res A) : Prop := exists e, r = Raise e.

Definition exit_ok (p : proc) : bool :=
  match p with
  | Exited 0 _ _ => true
  | _ => false
  end.

(** The ingestion tool was run and exited with status 0. *)
Definition tool_succeeded (evs : list event) : Prop :=
  exists cmd token seen res, Gitingest cmd token seen res ∈ evs /\ exit_ok res = true.

(** The version-control client was run. *)
Definition clone_attempted (evs : list event) : Prop :=
  exists cmd seen res, GitClone cmd seen res ∈ evs.

Definition clone_succeeded (evs : list event) : Prop :=
  exists cmd seen res, GitClone cmd seen res ∈ evs /\ exit_ok res = true.

Definition clone_failed (evs : list event) : Prop :=
  exists cmd seen res, GitClone cmd seen res ∈ evs /\ exit_ok res = false.

Definition is_clone (e : event) : bool :=
  match e with GitClone _ _ _ => true | _ => false end.

Definition is_tool (e : event) : bool :=
  match e with Gitingest _ _ _ _ => true | _ => false end.

(** The version-control client was not run. *)
Definition no_clone (evs : list event) : Prop := Forall (fun e => is_clone e = false) evs.

(** The ingestion tool was not run. *)
Definition no_tool (evs : list event) : Prop := Forall (fun e => is_tool e = false) evs.

(** The three files whose presence makes an index complete. *)
Definition index_complete (t : tree) (cwd : key) (indexes_dir repo : string) : bool :=
  let repo_dir := PathLib.Path indexes_dir </> repo in
  OS.exists_ t cwd (PathLib.to_str (repo_dir </> "repo.index"))
  && OS.exists_ t cwd (PathLib.to_str (repo_dir </> "chunks.json"))
  && OS.exists_ t cwd (PathLib.to_str (repo_dir </> "graph.pkl")).

(** The index directory of a repository, as [repo_index_exists] and
    [delete_repo_index] spell it. *)
Definition index_dir (indexes_dir repo : string) : string :=
  PathLib.to_str (PathLib.Path indexes_dir </> repo).

(** What the invalidation of a stale index (lines 206 and 207) makes of the
    tree [t] when it does not fail: [t2] is the tree afterwards and [evs]
    what was emitted. *)
Definition invalidated (cwd : key) (indexes_dir repo : string)
    (t t2 : tree) (evs : list event) : Prop :=
  (index_complete t cwd indexes_dir repo = false /\ t2 = t /\ evs = [])
  \/ (index_complete t cwd indexes_dir repo = true /\
      OS.exists_ t cwd (index_dir indexes_dir repo) = false /\ t2 = t /\ evs = [])
  \/ (index_complete t cwd indexes_dir repo = true /\
      exists k, OS.locate t cwd (index_dir indexes_dir repo) = inr k /\
                evs = [Removed (index_dir indexes_dir repo)] /\
                t2 = delete k (OS.prune k t)).

(** The two shapes of the record that [run_gitingest] returns. *)
Definition ok_record (repo_input : string) : record :=
  <["success" := VBool true]>
  (<["structured_text" := VStr "File Successfully Ingested!"]>
  (<["repo_input" := VStr repo_input]> ∅)).

Definition failed_record (repo_input message : string) : record :=
  <["success" := VBool false]>
  (<["error" := VStr message]>
  (<["repo_input" := VStr repo_input]> ∅)).

(** The name of the output file (line 210). *)
Definition output_name (output_dir owner repo timestamp : string) : string :=
  output_dir +:+ "/" +:+ owner +:+ "_" +:+ repo +:+ "_" +:+ timestamp +:+ ".txt".

(** The records that [ingest_repo] returns before any tool is run. *)
Definition no_input_record : record :=
  <["success" := VBool false]>
  (<["error" := VStr "No repository URL or local path provided."]> ∅).

Definition not_found_record (local_path : string) : record :=
  <["success" := VBool false]>
  (<["error" := VStr ("Local path not found or not a directory: " +:+ local_path)]> ∅).

(** An input without anything but white space. *)
Definition blank (repo_input : string) : bool :=
  PyStr.is_empty repo_input || PyStr.is_empty (PyStr.strip repo_input).

(** The marker file of a local repository (lines 193 and 195). *)
Definition marker_file (repo : string) : string :=
  PathLib.to_str (PathLib.Path "my_repos" </> "Local" </> repo </> "repopath.txt").

(** What [ingest_repo] hands to the ingestion tool: the stripped reference
    when it is taken for a remote one, the resolved directory otherwise. *)
Definition effective_input (H : host) (raw_input : string) : string :=
  if RepoIngestor._is_probable_git_url raw_input then raw_input
  else PathLib.to_str
         (path_resolve H (PathLib.Path (RepoIngestor._normalize_local_path H raw_input))).


(** The owner and the repository that [ingest_repo] derives from its
    stripped input. *)
Definition derived_names (H : host) (raw_input owner repo : string) : Prop :=
  if RepoIngestor._is_probable_git_url raw_input
  then parse_github_url_groups raw_input = Some (owner, repo)
  else owner = "Local" /\
       repo = PathLib.name
                (path_resolve H (PathLib.Path (RepoIngestor._normalize_local_path H raw_input))).

(** Both of them name entries of a directory. *)
Definition plain_names (H : host) (raw_input : string) : Prop :=
  forall owner repo, derived_names H raw_input owner repo -> plain owner /\ plain repo.

(** The call of an external program that [e] records left the entries at
    and below [d] as they were. *)
Definition keeps_below (H : host) (d : key) (e : event) : Prop :=
  match e with
  | Gitingest cmd token seen _ => same_below d seen (gitingest H cmd token seen).2
  | GitClone cmd seen _ => same_below d seen (git H cmd seen).2
  | _ => True
  end.

(** Every call of an external program in the journal did. *)
Definition tools_keep (H : host) (d : key) (evs : list event) : Prop :=
  Forall (keeps_below H d) evs.

(** ** A host to run examples on *)

Module Demo.

Definition home : string := "/home/dev".

(** [os.path.expanduser] for a user whose home is [home]: a leading tilde
    alone or before a slash is replaced. *)
Definition demo_expanduser (s : string) : string :=
  if String.eqb s "~" || PyStr.startswith "~/" s then home +:+ PyStr.drop 1 s else s.

(** An ingestion tool that writes its output file and exits with 0. *)
Definition tool_ok (cmd : list string) (_ : option string) (t : tree) : proc * tree :=
  match cmd !! 3%nat with
  | Some out =>
      match OS.write_file t ["work"] out "digest" with
      | inr t' => (Exited 0 EmptyString EmptyString, t')
      | inl _ => (Exited 1 EmptyString "cannot write", t)
      end
  | None => (Exited 2 EmptyString "usage", t)
  end.

(** An ingestion tool that is refused by the hosting service. *)
Definition tool_fail (_ : list string) (_ : option string) (t : tree) : proc * tree :=
  (Exited 1 EmptyString "auth failed", t).

(** A client that makes the destination directory and exits with 0. *)
Definition git_ok (cmd : list string) (t : tree) : proc * tree :=
  match cmd !! 5%nat with
  | Some dest =>
      match OS.mkdir t ["work"] dest with
      | inr t' => (Exited 0 EmptyString EmptyString, t')
      | inl _ => (Exited 128 EmptyString "fatal: destination path already exists", t)
      end
  | None => (Exited 129 EmptyString "usage", t)
  end.

(** A client that does not find the repository. *)
Definition git_fail (_ : list string) (t : tree) : proc * tree :=
  (Exited 128 EmptyString "fatal: repository not found", t).

(** A process in [/work], in an environment without variables. *)
Definition host_with (tool : list string -> option string -> tree -> proc * tree)
    (client : list string -> tree -> proc * tree) : host :=
  {| cwd := ["work"]; now := "20240101_120000";
     expanduser := demo_expanduser; expandvars := fun s => s;
     mkstemp := fun _ => "/tmp/gitingest_abc.txt";
     gitingest := tool; git := client |}.

(** [/work] with a project directory in it. *)
Definition workdir : tree :=
  <[["work"] := Dir]> (<[["work"; "proj"] := Dir]> (<[["tmp"] := Dir]> ∅)).

(** The same with a complete index for the repository [r]. *)
Definition indexed : tree :=
  <[["work"; "indexes"] := Dir]>
  (<[["work"; "indexes"; "r"] := Dir]>
  (<[["work"; "indexes"; "r"; "repo.index"] := File "i"]>
  (<[["work"; "indexes"; "r"; "chunks.json"] := File "c"]>
  (<[["work"; "indexes"; "r"; "graph.pkl"] := File "g"]> workdir)))).

(** The same with an earlier clone directory and an index for the repository
    [indexes] of which only the chunk list is there. *)
Definition partial : tree :=
  <[["work"; "my_repos"] := Dir]>
  (<[["work"; "indexes"] := Dir]>
  (<[["work"; "indexes"; "indexes"] := Dir]>
  (<[["work"; "indexes"; "indexes"; "chunks.json"] := File "c"]> workdir))).

(** A call of [ingest_repo] with the default keyword arguments. *)
Definition ingest (h : host) (token : option string) (repo_input : string) (t : tree) :=
  RepoIngestor.ingest_repo h token repo_input "gitingest_outputs" true "indexes" t.

(** The commands of the two programs for the reference [url], and the
    trees they see in [workdir]. *)
Definition url : string := "https://github.com/o/r.git".

Definition tool_cmd : list string :=
  ["gitingest"; url; "--output"; "gitingest_outputs/o_r_20240101_120000.txt"].

Definition clone_cmd : list string :=
  ["git"; "clone"; "--depth"; "1"; url; "my_repos/o/r"].

Definition seen_by_tool : tree := <[["work"; "gitingest_outputs"] := Dir]> workdir.

Definition seen_by_client : tree :=
  <[["work"; "my_repos"; "o"] := Dir]>
  (<[["work"; "my_repos"] := Dir]>
  (<[["work"; "gitingest_outputs"; "o_r_20240101_120000.txt"] := File "digest"]>
   seen_by_tool)).

(** Three runs on a remote reference: the tool is refused; the clone fails;
    both succeed. *)
Definition run_refused := ingest (host_with tool_fail git_ok) None url workdir.
Definition run_unclonable := ingest (host_with tool_ok git_fail) None url workdir.
Definition run_cloned := ingest (host_with tool_ok git_ok) None url workdir.

(** A reference to another host, and three runs on local paths: a
    directory, a relative spelling of it, and a path that is not there. *)
Definition run_invalid :=
  ingest (host_with tool_ok git_ok) None "https://example.com/project" workdir.
Definition run_local := ingest (host_with tool_ok git_ok) None "proj" workdir.
Definition run_missing := ingest (host_with tool_ok git_ok) None "nothere" workdir.

(** A run on the name of the output directory, which is not there before
    the call. *)
Definition run_output_dir :=
  ingest (host_with tool_ok git_ok) None "gitingest_outputs" workdir.





(** Two references to a repository called [indexes], one with a plain owner
    and one whose owner is the parent directory, and their runs on the tree
    [partial]. *)
Definition url_plain : string := "https://github.com/o/indexes".
Definition url_up : string := "https://github.com/../indexes".

Definition run_partial := ingest (host_with tool_ok git_ok) None url_plain partial.
Definition run_partial_up := ingest (host_with tool_ok git_fail) None url_up partial.

End Demo.

(** ** Vocabulary of the further properties *)

(** A record as [run_gitingest] builds them. *)
Definition tool_record (repo_input : string) (d : record) : Prop :=
  d = ok_record repo_input \/ exists message, d = failed_record repo_input message.

(** The command line of the ingestion tool, with the token when it is
    handed over. *)
Definition gitingest_cmd (repo_input output_file : string) (token : option string) :
    list string :=
  match token with
  | Some tk => ["gitingest"; repo_input; "--output"; output_file; "--token"; tk]
  | None => ["gitingest"; repo_input; "--output"; output_file]
  end.

Definition is_write (e : event) : bool :=
  match e with Wrote _ _ => true | _ => false end.

(** The orchestrator wrote no file. *)
Definition no_write (evs : list event) : Prop := Forall (fun e => is_write e = false) evs.

(** The two shapes of a record that [ingest_repo] returns: a failure with
    its message, or a success with the path of the output file. *)
Definition result_shape (d : record) : Prop :=
  (d !! "success" = Some (VBool false) /\ (exists message, d !! "error" = Some (VStr message)) /\
   d !! "output_file" = None /\ d !! "local_repo" = None)
  \/ (d !! "success" = Some (VBool true) /\ d !! "error" = None /\
      d !! "structured_text" = Some (VStr "File Successfully Ingested!") /\
      exists output_file, d !! "output_file" = Some (VStr output_file)).

(** ** Further examples *)

Module Sample.

(** The output file of the reference [Demo.url], the tree once the tool has
    written it, and a call of [run_gitingest] without an output file. *)
Definition output_file : string := "gitingest_outputs/o_r_20240101_120000.txt".

Definition digested : tree :=
  <[["work"; "gitingest_outputs"; "o_r_20240101_120000.txt"] := File "digest"]>
    Demo.seen_by_tool.

Definition tool_run (h : host) (token : option string) (repo_input output_file : string)
    (t : tree) :=
  RepoIngestor.run_gitingest h token repo_input output_file t.

Definition run_tool_temp :=
  tool_run (Demo.host_with Demo.tool_ok Demo.git_ok) None Demo.url EmptyString
    Demo.workdir.

(** The index of [Demo.indexed] deleted. *)
Definition unindexed : tree :=
  delete ["work"; "indexes"; "r"] (OS.prune ["work"; "indexes"; "r"] Demo.indexed).

(** Two calls of [clone_repo]: with a token and a client that succeeds, and
    without one and a client that fails. *)
Definition token : string := "s3cr3t".

Definition before_clone : tree :=
  <[["work"; "my_repos"; "o"] := Dir]> (<[["work"; "my_repos"] := Dir]> Demo.workdir).

Definition token_cmd : list string :=
  ["git"; "clone"; "--depth"; "1"; "https://s3cr3t@github.com/o/r.git"; "my_repos/o/r"].

Definition clone (h : host) (token : option string) (url : string) (t : tree) :=
  RepoIngestor.clone_repo h token url "my_repos" true t.

Definition run_clone :=
  clone (Demo.host_with Demo.tool_ok Demo.git_ok) (Some token) Demo.url Demo.workdir.

Definition run_clone_fail :=
  clone (Demo.host_with Demo.tool_ok Demo.git_fail) None Demo.url Demo.workdir.

(** A working directory in which the name of the output directory is that
    of a file. *)
Definition blocked : tree := <[["work"; "gitingest_outputs"] := File "x"]> Demo.workdir.

(** The run of [Demo.run_partial], step by step: the output directory is
    made, the tool writes its file, the parent of the destination is made,
    the client makes the destination. *)
Definition partial_cmd : list string :=
  ["gitingest"; Demo.url_plain; "--output"; "gitingest_outputs/o_indexes_20240101_120000.txt"].

Definition partial_clone_cmd : list string :=
  ["git"; "clone"; "--depth"; "1"; Demo.url_plain; "my_repos/o/indexes"].

Definition partial_seen_by_tool : tree :=
  <[["work"; "gitingest_outputs"] := Dir]> Demo.partial.

Definition partial_digested : tree :=
  <[["work"; "gitingest_outputs"; "o_indexes_20240101_120000.txt"] := File "digest"]>
    partial_seen_by_tool.

Definition partial_seen_by_client : tree :=
  <[["work"; "my_repos"; "o"] := Dir]> partial_digested.

Definition partial_cloned : tree :=
  <[["work"; "my_repos"; "o"; "indexes"] := Dir]> partial_seen_by_client.

End Sample.

(** ** Vocabulary of the command line *)

(** A line that is no answer to the question for the input type. *)
Definition no_choice (l : string) : Prop := is_choice (PyStr.strip l) = false.

(** What [prompt_repo_input] makes of a line typed as a local path. *)
Definition typed_path (H : host) (l : string) : string :=
  expanduser H (PyStr.strip_char "'" (PyStr.strip_char PyStr.dquote (PyStr.strip l))).

(** A line that does not name a directory. *)
Definition no_directory (H : host) (t : tree) (l : string) : Prop :=
  OS.isdir t (cwd H) (typed_path H l) = false.

(** The record was printed. *)
Definition shows_record (out : list Terminal.written) : Prop :=
  exists d, Terminal.PrintRecord d ∈ out.

(* ===================================================================== *)
(** * Properties *)
(* ===================================================================== *)

(** ** Strings *)

Import Re.

Lemma str_app_cons (c : ascii) (a b : string) : String c a +:+ b = String c (a +:+ b).
Proof. reflexivity. Qed.

Lemma str_app_nil_l (s : string) : EmptyString +:+ s = s.
Proof. reflexivity. Qed.

Lemma str_app_nil_r (s : string) : s +:+ EmptyString = s.
Proof. induction s as [|c s IH]; [done | by rewrite str_app_cons, IH]. Qed.

Lemma str_app_assoc (a b c : string) : (a +:+ b) +:+ c = a +:+ (b +:+ c).
Proof. induction a as [|x a IH]; [done | by rewrite !str_app_cons, IH]. Qed.

Lemma str_length_app (a b : string) :
  String.length (a +:+ b) = String.length a + String.length b.
Proof. induction a as [|x a IH]; [done | rewrite str_app_cons; simpl; by rewrite IH]. Qed.

Lemma str_take_app (a b : string) :
  PyStr.take (String.length (a +:+ b) - String.length b) (a +:+ b) = a.
Proof.
  rewrite str_length_app.
  replace (String.length a + String.length b - String.length b) with (String.length a) by lia.
  unfold PyStr.take. induction a as [|x a IH].
  - by destruct b.
  - rewrite str_app_cons. simpl. by rewrite IH.
Qed.

Lemma last_char_app_cons (a : string) (c : ascii) (b : string) :
  last_char (a +:+ String c b) = last_char (String c b).
Proof.
  induction a as [|x a IH]; [done|].
  rewrite str_app_cons. cbn [last_char]. rewrite IH.
  by destruct a.
Qed.

(** ** The pattern of [parse_github_url] *)

Lemma star_greedy_stop {R} (p : ascii -> bool) (k : string -> option R)
    (o : string) (c : ascii) (rest : string) (r : R) :
  all_chars p o = true -> p c = false -> k (String c rest) = Some r ->
  star_greedy p k (o +:+ String c rest) = Some r.
Proof.
  intros Ho Hc Hk. induction o as [|x o IH].
  - rewrite str_app_nil_l. cbn [star_greedy]. by rewrite Hc.
  - rewrite str_app_cons. cbn [star_greedy].
    cbn [all_chars] in Ho. apply andb_prop in Ho as [Hx Ho].
    by rewrite Hx, (IH Ho).
Qed.

Lemma star_lazy_unfold {R} (p : ascii -> bool) (k : string -> option R) (s : string) :
  star_lazy p k s =
  match k s with
  | Some r => Some r
  | None =>
      match s with
      | String c s' => if p c then star_lazy p k s' else None
      | EmptyString => None
      end
  end.
Proof. by destruct s. Qed.

(** A lazy repetition stops at the first place from which the rest of the
    pattern matches. *)
Lemma star_lazy_first {R} (p : ascii -> bool) (k : string -> option R)
    (pre suf : string) (r : R) :
  all_chars p pre = true ->
  (forall a b, pre = a +:+ b -> b <> EmptyString -> k (b +:+ suf) = None) ->
  k suf = Some r ->
  star_lazy p k (pre +:+ suf) = Some r.
Proof.
  revert r. induction pre as [|x pre IH]; intros r Hp Hno Hk.
  - rewrite str_app_nil_l, star_lazy_unfold. by rewrite Hk.
  - rewrite star_lazy_unfold.
    rewrite (Hno EmptyString (String x pre)); [|done|done].
    rewrite str_app_cons.
    cbn [all_chars] in Hp. apply andb_prop in Hp as [Hx Hp]. rewrite Hx.
    apply IH; [done| |done].
    intros a b -> Hb. apply (Hno (String x a) b); [by rewrite str_app_cons | done].
Qed.

Lemma strip_prefix_Some (t s r : string) :
  strip_prefix t s = Some r -> s = t +:+ r.
Proof.
  revert s. induction t as [|a t IH]; intros s; cbn [strip_prefix].
  - by intros [= ->].
  - destruct s as [|b s]; [done|].
    destruct (Ascii.eqb_spec a b) as [->|]; [|done].
    intros Hs. by rewrite (IH _ Hs).
Qed.

Lemma strip_prefix_app (t r : string) : strip_prefix t (t +:+ r) = Some r.
Proof.
  induction t as [|a t IH]; [done|].
  rewrite str_app_cons. cbn [strip_prefix]. by rewrite Ascii.eqb_refl.
Qed.

Lemma run_tail (n : nat) (s : string) (g : groups) :
  run (Cat (Opt (Lit ".git")) Eol) n s g accept = if closes s then Some g else None.
Proof.
  cbn [run]. unfold closes, accept.
  destruct (strip_prefix ".git" s) as [r|]; [|done].
  by destruct (at_eol r), (at_eol s).
Qed.

Lemma closes_cases (s : string) :
  closes s = true ->
  s = EmptyString \/ s = ".git" \/ last_char s = Some PyStr.LF.
Proof.
  unfold closes.
  assert (Heol : forall x, at_eol x = true -> x = EmptyString \/ last_char x = Some PyStr.LF).
  { intros [|c [|d x]]; cbn; intros Hx; try done; [by left|].
    right. by apply Ascii.eqb_eq in Hx as ->. }
  destruct (strip_prefix ".git" s) as [r|] eqn:Hr.
  - intros [Hx|Hx]%orb_prop.
    + apply strip_prefix_Some in Hr as ->.
      destruct (Heol _ Hx) as [->|Hl]; [by right; left|].
      right; right.
      destruct r as [|c r]; [done|].
      by rewrite last_char_app_cons.
    + destruct (Heol _ Hx); tauto.
  - intros Hx. destruct (Heol _ Hx); tauto.
Qed.

Lemma chop_git_split (s : string) :
  exists suf, s = chop_git s +:+ suf /\
    ((suf = EmptyString /\ forall a, a <> EmptyString -> s <> a +:+ ".git")
     \/ suf = ".git").
Proof.
  induction s as [|c s IH].
  - exists EmptyString. split; [done|]. left. split; [done|].
    intros [|x a] Ha; [done|]. by rewrite str_app_cons.
  - cbn [chop_git]. destruct (String.eqb_spec s ".git") as [->|Hs].
    + exists ".git". split; [done | by right].
    + destruct IH as (suf & Heq & Hsuf).
      exists suf. split; [by rewrite str_app_cons, <- Heq|].
      destruct Hsuf as [[-> Hno] | ->]; [left | by right].
      split; [done|]. intros [|x a] Ha; [done|].
      rewrite str_app_cons. intros Heq'. injection Heq' as _ Hs'.
      destruct a as [|y a]; [by rewrite str_app_nil_l in Hs'|].
      by apply (Hno (String y a)).
Qed.

Lemma chop_git_app (a : string) :
  a <> EmptyString -> chop_git (a +:+ ".git") = a.
Proof.
  induction a as [|c a IH]; [done|]. intros _.
  rewrite str_app_cons. cbn [chop_git].
  destruct a as [|d a].
  - by rewrite str_app_nil_l.
  - destruct (String.eqb_spec (String d a +:+ ".git") ".git") as [Heq|_].
    + apply (f_equal String.length) in Heq. rewrite str_length_app in Heq.
      cbn in Heq. lia.
    + by rewrite IH.
Qed.

Lemma str_all_chars_app (p : ascii -> bool) (a b : string) :
  all_chars p (a +:+ b) = all_chars p a && all_chars p b.
Proof.
  induction a as [|c a IH]; [done|].
  rewrite str_app_cons. cbn [all_chars]. by rewrite IH, andb_assoc.
Qed.

Lemma all_chars_ext (p q : ascii -> bool) (s : string) :
  (forall c, p c = q c) -> all_chars p s = all_chars q s.
Proof. intros E. induction s as [|c s IH]; [done|]. cbn. by rewrite E, IH. Qed.

Lemma item_not_slash (c : ascii) : item_ok (NotIn ["/"%char]) c = not_slash c.
Proof. cbn. by rewrite orb_false_r. Qed.

Lemma closes_after_name (c : ascii) (seg' : string) :
  last_char (String c seg') <> Some PyStr.LF ->
  exists pre suf,
    chop_git (String c seg') = String c pre /\ seg' = pre +:+ suf /\
    closes suf = true /\
    forall a b, pre = a +:+ b -> b <> EmptyString -> closes (b +:+ suf) = false.
Proof.
  intros Hlf.
  destruct (chop_git_split (String c seg')) as (suf & Heq & Hsuf).
  assert (exists pre, chop_git (String c seg') = String c pre) as [pre Hpre].
  { cbn [chop_git]. destruct (String.eqb seg' ".git"); eauto. }
  rewrite Hpre, str_app_cons in Heq. injection Heq as Heq.
  exists pre, suf. split; [done|]. split; [done|].
  split; [by destruct Hsuf as [[-> _] | ->]|].
  intros a b -> Hb.
  destruct (closes (b +:+ suf)) eqn:Hcl; [exfalso | done].
  destruct b as [|x b]; [done|].
  apply closes_cases in Hcl as [Hcl|[Hcl|Hcl]].
  - by rewrite str_app_cons in Hcl.
  - destruct Hsuf as [[-> Hno] | ->].
    + rewrite str_app_nil_r in Hcl, Heq. rewrite Hcl in Heq.
      apply (Hno (String c a)); [done|]. by rewrite str_app_cons, Heq.
    + apply (f_equal String.length) in Hcl. rewrite str_length_app in Hcl.
      cbn in Hcl. lia.
  - destruct Hsuf as [[-> Hno] | ->].
    + rewrite str_app_nil_r in Hcl, Heq. apply Hlf.
      rewrite Heq, <- str_app_cons, last_char_app_cons. done.
    + change ".git" with (String "." "git") in Hcl.
      by rewrite last_char_app_cons in Hcl.
Qed.

Section Steps.
Context (n : nat) (g : groups) (k : string -> groups -> option groups).

Lemma run_cat r1 r2 s :
  run (Cat r1 r2) n s g k = run r1 n s g (fun s' g' => run r2 n s' g' k).
Proof. reflexivity. Qed.

Lemma run_lit t s : run (Lit t) n (t +:+ s) g k = k s g.
Proof. cbn [run]. by rewrite strip_prefix_app. Qed.

Lemma run_in cs c s :
  existsb (Ascii.eqb c) cs = true -> run (In cs) n (String c s) g k = k s g.
Proof. intros Hc. cbn [run]. by rewrite Hc. Qed.

Lemma run_group_plus name greedy i c s :
  item_ok i c = true ->
  run (Group name (Plus greedy i)) n (String c s) g k
  = (if greedy then star_greedy (item_ok i) else star_lazy (item_ok i))
      (fun s' => k s' (<[name := PyStr.take (String.length (String c s) - String.length s')
                                            (String c s)]> g)) s.
Proof. intros Hc. cbn [run plus]. rewrite Hc. by destruct greedy. Qed.
End Steps.

(** The match of the pattern at the host name: the owner is the whole
    segment after it, the repository the shortest start of the last
    segment that the rest of the pattern accepts. *)
Lemma run_github_url (n : nat) (owner seg : string) :
  segment owner -> segment seg -> last_char seg <> Some PyStr.LF ->
  run github_url_re n ("github.com/" +:+ owner +:+ "/" +:+ seg) ∅ accept
  = Some (<["repo" := chop_git seg]> (<["owner" := owner]> ∅)).
Proof.
  intros [Ho1 Ho2] [Hs1 Hs2] Hlf.
  destruct owner as [|oc owner]; [done|].
  destruct seg as [|sc seg]; [done|].
  cbn [all_chars] in Ho2, Hs2.
  apply andb_prop in Ho2 as [Hoc Ho2]. apply andb_prop in Hs2 as [Hsc Hs2].
  destruct (closes_after_name sc seg Hlf) as (pre & suf & Hchop & -> & Hsuf & Hfirst).
  rewrite str_all_chars_app in Hs2. apply andb_prop in Hs2 as [Hpre _].
  unfold github_url_re.
  change ("github.com/" +:+ ?x) with ("github.com" +:+ String "/" x).
  rewrite run_cat, run_lit, run_cat, run_in by done.
  rewrite run_cat, str_app_cons, run_group_plus by by rewrite item_not_slash.
  change ("/" +:+ ?x) with (String "/" x).
  apply star_greedy_stop;
    [by rewrite (all_chars_ext _ _ _ item_not_slash) | by rewrite item_not_slash |].
  rewrite <- (str_app_cons oc owner), str_take_app.
  change (String "/" ?x) with ("/" +:+ x).
  rewrite run_cat, run_lit, run_cat, run_group_plus by by rewrite item_not_slash.
  apply star_lazy_first.
  - by rewrite (all_chars_ext _ _ _ item_not_slash).
  - intros a b Hab Hb. by rewrite run_tail, (Hfirst a b Hab Hb).
  - rewrite run_tail, Hsuf, Hchop.
    by rewrite <- (str_app_cons sc pre), str_take_app.
Qed.

Lemma search_from_skip (r : regex) (n : nat) (c : ascii) (s : string) :
  run r n (String c s) ∅ accept = None ->
  search_from r n (String c s) = search_from r n s.
Proof. intros Hr. cbn [search_from]. by rewrite Hr. Qed.

Lemma search_from_here (r : regex) (n : nat) (s : string) (m : groups) :
  run r n s ∅ accept = Some m -> search_from r n s = Some m.
Proof. intros Hr. destruct s; cbn [search_from]; by rewrite Hr. Qed.

Lemma github_url_not_here (n : nat) (c : ascii) (s : string) :
  c <> "g"%char -> run github_url_re n (String c s) ∅ accept = None.
Proof.
  intros Hc. unfold github_url_re. rewrite run_cat. cbn [run strip_prefix].
  by destruct (Ascii.eqb_spec "g" c) as [<-|].
Qed.

(** [re.search] on an [https] address of the hosting service. *)
Lemma search_github_https (owner seg : string) :
  segment owner -> segment seg -> last_char seg <> Some PyStr.LF ->
  search github_url_re ("https://github.com/" +:+ owner +:+ "/" +:+ seg)
  = Some (<["repo" := chop_git seg]> (<["owner" := owner]> ∅)).
Proof.
  intros Ho Hs Hlf. unfold search.
  generalize (String.length ("https://github.com/" +:+ owner +:+ "/" +:+ seg)) as n.
  intros n.
  change ("https://github.com/" +:+ owner +:+ "/" +:+ seg) with
    (String "h" (String "t" (String "t" (String "p" (String "s" (String ":"
      (String "/" (String "/" ("github.com/" +:+ owner +:+ "/" +:+ seg))))))))).
  rewrite !search_from_skip by by apply github_url_not_here.
  apply search_from_here. by apply run_github_url.
Qed.

Lemma groups_owner_repo (owner repo : string) :
  let m : groups := <["repo" := repo]> (<["owner" := owner]> ∅) in
  m !! "owner" = Some owner /\ m !! "repo" = Some repo.
Proof.
  split; [|apply lookup_insert_eq].
  rewrite lookup_insert_ne by done. apply lookup_insert_eq.
Qed.

Lemma parse_github_https (owner seg : string) :
  segment owner -> segment seg -> last_char seg <> Some PyStr.LF ->
  parse_github_url_groups ("https://github.com/" +:+ owner +:+ "/" +:+ seg)
  = Some (owner, chop_git seg).
Proof.
  intros Ho Hs Hlf. unfold parse_github_url_groups.
  rewrite search_github_https by done.
  destruct (groups_owner_repo owner (chop_git seg)) as [-> ->]. done.
Qed.


(** Conversely, whatever the pattern matches: both names are segments. *)

Lemma star_greedy_inv {R} (p : ascii -> bool) (k : string -> option R) (s : string) (r : R) :
  star_greedy p k s = Some r ->
  exists a b, s = a +:+ b /\ all_chars p a = true /\ k b = Some r.
Proof.
  induction s as [|c s IH]; cbn [star_greedy].
  - intros Hk. by exists EmptyString, EmptyString.
  - destruct (p c) eqn:Hc; [|intros Hk; by exists EmptyString, (String c s)].
    destruct (star_greedy p k s) as [r'|] eqn:Hs.
    + intros [= ->]. destruct (IH eq_refl) as (a & b & -> & Ha & Hb).
      exists (String c a), b. rewrite str_app_cons. cbn [all_chars]. by rewrite Hc, Ha.
    + intros Hk. by exists EmptyString, (String c s).
Qed.

Lemma star_lazy_inv {R} (p : ascii -> bool) (k : string -> option R) (s : string) (r : R) :
  star_lazy p k s = Some r ->
  exists a b, s = a +:+ b /\ all_chars p a = true /\ k b = Some r.
Proof.
  induction s as [|c s IH]; rewrite star_lazy_unfold.
  - destruct (k EmptyString) eqn:Hk; [|done].
    intros [= ->]. by exists EmptyString, EmptyString.
  - destruct (k (String c s)) eqn:Hk.
    + intros [= ->]. by exists EmptyString, (String c s).
    + destruct (p c) eqn:Hc; [|done]. intros Hs.
      destruct (IH Hs) as (a & b & -> & Ha & Hb).
      exists (String c a), b. rewrite str_app_cons. cbn [all_chars]. by rewrite Hc, Ha.
Qed.

Lemma run_github_url_inv (n : nat) (s : string) (m : groups) :
  run github_url_re n s ∅ accept = Some m ->
  exists owner repo, segment owner /\ segment repo /\
    m = <["repo" := repo]> (<["owner" := owner]> ∅).
Proof.
  unfold github_url_re. rewrite run_cat. cbn [run].
  destruct (strip_prefix "github.com" s) as [s1|]; [|done].
  destruct s1 as [|c1 s2]; [done|].
  destruct (existsb (Ascii.eqb c1) [":"%char; "/"%char]); [|done].
  destruct s2 as [|oc s2]; [done|]. cbn [plus].
  destruct (item_ok (NotIn ["/"%char]) oc) eqn:Hoc; [|done].
  intros (a & b & -> & Ha & Hb)%star_greedy_inv.
  rewrite <- str_app_cons, str_take_app in Hb.
  destruct (strip_prefix "/" b) as [b1|]; [|done].
  destruct b1 as [|rc b1]; [done|]. cbn [plus] in Hb.
  destruct (item_ok (NotIn ["/"%char]) rc) eqn:Hrc; [|done].
  apply star_lazy_inv in Hb as (a' & b' & -> & Ha' & Hb').
  rewrite <- str_app_cons, str_take_app in Hb'.
  assert (m = <["repo":=String rc a']> (<["owner":=String oc a]> ∅)) as ->.
  { unfold accept in Hb'.
    destruct (strip_prefix ".git" b') as [r|].
    - destruct (at_eol r); [congruence|]. destruct (at_eol b'); congruence.
    - destruct (at_eol b'); congruence. }
  exists (String oc a), (String rc a'). split; [|split; [|done]].
  - split; [done|]. cbn [all_chars].
    by rewrite <- item_not_slash, Hoc, (all_chars_ext _ _ _ (fun c => eq_sym (item_not_slash c))).
  - split; [done|]. cbn [all_chars].
    by rewrite <- item_not_slash, Hrc, (all_chars_ext _ _ _ (fun c => eq_sym (item_not_slash c))).
Qed.

Lemma search_from_inv (r : regex) (n : nat) (s : string) (m : groups) :
  search_from r n s = Some m -> exists s', run r n s' ∅ accept = Some m.
Proof.
  induction s as [|c s IH]; cbn [search_from].
  - destruct (run r n EmptyString ∅ accept) eqn:Hr; [|done].
    intros [= ->]. eauto.
  - destruct (run r n (String c s) ∅ accept) eqn:Hr; [|done].
    intros [= ->]. eauto.
Qed.

(** The two names [parse_github_url] returns are segments. *)
Lemma parse_github_url_groups_segments (url owner repo : string) :
  parse_github_url_groups url = Some (owner, repo) -> segment owner /\ segment repo.
Proof.
  unfold parse_github_url_groups, search.
  destruct (search_from github_url_re (String.length url) url) as [m|] eqn:Hm; [|done].
  apply search_from_inv in Hm as [s' Hm].
  apply run_github_url_inv in Hm as (o & r & Ho & Hr & ->).
  destruct (groups_owner_repo o r) as [-> ->]. by intros [= <- <-].
Qed.

(** ** Running computations *)

Lemma bind_inv {A B} (m : M A) (f : A -> M B) (t : tree) r t' evs :
  bind m f t = (r, t', evs) ->
  (exists a t1 ev1 ev2,
      m t = (Ret a, t1, ev1) /\ f a t1 = (r, t', ev2) /\ evs = (ev1 ++ ev2)%list)
  \/ (exists e, m t = (Raise e, t', evs) /\ r = Raise e).
Proof.
  unfold bind. destruct (m t) as [[[a|e] t1] ev1].
  - destruct (f a t1) as [[r2 t2] ev2] eqn:Hf. intros [= <- <- <-].
    left. by exists a, t1, ev1, ev2.
  - intros [= <- <- <-]. right. by exists e.
Qed.

Lemma try_except_inv {A} (m : M A) (h : exn -> M A) (t : tree) r t' evs :
  try_except m h t = (r, t', evs) ->
  (exists a, m t = (Ret a, t', evs) /\ r = Ret a)
  \/ (exists e t1 ev1 ev2,
         m t = (Raise e, t1, ev1) /\ h e t1 = (r, t', ev2) /\ evs = (ev1 ++ ev2)%list).
Proof.
  unfold try_except. destruct (m t) as [[[a|e] t1] ev1].
  - intros [= <- <- <-]. left. by exists a.
  - destruct (h e t1) as [[r2 t2] ev2] eqn:Hh. intros [= <- <- <-].
    right. by exists e, t1, ev1, ev2.
Qed.

Lemma bind_ret {A B} (m : M A) (f : A -> M B) (t : tree) (a : A) :
  m t = (Ret a, t, []) -> bind m f t = f a t.
Proof. unfold bind. intros ->. by destruct (f a t) as [[r2 t2] ev2]. Qed.

Lemma bind_raise {A B} (m : M A) (f : A -> M B) (t t1 : tree) e ev :
  m t = (Raise e, t1, ev) -> bind m f t = (Raise e, t1, ev).
Proof. unfold bind. by intros ->. Qed.

Lemma bind_step {A B} (m : M A) (f : A -> M B) (t t1 : tree) (a : A) ev1 :
  m t = (Ret a, t1, ev1) ->
  bind m f t = (let '(r, t2, ev2) := f a t1 in (r, t2, (ev1 ++ ev2)%list)).
Proof. unfold bind. by intros ->. Qed.

(** Split a run of [x <- m ;; k] into the run of [m] and the run of [k]. *)
Ltac run_bind Hrun a t1 ev1 E :=
  let ev2 := fresh "ev" in
  let e := fresh "e" in
  apply bind_inv in Hrun as [(a & t1 & ev1 & ev2 & E & Hrun & ->) | (e & E & ->)].

Section RuntimeFacts.
Variable H : host.

Lemma os_path_isdir_run (s : string) (t : tree) :
  os_path_isdir H s t = (Ret (OS.isdir t (cwd H) s), t, []).
Proof. reflexivity. Qed.

Lemma os_path_exists_run (s : string) (t : tree) :
  os_path_exists H s t = (Ret (OS.exists_ t (cwd H) s), t, []).
Proof. reflexivity. Qed.

Lemma path_exists_run (p : PathLib.path) (t : tree) :
  path_exists H p t = (Ret (OS.exists_ t (cwd H) (PathLib.to_str p)), t, []).
Proof. reflexivity. Qed.

Lemma path_is_dir_run (p : PathLib.path) (t : tree) :
  path_is_dir H p t = (Ret (OS.isdir t (cwd H) (PathLib.to_str p)), t, []).
Proof. reflexivity. Qed.

Lemma os_mkdir_run (s : string) (t : tree) :
  os_mkdir H s t =
  match OS.mkdir t (cwd H) s with
  | inr t' => (Ret tt, t', [])
  | inl e => (Raise (os_error e s), t, [])
  end.
Proof. unfold os_mkdir, bind, get_tree. by destruct (OS.mkdir t (cwd H) s). Qed.

Lemma write_text_run (s content : string) (t : tree) :
  write_text H s content t =
  match OS.write_file t (cwd H) s content with
  | inr t' => (Ret tt, t', [Wrote s content])
  | inl e => (Raise (os_error e s), t, [])
  end.
Proof.
  unfold write_text, bind, get_tree. by destruct (OS.write_file t (cwd H) s content).
Qed.

Lemma read_text_run (s : string) (t : tree) :
  read_text H s t =
  match OS.read_file t (cwd H) s with
  | inr c => (Ret c, t, [])
  | inl e => (Raise (os_error e s), t, [])
  end.
Proof. unfold read_text, bind, get_tree. by destruct (OS.read_file t (cwd H) s). Qed.

Lemma run_gitingest_tool_run (cmd : list string) (token : option string) (t : tree) :
  run_gitingest_tool H cmd token t =
  (Ret (gitingest H cmd token t).1, (gitingest H cmd token t).2,
   [Gitingest cmd token t (gitingest H cmd token t).1]).
Proof.
  unfold run_gitingest_tool, bind, get_tree.
  by destruct (gitingest H cmd token t) as [r t'].
Qed.

Lemma run_git_run (cmd : list string) (t : tree) :
  run_git H cmd t =
  (Ret (git H cmd t).1, (git H cmd t).2, [GitClone cmd t (git H cmd t).1]).
Proof. unfold run_git, bind, get_tree. by destruct (git H cmd t) as [r t']. Qed.

End RuntimeFacts.

(** ** Making directories *)

Lemma grows_refl (t : tree) : grows t t.
Proof. by intros k. Qed.

Lemma grows_trans (t1 t2 t3 : tree) : grows t1 t2 -> grows t2 t3 -> grows t1 t3.
Proof. intros H12 H23 k. destruct (H12 k), (H23 k). split; auto. Qed.

Lemma node_at_None (t : tree) (k : key) :
  OS.node_at t k = None -> k <> [] /\ t !! k = None.
Proof. by destruct k. Qed.

Lemma node_at_lookup (t : tree) (k : key) : k <> [] -> OS.node_at t k = t !! k.
Proof. by destruct k. Qed.

Lemma grows_insert_fresh (t : tree) (k : key) (n : node) :
  OS.node_at t k = None -> grows t (<[k := n]> t).
Proof.
  intros [_ Hk]%node_at_None k'.
  destruct (decide (k = k')) as [<-|Hne].
  - rewrite Hk. split; [by intros [? ?] | done].
  - by rewrite lookup_insert_ne.
Qed.


Lemma OS_mkdir_inv (t : tree) (c : key) (s : string) (t' : tree) :
  OS.mkdir t c s = inr t' ->
  exists k, OS.locate t c s = inr k /\ OS.node_at t k = None /\ t' = <[k := Dir]> t.
Proof.
  unfold OS.mkdir. destruct (OS.locate t c s) as [e|k]; [done|].
  destruct (OS.node_at t k) eqn:Hk; [done|]. intros [= <-]. by exists k.
Qed.

Section MkdirFacts.
Variable H : host.

(** What [mkdir_here] can do: nothing, or make one directory. *)
Lemma mkdir_here_inv (exist_ok : bool) (p : PathLib.path) (t : tree) r t' evs :
  mkdir_here H exist_ok p t = (r, t', evs) ->
  evs = [] /\
  (t' = t \/
   (r = Ret tt /\ exists k, OS.locate t (cwd H) (PathLib.to_str p) = inr k /\
                        OS.node_at t k = None /\ t' = <[k := Dir]> t)).
Proof.
  unfold mkdir_here. intros Hrun.
  apply try_except_inv in Hrun as [(a & Hm & ->) | (e & t1 & ev1 & ev2 & Hm & Hh & ->)];
    rewrite os_mkdir_run in Hm;
    destruct (OS.mkdir t (cwd H) (PathLib.to_str p)) as [e0|t0] eqn:Hmk;
    try discriminate; injection Hm as <- <- <-.
  - apply OS_mkdir_inv in Hmk as (k & Hk & Hn & ->).
    split; [done|]. right. split; [done|]. by exists k.
  - destruct e0; cbn [os_error] in Hh; try (injection Hh as <- <- <-; by split; [|left]);
      rewrite (bind_ret _ _ _ _ (path_is_dir_run H p t)) in Hh;
      destruct (exist_ok && _); injection Hh as <- <- <-; by split; [|left].
Qed.

Lemma mkdir_here_grows (exist_ok : bool) (p : PathLib.path) (t : tree) r t' evs :
  mkdir_here H exist_ok p t = (r, t', evs) -> evs = [] /\ grows t t'.
Proof.
  intros (-> & Hc)%mkdir_here_inv. split; [done|].
  destruct Hc as [-> | (_ & k & _ & Hk & ->)];
    [apply grows_refl | by apply grows_insert_fresh].
Qed.

(** [Path.mkdir(parents=True)] emits nothing and only adds to the tree. *)
Lemma mkdir_parents_grows (n : nat) (exist_ok : bool) (p : PathLib.path) (t : tree) r t' evs :
  mkdir_parents H n exist_ok p t = (r, t', evs) -> evs = [] /\ grows t t'.
Proof.
  revert exist_ok p t r t' evs.
  induction n as [|n IH]; intros exist_ok p t r t' evs; cbn [mkdir_parents]; intros Hrun;
    apply try_except_inv in Hrun as [(a & Hm & ->) | (e & t1 & ev1 & ev2 & Hm & Hh & ->)];
    rewrite os_mkdir_run in Hm;
    destruct (OS.mkdir t (cwd H) (PathLib.to_str p)) as [e0|t0] eqn:Hmk;
    try discriminate; injection Hm as <- <- <-.
  1,3: apply OS_mkdir_inv in Hmk as (k & Hk & Hn & ->);
       split; [done | by apply grows_insert_fresh].
  - destruct e0; cbn [os_error] in Hh; try (injection Hh as <- <- <-; by split; [|apply grows_refl]);
      rewrite (bind_ret _ _ _ _ (path_is_dir_run H p t)) in Hh;
      destruct (exist_ok && _); injection Hh as <- <- <-; by split; [|apply grows_refl].
  - destruct e0; cbn [os_error] in Hh; try (injection Hh as <- <- <-; by split; [|apply grows_refl]).
    2-5: rewrite (bind_ret _ _ _ _ (path_is_dir_run H p t)) in Hh;
      destruct (exist_ok && _); injection Hh as <- <- <-; by split; [|apply grows_refl].
    apply bind_inv in Hh as [(a & t2 & ev3 & ev4 & E & Hh & ->) | (e' & E & ->)].
    + apply IH in E as [-> Hg1]. apply mkdir_here_grows in Hh as [-> Hg2].
      split; [done|]. by apply (grows_trans _ t2).
    + by apply IH in E.
Qed.

Lemma path_mkdir_grows (parents exist_ok : bool) (p : PathLib.path) (t : tree) r t' evs :
  path_mkdir H parents exist_ok p t = (r, t', evs) -> evs = [] /\ grows t t'.
Proof.
  unfold path_mkdir. destruct parents.
  - apply mkdir_parents_grows.
  - apply mkdir_here_grows.
Qed.

End MkdirFacts.

(** ** Removing a tree *)

Lemma walk_lex (t : tree) (cur : key) (ws : list string) (k : key) :
  OS.walk t cur ws = inr k -> k = fold_left OS.step ws cur.
Proof.
  revert cur. induction ws as [|w ws IH]; intros cur; cbn [OS.walk fold_left].
  - by intros [= <-].
  - destruct (OS.node_at t cur) as [[c|]|]; try done. apply IH.
Qed.

(** Where a path leads does not depend on the tree, as long as it leads
    somewhere. *)
Lemma locate_lex (t : tree) (c : key) (s : string) (k : key) :
  OS.locate t c s = inr k -> k = lex c s.
Proof.
  unfold OS.locate, lex.
  destruct (PyStr.is_empty s); [done|]. destruct (OS.has_nul s); [done|].
  apply walk_lex.
Qed.

Lemma lookup_prune (d k : key) (t : tree) :
  OS.prune d t !! k = if OS.below d k then None else t !! k.
Proof.
  unfold OS.prune. destruct (OS.below d k) eqn:Hb.
  - apply map_lookup_filter_None. right. intros n _. cbn [fst]. rewrite Hb. by intros [].
  - destruct (t !! k) as [n|] eqn:Hk.
    + apply map_lookup_filter_Some. split; [done|]. cbn [fst]. by rewrite Hb.
    + apply map_lookup_filter_None. by left.
Qed.

Lemma below_spec (d k : key) : OS.below d k = true <-> d `prefix_of` k /\ k <> d.
Proof.
  unfold OS.below. rewrite andb_true_iff, bool_decide_eq_true, negb_true_iff,
    bool_decide_eq_false. done.
Qed.

(** After a directory is emptied and removed nothing is left of it. *)
Lemma gone_delete_prune (d : key) (t : tree) : gone d (delete d (OS.prune d t)).
Proof.
  intros k Hk. destruct (decide (d = k)) as [<-|Hne].
  - apply lookup_delete_eq.
  - rewrite lookup_delete_ne, lookup_prune by done.
    assert (OS.below d k = true) as ->; [|done].
    apply below_spec. split; [done | congruence].
Qed.

Section RmtreeFacts.
Variable H : host.

(** What [rmtree] can do: fail at once; empty the directory and fail to
    remove it; or empty and remove it. *)
Lemma rmtree_inv (s : string) (t : tree) r t' evs :
  rmtree H s t = (r, t', evs) ->
  (raised r /\ t' = t /\ evs = []) \/
  (exists k, OS.locate t (cwd H) s = inr k /\ OS.node_at t k = Some Dir /\
     evs = [Removed s] /\
     ((raised r /\ t' = OS.prune k t) \/ (r = Ret tt /\ t' = delete k (OS.prune k t)))).
Proof.
  unfold rmtree. rewrite (bind_ret _ _ _ t) by done.
  destruct (OS.locate t (cwd H) s) as [e|k] eqn:Hk.
  { cbn. intros [= <- <- <-]. left. split; [by eexists | done]. }
  rewrite (bind_ret _ _ _ k) by done.
  destruct (OS.node_at t k) as [[c|]|] eqn:Hn.
  1,3: cbn; intros [= <- <- <-]; left; split; [by eexists | done].
  rewrite (bind_step _ _ t (OS.prune k t) tt []) by done.
  rewrite (bind_step _ _ _ (OS.prune k t) tt [Removed s]) by done.
  destruct (OS.locate (OS.prune k t) (cwd H) s) as [e|k'] eqn:Hk'.
  { cbn. intros [= <- <- <-]. right. exists k. repeat split; try done.
    left. split; [by eexists | done]. }
  rewrite (bind_ret _ _ _ k') by done.
  apply locate_lex in Hk' as Hk''. apply locate_lex in Hk as Hk3. subst k' .
  rewrite <- Hk3.
  destruct k as [|w k].
  - cbn. intros [= <- <- <-]. right. exists []. repeat split; try done.
    left. split; [by eexists | done].
  - cbn. intros [= <- <- <-]. right. exists (w :: k). repeat split; try done.
    by right.
Qed.

End RmtreeFacts.

(** ** The ingestion tool and the clone *)

Section ToolFacts.
Variable H : host.
Variable github_token : option string.

(** [run_gitingest] with an output file: one call of the tool, and a record
    in every case. *)
Lemma run_gitingest_inv (repo_input output_file : string) (t : tree) r t' evs :
  PyStr.is_empty output_file = false ->
  RepoIngestor.run_gitingest H github_token repo_input output_file t = (r, t', evs) ->
  exists cmd token res d,
    cmd !! 1%nat = Some repo_input /\
    gitingest H cmd token t = (res, t') /\
    evs = [Gitingest cmd token t res] /\
    r = Ret d /\
    ((exit_ok res = true /\ d = ok_record repo_input) \/
     (exists message, d = failed_record repo_input message /\
        forall rc out err, res = Exited rc out err -> rc <> 0%Z -> message = PyStr.strip err)).
Proof.
  intros Hne. unfold RepoIngestor.run_gitingest. rewrite Hne.
  unfold try_finally, try_except, RepoIngestor.run_gitingest_body, RepoIngestor.cleanup.
  rewrite (bind_ret _ _ _ _ (os_path_isdir_run H repo_input t)).
  cbv zeta.
  match goal with
  | |- context [run_gitingest_tool H ?c ?tk] => set (cmd := c); set (token := tk)
  end.
  assert (Hcmd : cmd !! 1%nat = Some repo_input) by done.
  clearbody cmd token.
  rewrite (bind_step _ _ _ _ _ _ (run_gitingest_tool_run H cmd token t)).
  destruct (gitingest H cmd token t) as [res t2] eqn:Hres. cbn [fst snd].
  destruct res as [rc out err|e]; cbn [ret raise RepoIngestor.failure].
  - destruct (rc =? 0)%Z eqn:Hrc; cbn [negb].
    + pose proof (read_text_run H output_file t2) as Hrd.
      destruct (OS.read_file t2 (cwd H) output_file) as [e|c].
      * rewrite (bind_raise _ _ _ _ _ _ Hrd). cbn.
        intros [= <- <- <-]. exists cmd, token, (Exited rc out err); eexists.
        (split; [done|]); (split; [done|]); (split; [done|]); (split; [done|]).
        right. eexists. split; [done|]. intros ? ? ? [= <- _ _] Hz.
        by apply Z.eqb_eq in Hrc.
      * rewrite (bind_ret _ _ _ _ Hrd). cbn.
        intros [= <- <- <-]. exists cmd, token, (Exited rc out err); eexists.
        (split; [done|]); (split; [done|]); (split; [done|]); (split; [done|]).
        left. apply Z.eqb_eq in Hrc as ->. done.
    + cbn. intros [= <- <- <-]. exists cmd, token, (Exited rc out err); eexists.
      (split; [done|]); (split; [done|]); (split; [done|]); (split; [done|]).
      right. eexists. split; [done|]. by intros ? ? ? [= _ _ <-] _.
  - cbn. intros [= <- <- <-]. exists cmd, token, (Failed e); eexists.
    (split; [done|]); (split; [done|]); (split; [done|]); (split; [done|]).
    right. eexists. split; [done|]. by intros.
Qed.

(** [clone_repo] fails before the client is run, or runs it once, as the last
    thing it does, and returns the destination exactly when it exits with 0. *)
Lemma clone_repo_inv (url : string) (t : tree) r t' evs :
  RepoIngestor.clone_repo H github_token url "my_repos" true t = (r, t', evs) ->
  (raised r /\ no_clone evs /\ no_tool evs) \/
  (exists owner repo cmd seen res pre,
     parse_github_url_groups url = Some (owner, repo) /\
     evs = (pre ++ [GitClone cmd seen res])%list /\ no_clone pre /\ no_tool pre /\
     if exit_ok res
     then r = Ret (PathLib.to_str (PathLib.Path "my_repos" </> owner </> repo))
     else raised r).
Proof.
  unfold RepoIngestor.clone_repo, RepoIngestor.parse_github_url. intros Hrun.
  destruct (parse_github_url_groups url) as [[owner repo]|] eqn:Hp.
  2: { injection Hrun as <- <- <-. left. split; [by eexists | split; constructor]. }
  rewrite (bind_ret _ _ _ (owner, repo)) in Hrun by done.
  set (repo_path := PathLib.Path "my_repos" </> owner </> repo) in *.
  assert (Hrm : forall r0 t0 ev0,
    (ex <- path_exists H repo_path;;
     (if ex then rmtree H (PathLib.to_str repo_path) else ret tt)) t = (r0, t0, ev0) ->
    no_clone ev0 /\ no_tool ev0).
  { intros r0 t0 ev0 E.
    rewrite (bind_ret _ _ _ _ (path_exists_run H repo_path t)) in E.
    destruct (OS.exists_ t (cwd H) (PathLib.to_str repo_path)).
    - apply rmtree_inv in E as [(_ & _ & ->) | (k & _ & _ & -> & _)];
        split; repeat constructor.
    - injection E as _ _ <-. split; constructor. }
  apply bind_inv in Hrun as [(a & t1 & ev1 & ev2 & E & Hrun & ->) | (e & E & ->)].
  - destruct (Hrm _ _ _ E) as [Hc1 Ht1].
    apply bind_inv in Hrun as [(a' & t2 & ev3 & ev4 & E' & Hrun & ->) | (e & E' & ->)].
    + apply path_mkdir_grows in E' as [-> _].
      rewrite (bind_step _ _ _ _ _ _ (run_git_run H _ t2)) in Hrun.
      match type of Hrun with context [git H ?c t2] => set (cmd := c) in * end.
      right. exists owner, repo, cmd, t2, (git H cmd t2).1, ev1.
      destruct (git H cmd t2) as [res t3]. cbn [fst snd] in *.
      destruct res as [rc out err|e]; cbn in Hrun.
      * destruct (rc =? 0)%Z eqn:Hrc; cbn in Hrun; injection Hrun as <- <- <-.
        -- apply Z.eqb_eq in Hrc as ->. done.
        -- split; [done|]. split; [done|]. split; [done|]. split; [done|].
           destruct rc; [done|by eexists..].
      * injection Hrun as <- <- <-. repeat split; try done. by eexists.
    + apply path_mkdir_grows in E' as [-> _]. left. split; [by eexists|].
      unfold no_clone, no_tool. by rewrite app_nil_r.
  - left. split; [by eexists|]. by eapply Hrm.
Qed.

Lemma clone_repo_no_tool (url : string) (t : tree) r t' evs :
  RepoIngestor.clone_repo H github_token url "my_repos" true t = (r, t', evs) -> no_tool evs.
Proof.
  intros [(_ & _ & Ht) | (o & rp & cmd & seen & res & pre & _ & -> & _ & Ht & _)]%clone_repo_inv;
    [done|].
  apply Forall_app. split; [done | repeat constructor].
Qed.

End ToolFacts.

(** ** The orchestrator from the index check on *)

Section FinishFacts.
Variable H : host.
Variable github_token : option string.

Lemma repo_index_exists_run (repo indexes_dir : string) (t : tree) :
  RepoIngestor.repo_index_exists H repo indexes_dir t
  = (Ret (index_complete t (cwd H) indexes_dir repo), t, []).
Proof. reflexivity. Qed.

Lemma output_name_not_empty (output_dir owner repo timestamp : string) :
  PyStr.is_empty (output_name output_dir owner repo timestamp) = false.
Proof. unfold output_name. by destruct output_dir. Qed.

Lemma delete_repo_index_inv (repo indexes_dir : string) (t : tree) r t' evs :
  RepoIngestor.delete_repo_index H repo indexes_dir t = (r, t', evs) ->
  (OS.exists_ t (cwd H) (index_dir indexes_dir repo) = false /\
   r = Ret false /\ t' = t /\ evs = [])
  \/ (raised r /\ no_tool evs /\ no_clone evs)
  \/ (r = Ret true /\
      exists k, OS.locate t (cwd H) (index_dir indexes_dir repo) = inr k /\
                evs = [Removed (index_dir indexes_dir repo)] /\
                t' = delete k (OS.prune k t)).
Proof.
  unfold RepoIngestor.delete_repo_index. intros E.
  rewrite (bind_ret _ _ _ _ (path_exists_run H _ t)) in E.
  fold (index_dir indexes_dir repo) in E.
  destruct (OS.exists_ t (cwd H) (index_dir indexes_dir repo)) eqn:Hex.
  - apply bind_inv in E as [(a & t1 & ev1 & ev2 & E & E2 & ->) | (e & E & ->)].
    + injection E2 as <- <- <-.
      apply rmtree_inv in E as [([e He] & _) | (k & Hk & _ & -> & [([e He] & _) | (_ & ->)])];
        try done.
      right; right. split; [done|]. by exists k.
    + right; left. split; [by eexists|].
      apply rmtree_inv in E as [(_ & _ & ->) | (k & _ & _ & -> & _)];
        split; repeat constructor.
  - injection E as <- <- <-. by left.
Qed.

(** Every way [ingest_finish] can go. *)
Lemma ingest_finish_inv (owner repo effective_input : string) (is_url : bool)
    (output_dir : string) (clone : bool) (indexes_dir : string) (t : tree) r t' evs :
  RepoIngestor.ingest_finish H github_token owner repo effective_input is_url
    output_dir clone indexes_dir t = (r, t', evs) ->
  let output_file := output_name output_dir owner repo (now H) in
  (* the invalidation fails *)
  (index_complete t (cwd H) indexes_dir repo = true /\ raised r /\
   no_tool evs /\ no_clone evs)
  \/ exists t2 ev0 cmd token res t3,
       invalidated (cwd H) indexes_dir repo t t2 ev0 /\
       cmd !! 1%nat = Some effective_input /\
       gitingest H cmd token t2 = (res, t3) /\
       ((* the tool fails *)
        (exists message,
           r = Ret (failed_record effective_input message) /\ t' = t3 /\
           evs = (ev0 ++ [Gitingest cmd token t2 res])%list /\
           forall rc out err, res = Exited rc out err -> rc <> 0%Z ->
                              message = PyStr.strip err)
        \/ (* the tool succeeds and nothing is cloned *)
        (exit_ok res = true /\
         clone && is_url && negb (OS.isdir t3 (cwd H) effective_input) = false /\
         r = Ret (<["output_file" := VStr output_file]> (ok_record effective_input)) /\
         t' = t3 /\ evs = (ev0 ++ [Gitingest cmd token t2 res])%list)
        \/ (* the tool succeeds and the clone is tried *)
        (exit_ok res = true /\ clone = true /\ is_url = true /\
         exists rc ev_c,
           RepoIngestor.clone_repo H github_token effective_input "my_repos" true t3
             = (rc, t', ev_c) /\
           evs = (ev0 ++ Gitingest cmd token t2 res :: ev_c)%list /\
           r = Ret (<["local_repo" := match rc with Ret p => VStr p | Raise _ => VNone end]>
                    (<["output_file" := VStr output_file]> (ok_record effective_input))))).
Proof.
  intros Hrun. cbv zeta. unfold RepoIngestor.ingest_finish in Hrun.
  rewrite (bind_ret _ _ _ _ (repo_index_exists_run repo indexes_dir t)) in Hrun.
  fold (output_name output_dir owner repo (now H)) in Hrun.
  set (output_file := output_name output_dir owner repo (now H)) in *.
  apply bind_inv in Hrun as [(a & t2 & ev0 & ev2 & E & Hrun & ->) | (e & E & ->)].
  - (* the invalidation went through *)
    assert (Hinv : invalidated (cwd H) indexes_dir repo t t2 ev0).
    { destruct (index_complete t (cwd H) indexes_dir repo) eqn:Hc.
      - apply bind_inv in E as [(a' & t1' & ev1' & ev2' & E & E2 & ->) | (e & E & ?)];
          [|done].
        injection E2 as <- <- <-.
        apply delete_repo_index_inv in E
          as [(Hex & _ & -> & ->) | [([e He] & _) | (_ & k & Hk & -> & ->)]]; try done.
        + right; left. done.
        + right; right. split; [done|]. by exists k.
      - injection E as <- <- <-. by left. }
    apply bind_inv in Hrun as [(d0 & t3 & ev3 & ev4 & E' & Hrun & ->) | (e & E' & ->)].
    2: { apply run_gitingest_inv in E' as (? & ? & ? & ? & _ & _ & _ & ? & _); [done|].
         apply output_name_not_empty. }
    apply run_gitingest_inv in E' as (cmd & token & res & d & Hcmd & Hres & -> & [= <-] & Hd);
      [|apply output_name_not_empty].
    right. exists t2, ev0, cmd, token, res, t3. split; [done|]. split; [done|]. split; [done|].
    destruct Hd as [[Hok ->] | (message & -> & Hmsg)].
    + (* success *)
      change (get_truthy (ok_record effective_input) "success") with true in Hrun.
      cbn [negb] in Hrun.
      rewrite (bind_ret _ _ _ _ (os_path_isdir_run H effective_input t3)) in Hrun.
      destruct (clone && is_url && negb (OS.isdir t3 (cwd H) effective_input)) eqn:Hc.
      * right; right.
        apply andb_prop in Hc as [[-> ->]%andb_prop _].
        split; [done|]. split; [done|]. split; [done|].
        apply try_except_inv in Hrun
          as [(a' & Hm & ->) | (e & t1 & ev1 & ev2 & Hm & Hh & ->)].
        -- apply bind_inv in Hm as [(p & t4 & ev5 & ev6 & Ec & Hm & ?) | (e & Ec & ?)];
             [|done].
           injection Hm as <- <- <-. subst ev4.
           exists (Ret p), ev5. by rewrite app_nil_r.
        -- apply bind_inv in Hm as [(p & t4 & ev5 & ev6 & Ec & Hm & ?) | (e' & Ec & ?)];
             [done|].
           injection Hh as <- <- <-. injection H0 as <-.
           exists (Raise e), ev1. by rewrite app_nil_r.
      * right; left. injection Hrun as <- <- <-. by rewrite app_nil_r.
    + (* failure *)
      change (get_truthy (failed_record effective_input message) "success") with false in Hrun.
      cbn [negb] in Hrun. injection Hrun as <- <- <-.
      left. exists message. by rewrite app_nil_r.
  - (* the invalidation failed *)
    left.
    destruct (index_complete t (cwd H) indexes_dir repo) eqn:Hc; [|done].
    split; [done|]. split; [by eexists|].
    apply bind_inv in E as [(a' & t1' & ev1' & ev2' & E & E2 & ->) | (e' & E & ?)];
      [done|].
    apply delete_repo_index_inv in E
      as [(_ & ? & _) | [(_ & ? & ?) | (? & _)]]; done.
Qed.

End FinishFacts.

(** ** The orchestrator up to the index check *)

Section PreludeFacts.
Variable H : host.
Variable github_token : option string.

Local Abbreviation normalize := (RepoIngestor._normalize_local_path H).
Local Abbreviation is_url := RepoIngestor._is_probable_git_url.

(** Every way [ingest_local] can go. *)
Lemma ingest_local_inv (raw_input output_dir : string) (clone : bool)
    (indexes_dir : string) (t1 : tree) r t' evs :
  RepoIngestor.ingest_local H github_token raw_input output_dir clone indexes_dir t1
    = (r, t', evs) ->
  let local_path := normalize raw_input in
  let repo_path := path_resolve H (PathLib.Path local_path) in
  let repo := PathLib.name repo_path in
  (OS.isdir t1 (cwd H) local_path = false /\
   r = Ret (not_found_record local_path) /\ t' = t1 /\ evs = [])
  \/ (OS.isdir t1 (cwd H) local_path = true /\
      ((raised r /\ evs = [] /\ grows t1 t')
       \/ exists t2 t3 evs',
            grows t1 t2 /\
            OS.write_file t2 (cwd H) (marker_file repo) (PathLib.to_str repo_path) = inr t3 /\
            evs = Wrote (marker_file repo) (PathLib.to_str repo_path) :: evs' /\
            RepoIngestor.ingest_finish H github_token "Local" repo (PathLib.to_str repo_path)
              false output_dir clone indexes_dir t3 = (r, t', evs'))).
Proof.
  unfold RepoIngestor.ingest_local. intros Hrun. cbv zeta in *.
  rewrite (bind_ret _ _ _ _ (os_path_isdir_run H _ t1)) in Hrun.
  destruct (OS.isdir t1 (cwd H) (normalize raw_input)) eqn:Hd; cbn [negb] in Hrun.
  2: { injection Hrun as <- <- <-. by left. }
  right. split; [done|].
  apply bind_inv in Hrun as [(a & t2 & ev1 & ev2 & E & Hrun & ->) | (e & E & ->)].
  2: { apply path_mkdir_grows in E as [-> Hg]. left. split; [by eexists | done]. }
  apply path_mkdir_grows in E as [-> Hg].
  apply bind_inv in Hrun as [(a' & t3 & ev3 & ev4 & E & Hrun & ->) | (e & E & ->)];
    rewrite write_text_run in E; fold (marker_file (PathLib.name
      (path_resolve H (PathLib.Path (normalize raw_input))))) in E;
    destruct (OS.write_file t2 (cwd H) _ _) as [e0|t3'] eqn:Hw; try discriminate;
    injection E as <- <- <-.
  - right. by exists t2, t3', ev4.
  - left. split; [by eexists | done].
Qed.

(** Every way [ingest_repo] can go. *)
Lemma ingest_repo_inv (repo_input output_dir : string) (clone : bool)
    (indexes_dir : string) (t : tree) r t' evs :
  RepoIngestor.ingest_repo H github_token repo_input output_dir clone indexes_dir t
    = (r, t', evs) ->
  let raw_input := PyStr.strip repo_input in
  (raised r /\ evs = [] /\ grows t t')
  \/ exists t1,
       path_mkdir H false true (PathLib.Path output_dir) t = (Ret tt, t1, []) /\
       ((blank repo_input = true /\ r = Ret no_input_record /\ t' = t1 /\ evs = [])
        \/ (blank repo_input = false /\ is_url raw_input = true /\
            parse_github_url_groups raw_input = None /\
            r = Raise (ValueError ("Invalid GitHub URL: " +:+ raw_input)) /\
            t' = t1 /\ evs = [])
        \/ (blank repo_input = false /\ is_url raw_input = true /\
            exists owner repo,
              parse_github_url_groups raw_input = Some (owner, repo) /\
              RepoIngestor.ingest_finish H github_token owner repo raw_input true
                output_dir clone indexes_dir t1 = (r, t', evs))
        \/ (blank repo_input = false /\ is_url raw_input = false /\
            RepoIngestor.ingest_local H github_token raw_input output_dir clone
              indexes_dir t1 = (r, t', evs))).
Proof.
  unfold RepoIngestor.ingest_repo. intros Hrun. cbv zeta in *.
  apply bind_inv in Hrun as [(a & t1 & ev1 & ev2 & E & Hrun & ->) | (e & E & ->)].
  2: { apply path_mkdir_grows in E as [-> Hg]. left. split; [by eexists | done]. }
  right. exists t1.
  destruct (path_mkdir_grows _ _ _ _ _ _ _ _ E) as [-> _]. destruct a. split; [done|].
  fold (blank repo_input) in Hrun.
  destruct (blank repo_input); [injection Hrun as <- <- <-; by left|].
  right.
  destruct (is_url (PyStr.strip repo_input)) eqn:Hu; cbn [negb] in Hrun.
  - unfold RepoIngestor.parse_github_url in Hrun.
    destruct (parse_github_url_groups (PyStr.strip repo_input)) as [[owner repo]|] eqn:Hp.
    + rewrite (bind_ret _ _ _ (owner, repo)) in Hrun by done.
      right; left. split; [done|]. split; [done|]. by exists owner, repo.
    + injection Hrun as <- <- <-. by left.
  - right; right. done.
Qed.

End PreludeFacts.

(** ** Paths made of segments *)

Lemma split_on_segment (s : string) :
  all_chars not_slash s = true -> PyStr.split_on "/" s = [s].
Proof.
  induction s as [|c s IH]; [done|]. cbn [all_chars PyStr.split_on].
  intros [Hc Hs]%andb_prop. unfold not_slash in Hc.
  destruct (Ascii.eqb c "/"); [done|]. by rewrite (IH Hs).
Qed.

Lemma split_on_sep (a b : string) :
  all_chars not_slash a = true ->
  PyStr.split_on "/" (a +:+ String "/" b) = a :: PyStr.split_on "/" b.
Proof.
  induction a as [|c a IH].
  - intros _. by rewrite str_app_nil_l.
  - cbn [all_chars]. intros [Hc Ha]%andb_prop. unfold not_slash in Hc.
    rewrite str_app_cons. cbn [PyStr.split_on].
    destruct (Ascii.eqb c "/"); [done|]. by rewrite (IH Ha).
Qed.

Lemma segment_no_leading_slash (s : string) :
  segment s -> PathLib.leading_slashes s = 0.
Proof.
  intros [Hne Hs]. destruct s as [|c s]; [done|].
  cbn [all_chars] in Hs. apply andb_prop in Hs as [Hc _]. unfold not_slash in Hc.
  cbn. by destruct (Ascii.eqb c "/").
Qed.

(** [Path(s)] for one segment. *)
Lemma Path_segment (s : string) :
  segment s ->
  PathLib.Path s = PathLib.mk_path EmptyString (if PathLib.keeps s then [s] else []).
Proof.
  intros Hs. unfold PathLib.Path, PathLib.anchor_of.
  rewrite (segment_no_leading_slash s Hs), split_on_segment by apply Hs.
  cbn [filter list_filter]. by destruct (PathLib.keeps s).
Qed.

Lemma div_segment (p : PathLib.path) (s : string) :
  segment s ->
  p </> s = PathLib.mk_path (PathLib.anchor p)
              (PathLib.parts p ++ (if PathLib.keeps s then [s] else [])).
Proof. intros Hs. unfold PathLib.div. by rewrite Path_segment. Qed.

Lemma keeps_plain (s : string) : plain s -> PathLib.keeps s = true.
Proof.
  intros ([Hne _] & Hd & _). unfold PathLib.keeps.
  destruct s; [done|]. cbn [PyStr.is_empty negb andb].
  by destruct (String.eqb_spec (String a s) ".").
Qed.

Lemma Path_my_repos (owner repo : string) :
  segment owner -> segment repo ->
  PathLib.Path ("my_repos/" +:+ owner +:+ "/" +:+ repo)
  = PathLib.mk_path EmptyString
      ("my_repos" :: (if PathLib.keeps owner then [owner] else [])
                  ++ (if PathLib.keeps repo then [repo] else [])).
Proof.
  intros Ho Hr. unfold PathLib.Path.
  assert (PathLib.anchor_of ("my_repos/" +:+ owner +:+ "/" +:+ repo) = EmptyString)
    as -> by reflexivity.
  change ("my_repos/" +:+ owner +:+ "/" +:+ repo)
    with ("my_repos" +:+ String "/" (owner +:+ String "/" repo)).
  rewrite !split_on_sep, split_on_segment by (done || apply Ho || apply Hr).
  cbn [filter list_filter].
  by destruct (PathLib.keeps owner), (PathLib.keeps repo).
Qed.

(** The clone destination is the path [my_repos/owner/repo]. *)
Lemma clone_destination (owner repo : string) :
  segment owner -> segment repo ->
  PathLib.Path "my_repos" </> owner </> repo
  = PathLib.Path ("my_repos/" +:+ owner +:+ "/" +:+ repo).
Proof.
  intros Ho Hr. rewrite Path_my_repos, !div_segment by done.
  change (PathLib.Path "my_repos") with (PathLib.mk_path EmptyString ["my_repos"]).
  cbn [PathLib.parts PathLib.anchor]. by rewrite <- app_assoc.
Qed.

Lemma clone_destination_str (owner repo : string) :
  segment owner -> segment repo -> owner <> "." -> repo <> "." ->
  PathLib.to_str (PathLib.Path ("my_repos/" +:+ owner +:+ "/" +:+ repo))
  = "my_repos/" +:+ owner +:+ "/" +:+ repo.
Proof.
  intros Ho Hr Ho' Hr'. rewrite Path_my_repos by done.
  assert (Hk : forall s, segment s -> s <> "." -> PathLib.keeps s = true).
  { intros s [Hne _] Hd. unfold PathLib.keeps. destruct s; [done|].
    cbn [PyStr.is_empty negb andb]. by destruct (String.eqb_spec (String a s) "."). }
  rewrite !Hk by done. reflexivity.
Qed.

(** ** Looking up paths in a growing tree *)





(** ** A path and the paths below it *)

Lemma split_on_cons (sep : ascii) (s : string) :
  exists w ws, PyStr.split_on sep s = w :: ws.
Proof.
  induction s as [|c s (w & ws & IH)]; cbn [PyStr.split_on]; [by eexists _, _|].
  rewrite IH. destruct (Ascii.eqb c sep); by eexists _, _.
Qed.

Lemma split_on_app (s x : string) :
  PyStr.split_on "/" (s +:+ String "/" x)
  = (PyStr.split_on "/" s ++ PyStr.split_on "/" x)%list.
Proof.
  induction s as [|c s IH].
  - by rewrite str_app_nil_l.
  - rewrite str_app_cons. cbn [PyStr.split_on]. rewrite IH.
    destruct (Ascii.eqb c "/"); [done|].
    by destruct (split_on_cons "/" s) as (w & ws & ->).
Qed.

Lemma walk_snoc (t : tree) (cur : key) (ws : list string) (x : string) (k : key) :
  OS.walk t cur (ws ++ [x]) = inr k ->
  exists kd, OS.walk t cur ws = inr kd /\ OS.node_at t kd = Some Dir /\ k = OS.step kd x.
Proof.
  revert cur. induction ws as [|w ws IH]; intros cur; cbn [app OS.walk].
  - destruct (OS.node_at t cur) as [[c|]|] eqn:Hn; try done.
    intros [= <-]. by exists cur.
  - destruct (OS.node_at t cur) as [[c|]|] eqn:Hn; try done. apply IH.
Qed.

Lemma has_nul_app (a b : string) : OS.has_nul (a +:+ b) = OS.has_nul a || OS.has_nul b.
Proof.
  unfold OS.has_nul. induction a as [|c a IH]; [done|].
  rewrite str_app_cons. cbn [list_ascii_of_string existsb]. by rewrite IH, orb_assoc.
Qed.

Lemma concat_snoc (sep : string) (ws : list string) (x : string) :
  ws <> [] -> String.concat sep (ws ++ [x]) = String.concat sep ws +:+ sep +:+ x.
Proof.
  induction ws as [|w ws IH]; [done|]. intros _.
  destruct ws as [|w' ws].
  - reflexivity.
  - change ((w :: w' :: ws) ++ [x])%list with (w :: ((w' :: ws) ++ [x]))%list.
    change (String.concat sep (w :: ?l ++ [x])%list)
      with (w +:+ sep +:+ String.concat sep (l ++ [x])%list).
    rewrite IH by done.
    change (String.concat sep (w :: w' :: ws)) with (w +:+ sep +:+ String.concat sep (w' :: ws)).
    by rewrite !str_app_assoc.
Qed.

Lemma tidy_Path (s : string) : tidy (PathLib.Path s).
Proof.
  split.
  - apply Forall_forall. intros w [Hw _]%list_elem_of_filter. by apply Is_true_true.
  - cbn. unfold PathLib.anchor_of.
    destruct (PathLib.leading_slashes s) as [|[|[|n]]]; auto.
Qed.

Lemma tidy_div (p : PathLib.path) (s : string) : tidy p -> tidy (p </> s).
Proof.
  intros [Hp Ha]. unfold PathLib.div.
  destruct (PyStr.is_empty (PathLib.anchor (PathLib.Path s))); [|apply tidy_Path].
  split; [|done]. apply Forall_app. split; [done|]. apply tidy_Path.
Qed.

Lemma is_abs_app (a b : string) : a <> EmptyString -> OS.is_abs (a +:+ b) = OS.is_abs a.
Proof.
  destruct a as [|c a]; [done|]. intros _. rewrite str_app_cons.
  unfold OS.is_abs, PyStr.startswith. cbn [String.prefix].
  destruct (ascii_dec "/" c); [|done]. by destruct (a +:+ b), a.
Qed.

Lemma keeps_not_empty (w : string) : PathLib.keeps w = true -> w <> EmptyString.
Proof. by intros Hw ->. Qed.

(** The string of a path with parts, and of the path one part longer. *)
Lemma to_str_parts (a w : string) (ws : list string) :
  PathLib.keeps w = true ->
  PathLib.to_str (PathLib.mk_path a (w :: ws)) = a +:+ String.concat "/" (w :: ws)
  /\ a +:+ String.concat "/" (w :: ws) <> EmptyString.
Proof.
  intros Hw%keeps_not_empty. split.
  - unfold PathLib.to_str, PyStr.join. cbn [PathLib.anchor PathLib.parts]. by destruct a.
  - destruct a as [|c a]; [|by rewrite str_app_cons].
    rewrite str_app_nil_l. destruct w as [|c w]; [done|].
    destruct ws; [done|]. cbn [String.concat]. by rewrite str_app_cons.
Qed.

(** An entry that exists lies in a directory that exists: if the path
    [p / x] leads to something, [p] leads to a directory. *)
Lemma exists_child_parent (p : PathLib.path) (x : string) (t : tree) (c : key) :
  tidy p -> segment x -> PathLib.keeps x = true ->
  OS.exists_ t c (PathLib.to_str (p </> x)) = true ->
  OS.isdir t c (PathLib.to_str p) = true.
Proof.
  intros [Hp Ha] Hx Hk. rewrite (div_segment p x Hx), Hk.
  destruct p as [a ws]. cbn [PathLib.anchor PathLib.parts] in *.
  destruct ws as [|w ws].
  - (* a path without parts *)
    cbn [app]. destruct (to_str_parts a x [] Hk) as [-> Hne].
    change (String.concat "/" [x]) with x in *.
    unfold OS.exists_, OS.isdir, OS.stat, OS.locate.
    destruct (PyStr.is_empty (a +:+ x)); [done|].
    destruct (OS.has_nul (a +:+ x)); [done|].
    destruct Ha as [-> | [-> | ->]]; [| done..].
    rewrite str_app_nil_l.
    assert (OS.is_abs x = false) as ->.
    { destruct Hx as [Hne' Hs]. destruct x as [|ch x]; [done|].
      cbn [all_chars] in Hs. apply andb_prop in Hs as [Hc _]. unfold not_slash in Hc.
      unfold OS.is_abs, PyStr.startswith. cbn [String.prefix].
      destruct (ascii_dec "/" ch) as [<-|]; done. }
    rewrite split_on_segment by apply Hx. cbn [OS.walk].
    destruct (OS.node_at t c) as [[f|]|] eqn:Hn; try done.
    intros _. change (PathLib.to_str _) with ".". cbn. rewrite Hn. cbn. by rewrite Hn.
  - (* a path with parts *)
    apply Forall_cons in Hp as [Hw Hp].
    destruct (to_str_parts a w ws Hw) as [-> Hne].
    change ((w :: ws) ++ [x])%list with (w :: (ws ++ [x]))%list.
    destruct (to_str_parts a w (ws ++ [x]) Hw) as [-> _].
    change (w :: (ws ++ [x]))%list with ((w :: ws) ++ [x])%list.
    rewrite concat_snoc by done.
    set (P := a +:+ String.concat "/" (w :: ws)) in *.
    change ("/" +:+ x) with (String "/" x).
    rewrite <- str_app_assoc. fold P.
    unfold OS.exists_, OS.isdir, OS.stat, OS.locate.
    destruct (PyStr.is_empty (P +:+ String "/" x)) eqn:He; [done|].
    rewrite has_nul_app, is_abs_app, split_on_app, (split_on_segment x)
      by (done || apply Hx).
    destruct (PyStr.is_empty P) eqn:HeP; [by destruct P|].
    destruct (OS.has_nul P); [done|]. cbn [orb].
    destruct (OS.has_nul (String "/" x)); [done|].
    destruct (OS.walk t _ (_ ++ [x])) as [e|k] eqn:Hwk; [done|].
    apply walk_snoc in Hwk as (kd & -> & Hd & _). by rewrite Hd.
Qed.

(* ===================================================================== *)
(** * The claims *)
(* ===================================================================== *)

(** ** Parsing a reference *)

(** C8, as amended.  For every owner and repository segment (not empty, no
    slash), [parse_github_url] returns exactly that owner and that
    repository on [https://github.com/<owner>/<repo>.git], and on
    [https://github.com/<owner>/<repo>] it returns that owner and the
    repository with a final [.git] taken off, provided the repository does
    not end in a line feed. *)
Theorem C8_parse_github_url (owner repo : string) (t : tree) :
  segment owner -> segment repo ->
  RepoIngestor.parse_github_url ("https://github.com/" +:+ owner +:+ "/" +:+ repo +:+ ".git") t
    = (Ret (owner, repo), t, [])
  /\ (last_char repo <> Some PyStr.LF ->
      RepoIngestor.parse_github_url ("https://github.com/" +:+ owner +:+ "/" +:+ repo) t
        = (Ret (owner, chop_git repo), t, [])).
Proof.
  intros Ho Hr. unfold RepoIngestor.parse_github_url. split.
  - rewrite (parse_github_https owner (repo +:+ ".git")); [| done | |].
    + rewrite chop_git_app by apply Hr. done.
    + destruct Hr as [Hne Hr]. split.
      * destruct repo; [done|]. by rewrite str_app_cons.
      * by rewrite str_all_chars_app, Hr.
    + destruct Hr as [Hne _]. change ".git" with (String "." "git").
      by rewrite last_char_app_cons.
  - intros Hlf. by rewrite (parse_github_https owner repo).
Qed.

Lemma C8_parse_github_url_witness :
  RepoIngestor.parse_github_url "https://github.com/octo/hello.git" Demo.workdir
    = (Ret ("octo", "hello"), Demo.workdir, [])
  /\ RepoIngestor.parse_github_url "https://github.com/octo/hello" Demo.workdir
    = (Ret ("octo", "hello"), Demo.workdir, []).
Proof.
  assert (Ho : segment "octo") by (by split).
  assert (Hr : segment "hello") by (by split).
  destruct (C8_parse_github_url "octo" "hello" Demo.workdir Ho Hr) as [H1 H2].
  split; [exact H1 | apply H2; discriminate].
Defined.

(** C8 as it was stated fails on a repository segment that ends in a line
    feed: [$] also matches just before it, and the line feed is lost. *)
Lemma C8_counterexample :
  let repo := String "x" (String PyStr.LF EmptyString) in
  segment "o" /\ segment repo /\
  RepoIngestor.parse_github_url ("https://github.com/" +:+ "o" +:+ "/" +:+ repo) Demo.workdir
    = (Ret ("o", "x"), Demo.workdir, [])
  /\ "x" <> repo.
Proof. repeat split; try done. Qed.

(** ** What the events of a run tell *)

Lemma invalidated_quiet (c : key) (indexes_dir repo : string) (t t2 : tree) evs :
  invalidated c indexes_dir repo t t2 evs -> no_tool evs /\ no_clone evs.
Proof.
  intros [(_ & _ & ->) | [(_ & _ & _ & ->) | (_ & k & _ & -> & _)]];
    split; repeat constructor.
Qed.

Lemma not_tool_event (evs : list event) cmd token seen res :
  no_tool evs -> Gitingest cmd token seen res ∈ evs -> False.
Proof. intros Hn Hin. by apply (proj1 (Forall_forall _ _) Hn) in Hin. Qed.

Lemma not_clone_event (evs : list event) cmd seen res :
  no_clone evs -> GitClone cmd seen res ∈ evs -> False.
Proof. intros Hn Hin. by apply (proj1 (Forall_forall _ _) Hn) in Hin. Qed.

(** A run of [ingest_finish] in which the tool is seen to exit with a
    status: it is the one call of the tool. *)
Lemma finish_tool_event (H : host) (token : option string)
    (owner repo input : string) (is_url : bool) (output_dir : string) (clone : bool)
    (indexes_dir : string) (t : tree) r t' evs cmd tk seen res :
  RepoIngestor.ingest_finish H token owner repo input is_url output_dir clone indexes_dir t
    = (r, t', evs) ->
  Gitingest cmd tk seen res ∈ evs ->
  exists t3 ev0,
    gitingest H cmd tk seen = (res, t3) /\ cmd !! 1%nat = Some input /\
    invalidated (cwd H) indexes_dir repo t seen ev0 /\
    ((exists message,
        r = Ret (failed_record input message) /\ t' = t3 /\
        evs = (ev0 ++ [Gitingest cmd tk seen res])%list /\
        forall rc out err, res = Exited rc out err -> rc <> 0%Z -> message = PyStr.strip err)
     \/ (exit_ok res = true /\
         clone && is_url && negb (OS.isdir t3 (cwd H) input) = false /\
         r = Ret (<["output_file" := VStr (output_name output_dir owner repo (now H))]>
                  (ok_record input)) /\
         t' = t3 /\ evs = (ev0 ++ [Gitingest cmd tk seen res])%list)
     \/ (exit_ok res = true /\ clone = true /\ is_url = true /\
         exists rc ev_c,
           RepoIngestor.clone_repo H token input "my_repos" true t3 = (rc, t', ev_c) /\
           evs = (ev0 ++ Gitingest cmd tk seen res :: ev_c)%list /\
           r = Ret (<["local_repo" := match rc with Ret p => VStr p | Raise _ => VNone end]>
                    (<["output_file" := VStr (output_name output_dir owner repo (now H))]>
                    (ok_record input))))).
Proof.
  intros Hrun Hin.
  apply ingest_finish_inv in Hrun
    as [(_ & _ & Hnt & _) | (t2 & ev0 & cmd0 & tk0 & res0 & t3 & Hinv & Hcmd & Hres & Hcases)].
  { by destruct (not_tool_event _ _ _ _ _ Hnt Hin). }
  destruct (invalidated_quiet _ _ _ _ _ _ Hinv) as [Hq _].
  assert (Gitingest cmd tk seen res = Gitingest cmd0 tk0 t2 res0) as [= -> -> -> ->].
  { destruct Hcases as [(m & _ & _ & -> & _) | [(_ & _ & _ & _ & ->) | (_ & _ & _ & rc & ev_c & Hc & -> & _)]].
    - apply elem_of_app in Hin as [Hin | Hin%list_elem_of_singleton]; [|done].
      by destruct (not_tool_event _ _ _ _ _ Hq Hin).
    - apply elem_of_app in Hin as [Hin | Hin%list_elem_of_singleton]; [|done].
      by destruct (not_tool_event _ _ _ _ _ Hq Hin).
    - apply elem_of_app in Hin as [Hin | Hin]; [by destruct (not_tool_event _ _ _ _ _ Hq Hin)|].
      apply elem_of_cons in Hin as [Hin | Hin]; [done|].
      apply clone_repo_no_tool in Hc. by destruct (not_tool_event _ _ _ _ _ Hc Hin). }
  by exists t3, ev0.
Qed.

(** A run of [ingest_finish] in which the client is seen to run: the tool
    had succeeded, and the record tells how the client ended. *)
Lemma finish_clone_event (H : host) (token : option string)
    (owner repo input : string) (is_url : bool) (output_dir : string) (clone : bool)
    (indexes_dir : string) (t : tree) r t' evs cmd seen res :
  RepoIngestor.ingest_finish H token owner repo input is_url output_dir clone indexes_dir t
    = (r, t', evs) ->
  GitClone cmd seen res ∈ evs ->
  clone = true /\ is_url = true /\ tool_succeeded evs /\
  exists o rp,
    parse_github_url_groups input = Some (o, rp) /\
    r = Ret (<["local_repo" :=
                 if exit_ok res
                 then VStr (PathLib.to_str (PathLib.Path "my_repos" </> o </> rp))
                 else VNone]>
             (<["output_file" := VStr (output_name output_dir owner repo (now H))]>
             (ok_record input))).
Proof.
  intros Hrun Hin.
  apply ingest_finish_inv in Hrun
    as [(_ & _ & _ & Hnc) | (t2 & ev0 & cmd0 & tk0 & res0 & t3 & Hinv & Hcmd & Hres & Hcases)].
  { by destruct (not_clone_event _ _ _ _ Hnc Hin). }
  destruct (invalidated_quiet _ _ _ _ _ _ Hinv) as [_ Hq].
  destruct Hcases as [(m & _ & _ & -> & _) | [(_ & _ & _ & _ & ->) | (Hok & -> & -> & rc & ev_c & Hc & -> & ->)]].
  - apply elem_of_app in Hin as [Hin | Hin%list_elem_of_singleton]; [|done].
    by destruct (not_clone_event _ _ _ _ Hq Hin).
  - apply elem_of_app in Hin as [Hin | Hin%list_elem_of_singleton]; [|done].
    by destruct (not_clone_event _ _ _ _ Hq Hin).
  - split; [done|]. split; [done|]. split.
    { exists cmd0, tk0, t2, res0. split; [|done].
      apply elem_of_app. right. apply elem_of_cons. by left. }
    apply elem_of_app in Hin as [Hin | Hin]; [by destruct (not_clone_event _ _ _ _ Hq Hin)|].
    apply elem_of_cons in Hin as [Hin | Hin]; [done|].
    apply clone_repo_inv in Hc
      as [(_ & Hnc & _) | (o & rp & cmd1 & seen1 & res1 & pre & Hp & -> & Hnc & _ & Hr)].
    { by destruct (not_clone_event _ _ _ _ Hnc Hin). }
    apply elem_of_app in Hin as [Hin | Hin%list_elem_of_singleton];
      [by destruct (not_clone_event _ _ _ _ Hnc Hin)|].
    injection Hin as -> -> ->. exists o, rp. split; [done|].
    destruct (exit_ok res1); [by rewrite Hr | by destruct Hr as [e ->]].
Qed.

(** ** Remote references *)

(** C5.  For every remote reference, when the ingestion tool exits with a
    status other than 0, [ingest_repo] returns the failure record whose
    error is the standard error of the tool, stripped, and the
    version-control client is not run. *)
Theorem C5_tool_failure_is_reported (H : host) (token : option string)
    (repo_input output_dir : string) (clone : bool) (indexes_dir : string) (t : tree)
    r t' evs cmd tk seen rc out err :
  RepoIngestor.ingest_repo H token repo_input output_dir clone indexes_dir t = (r, t', evs) ->
  RepoIngestor._is_probable_git_url (PyStr.strip repo_input) = true ->
  Gitingest cmd tk seen (Exited rc out err) ∈ evs ->
  rc <> 0%Z ->
  r = Ret (failed_record (PyStr.strip repo_input) (PyStr.strip err)) /\ no_clone evs.
Proof.
  intros Hrun Hurl Hin Hrc.
  apply ingest_repo_inv in Hrun
    as [(_ & -> & _) | (t1 & _ & [(_ & _ & _ & ->) | [(_ & _ & _ & _ & _ & ->) |
         [(_ & _ & owner & repo & _ & Hrun) | (_ & Hloc & _)]]])];
    try (by apply elem_of_nil in Hin); [|congruence].
  destruct (finish_tool_event _ _ _ _ _ _ _ _ _ _ _ _ _ _ _ _ _ Hrun Hin)
    as (t3 & ev0 & _ & _ & Hinv & [(m & -> & _ & -> & Hm) | [(Hok & _) | (Hok & _)]]).
  - rewrite (Hm rc out err eq_refl Hrc). split; [done|].
    apply Forall_app. split; [by eapply invalidated_quiet | repeat constructor].
  - by destruct rc.
  - by destruct rc.
Qed.

(** C6.  For every remote reference for which the ingestion succeeded and
    the clone was requested, when the version-control client fails the
    result still has [success = true], carries [local_repo = None] and has
    no error. *)
Theorem C6_clone_failure_is_not_fatal (H : host) (token : option string)
    (repo_input output_dir : string) (clone : bool) (indexes_dir : string) (t : tree)
    r t' evs cmd seen res :
  RepoIngestor.ingest_repo H token repo_input output_dir clone indexes_dir t = (r, t', evs) ->
  RepoIngestor._is_probable_git_url (PyStr.strip repo_input) = true ->
  GitClone cmd seen res ∈ evs ->
  exit_ok res = false ->
  clone = true /\ tool_succeeded evs /\
  exists d, r = Ret d /\
    d !! "success" = Some (VBool true) /\
    d !! "local_repo" = Some VNone /\
    d !! "error" = None.
Proof.
  intros Hrun Hurl Hin Hres.
  apply ingest_repo_inv in Hrun
    as [(_ & -> & _) | (t1 & _ & [(_ & _ & _ & ->) | [(_ & _ & _ & _ & _ & ->) |
         [(_ & _ & owner & repo & _ & Hrun) | (_ & Hloc & _)]]])];
    try (by apply elem_of_nil in Hin); [|congruence].
  destruct (finish_clone_event _ _ _ _ _ _ _ _ _ _ _ _ _ _ _ _ Hrun Hin)
    as (-> & _ & Hts & o & rp & _ & ->).
  rewrite Hres. split; [done|]. split; [done|]. eexists. split; [done|]. done.
Qed.

(** C1.  For every remote reference, when the ingestion tool succeeds and
    the clone succeeds, [ingest_repo] returns a record with
    [success = true], the output file [{output_dir}/{owner}_{repo}_{timestamp}.txt]
    and the local repository [my_repos/{owner}/{repo}], written as [pathlib]
    writes that path (the very same string unless a name is a single dot),
    for the owner and the repository parsed from the reference. *)
Theorem C1_remote_reference_ingested_and_cloned (H : host) (token : option string)
    (repo_input output_dir : string) (clone : bool) (indexes_dir : string) (t : tree)
    r t' evs :
  RepoIngestor.ingest_repo H token repo_input output_dir clone indexes_dir t = (r, t', evs) ->
  RepoIngestor._is_probable_git_url (PyStr.strip repo_input) = true ->
  tool_succeeded evs ->
  clone_succeeded evs ->
  exists owner repo d,
    parse_github_url_groups (PyStr.strip repo_input) = Some (owner, repo) /\
    r = Ret d /\
    d !! "success" = Some (VBool true) /\
    d !! "output_file"
      = Some (VStr (output_dir +:+ "/" +:+ owner +:+ "_" +:+ repo +:+ "_" +:+ now H +:+ ".txt")) /\
    d !! "local_repo"
      = Some (VStr (PathLib.to_str (PathLib.Path ("my_repos/" +:+ owner +:+ "/" +:+ repo)))) /\
    (owner <> "." -> repo <> "." ->
     d !! "local_repo" = Some (VStr ("my_repos/" +:+ owner +:+ "/" +:+ repo))).
Proof.
  intros Hrun Hurl _ (cmd & seen & res & Hin & Hres).
  apply ingest_repo_inv in Hrun
    as [(_ & -> & _) | (t1 & _ & [(_ & _ & _ & ->) | [(_ & _ & _ & _ & _ & ->) |
         [(_ & _ & owner & repo & Hp & Hrun) | (_ & Hloc & _)]]])];
    try (by apply elem_of_nil in Hin); [|congruence].
  destruct (finish_clone_event _ _ _ _ _ _ _ _ _ _ _ _ _ _ _ _ Hrun Hin)
    as (_ & _ & _ & o & rp & Hp' & ->).
  rewrite Hp in Hp'. injection Hp' as <- <-.
  destruct (parse_github_url_groups_segments _ _ _ Hp) as [Ho Hr].
  rewrite Hres, clone_destination by done.
  exists owner, repo. eexists. split; [done|]. split; [done|].
  split; [done|]. split; [done|]. split; [done|].
  intros Ho' Hr'. by rewrite clone_destination_str.
Qed.

(** A run is the triple of its result, its last tree and its events. *)
Lemma run_eta {A} (x : res A * tree * list event) : x = (x.1.1, x.1.2, x.2).
Proof. by destruct x as [[? ?] ?]. Qed.

(** Evaluate the left-hand side of an equation between closed terms. *)
Ltac evaluate :=
  lazymatch goal with
  | |- _ = ?rhs => vm_cast_no_check (@eq_refl _ rhs)
  end.

Lemma C5_tool_failure_is_reported_witness :
  Demo.run_refused.1.1 = Ret (failed_record Demo.url "auth failed").
Proof.
  assert (Hev : Demo.run_refused.2 =
    [Gitingest Demo.tool_cmd None Demo.seen_by_tool (Exited 1 EmptyString "auth failed")])
    by evaluate.
  destruct (C5_tool_failure_is_reported
              (Demo.host_with Demo.tool_fail Demo.git_ok) None Demo.url
              "gitingest_outputs" true "indexes" Demo.workdir
              Demo.run_refused.1.1 Demo.run_refused.1.2 Demo.run_refused.2
              Demo.tool_cmd None Demo.seen_by_tool
              1%Z EmptyString "auth failed" (run_eta Demo.run_refused)) as [Hr _].
  - evaluate.
  - rewrite Hev. constructor.
  - discriminate.
  - exact Hr.
Defined.

Lemma C6_clone_failure_is_not_fatal_witness :
  exists d,
    Demo.run_unclonable.1.1 = Ret d /\
    d !! "success" = Some (VBool true) /\ d !! "local_repo" = Some VNone.
Proof.
  assert (Hev : Demo.run_unclonable.2 =
    [Gitingest Demo.tool_cmd None Demo.seen_by_tool (Exited 0 EmptyString EmptyString);
     GitClone Demo.clone_cmd Demo.seen_by_client
       (Exited 128 EmptyString "fatal: repository not found")]) by evaluate.
  destruct (C6_clone_failure_is_not_fatal
              (Demo.host_with Demo.tool_ok Demo.git_fail) None Demo.url
              "gitingest_outputs" true "indexes" Demo.workdir
              Demo.run_unclonable.1.1 Demo.run_unclonable.1.2 Demo.run_unclonable.2
              Demo.clone_cmd Demo.seen_by_client
              (Exited 128 EmptyString "fatal: repository not found")
              (run_eta Demo.run_unclonable))
    as (_ & _ & d & Hd & Hs & Hl & _).
  - evaluate.
  - rewrite Hev. do 2 constructor.
  - reflexivity.
  - exists d. split; [exact Hd | split; [exact Hs | exact Hl]].
Defined.

Lemma C1_remote_reference_ingested_and_cloned_witness :
  exists d,
    Demo.run_cloned.1.1 = Ret d /\
    d !! "success" = Some (VBool true) /\
    d !! "output_file" = Some (VStr "gitingest_outputs/o_r_20240101_120000.txt") /\
    d !! "local_repo" = Some (VStr "my_repos/o/r").
Proof.
  assert (Hev : Demo.run_cloned.2 =
    [Gitingest Demo.tool_cmd None Demo.seen_by_tool (Exited 0 EmptyString EmptyString);
     GitClone Demo.clone_cmd Demo.seen_by_client (Exited 0 EmptyString EmptyString)])
    by evaluate.
  assert (Hparse : parse_github_url_groups (PyStr.strip Demo.url) = Some ("o", "r"))
    by evaluate.
  destruct (C1_remote_reference_ingested_and_cloned
              (Demo.host_with Demo.tool_ok Demo.git_ok) None Demo.url
              "gitingest_outputs" true "indexes" Demo.workdir
              Demo.run_cloned.1.1 Demo.run_cloned.1.2 Demo.run_cloned.2
              (run_eta Demo.run_cloned))
    as (owner & repo & d & Hp & Hd & Hs & Ho & Hl & _).
  - evaluate.
  - rewrite Hev. do 4 eexists. split; [constructor | reflexivity].
  - rewrite Hev. do 3 eexists. split; [do 2 constructor | reflexivity].
  - exists d. rewrite Hparse in Hp. injection Hp as <- <-.
    split; [exact Hd | split; [exact Hs | split; [exact Ho | exact Hl]]].
Defined.

(** ** A reference that cannot be parsed *)

(** Whatever is taken for a remote reference and does not match the pattern
    makes [ingest_repo] raise the [ValueError] of [parse_github_url]. *)
Lemma invalid_reference_raises (H : host) (token : option string)
    (repo_input output_dir : string) (clone : bool) (indexes_dir : string) (t t1 : tree) evs0 :
  blank repo_input = false ->
  RepoIngestor._is_probable_git_url (PyStr.strip repo_input) = true ->
  parse_github_url_groups (PyStr.strip repo_input) = None ->
  path_mkdir H false true (PathLib.Path output_dir) t = (Ret tt, t1, evs0) ->
  RepoIngestor.ingest_repo H token repo_input output_dir clone indexes_dir t
  = (Raise (ValueError ("Invalid GitHub URL: " +:+ PyStr.strip repo_input)), t1, []).
Proof.
  intros Hb Hu Hp Hm. unfold RepoIngestor.ingest_repo.
  destruct (path_mkdir_grows _ _ _ _ _ _ _ _ Hm) as [-> _].
  rewrite (bind_step _ _ _ _ _ _ Hm). fold (blank repo_input). rewrite Hb. cbv zeta.
  rewrite Hu. cbn [negb]. unfold RepoIngestor.parse_github_url. by rewrite Hp.
Qed.

(** C2 (the code departs from the claim).  On the reference
    [https://example.com/project], which is taken for a remote one and does
    not match the pattern, [ingest_repo] returns no record: it raises
    [ValueError], after the output directory has been made. *)
Theorem C2_invalid_reference_raises :
  Demo.run_invalid
  = (Raise (ValueError "Invalid GitHub URL: https://example.com/project"),
     Demo.seen_by_tool, []).
Proof. evaluate. Qed.

(** Only the HTTP route turns that exception into a failure record. *)
Lemma invalid_reference_through_route :
  (RepoIngestor.ingest_route (Demo.host_with Demo.tool_ok Demo.git_ok) None
     "https://example.com/project" Demo.workdir).1.1
  = Ret (<["success" := VBool false]>
         (<["error" := VStr "Invalid GitHub URL: https://example.com/project"]> ∅)).
Proof. evaluate. Qed.

(** ** The input echoed in the record *)

Lemma not_raised_ret {A} (a : A) : raised (Ret a) -> False.
Proof. by intros [e ?]. Qed.

(** When [ingest_finish] returns a record, the tool was called on the
    effective input and the record carries that input. *)
Lemma finish_echo (H : host) (token : option string)
    (owner repo input : string) (is_url : bool) (output_dir : string) (clone : bool)
    (indexes_dir : string) (t : tree) d t' evs :
  RepoIngestor.ingest_finish H token owner repo input is_url output_dir clone indexes_dir t
    = (Ret d, t', evs) ->
  exists cmd tk seen res,
    Gitingest cmd tk seen res ∈ evs /\ cmd !! 1%nat = Some input /\
    d !! "repo_input" = Some (VStr input).
Proof.
  intros Hrun.
  apply ingest_finish_inv in Hrun
    as [(_ & Hr & _) | (t2 & ev0 & cmd & tk & res & t3 & Hinv & Hcmd & Hres & Hcases)].
  { by destruct (not_raised_ret _ Hr). }
  exists cmd, tk, t2, res.
  destruct Hcases as [(m & [= ->] & _ & -> & _) | [(_ & _ & [= ->] & _ & ->) |
    (_ & _ & _ & rc & ev_c & _ & -> & [= ->])]].
  - split; [|done]. apply elem_of_app. right. constructor.
  - split; [|done]. apply elem_of_app. right. constructor.
  - split; [|done]. apply elem_of_app. right. constructor.
Qed.

(** C9, as amended.  A record returned by [ingest_repo] echoes the input
    only once the ingestion tool has been called, and what it echoes in
    [repo_input] is the input handed to the tool: the stripped reference
    for a remote one, the resolved directory for a local path.  The
    failure records returned before that have no [repo_input]. *)
Theorem C9_effective_input_is_echoed (H : host) (token : option string)
    (repo_input output_dir : string) (clone : bool) (indexes_dir : string) (t : tree)
    d t' evs :
  RepoIngestor.ingest_repo H token repo_input output_dir clone indexes_dir t
    = (Ret d, t', evs) ->
  (no_tool evs /\ d !! "success" = Some (VBool false) /\ d !! "repo_input" = None)
  \/ (exists cmd tk seen res,
        Gitingest cmd tk seen res ∈ evs /\
        cmd !! 1%nat = Some (effective_input H (PyStr.strip repo_input)) /\
        d !! "repo_input" = Some (VStr (effective_input H (PyStr.strip repo_input)))).
Proof.
  intros Hrun. unfold effective_input.
  apply ingest_repo_inv in Hrun
    as [(Hr & _) | (t1 & _ & [(_ & [= ->] & _ & ->) | [(_ & _ & _ & ? & _) |
         [(_ & Hu & owner & repo & _ & Hrun) | (_ & Hu & Hrun)]]])];
    try done.
  - by destruct (not_raised_ret _ Hr).
  - left. split; [constructor | done].
  - right. cbv zeta in Hu. rewrite Hu. by apply finish_echo in Hrun.
  - cbv zeta in Hu. rewrite Hu.
    apply ingest_local_inv in Hrun
      as [(_ & [= ->] & _ & ->) | (_ & [(Hr & _) | (t2 & t3 & evs' & _ & _ & -> & Hrun)])].
    + left. split; [constructor | done].
    + by destruct (not_raised_ret _ Hr).
    + right. apply finish_echo in Hrun as (cmd & tk & seen & res & Hin & Hcmd & Hd).
      exists cmd, tk, seen, res. split; [|done]. by apply elem_of_cons; right.
Qed.

Lemma C9_effective_input_is_echoed_witness :
  exists d, Demo.run_cloned.1.1 = Ret d /\ d !! "repo_input" = Some (VStr Demo.url).
Proof.
  set (d := <["local_repo" := VStr "my_repos/o/r"]>
            (<["output_file" := VStr "gitingest_outputs/o_r_20240101_120000.txt"]>
            (ok_record Demo.url))).
  assert (Hd : Demo.run_cloned.1.1 = Ret d) by evaluate.
  assert (Hev : Demo.run_cloned.2 =
    [Gitingest Demo.tool_cmd None Demo.seen_by_tool (Exited 0 EmptyString EmptyString);
     GitClone Demo.clone_cmd Demo.seen_by_client (Exited 0 EmptyString EmptyString)])
    by evaluate.
  assert (Heff : effective_input (Demo.host_with Demo.tool_ok Demo.git_ok)
                   (PyStr.strip Demo.url) = Demo.url) by evaluate.
  destruct (C9_effective_input_is_echoed
              (Demo.host_with Demo.tool_ok Demo.git_ok) None Demo.url
              "gitingest_outputs" true "indexes" Demo.workdir
              d Demo.run_cloned.1.2 Demo.run_cloned.2)
    as [(Hnt & _) | (cmd & tk & seen & res & _ & _ & Hecho)].
  - rewrite <- Hd. apply run_eta.
  - rewrite Hev in Hnt. by apply Forall_cons in Hnt as [? _].
  - exists d. split; [exact Hd|]. rewrite Heff in Hecho. exact Hecho.
Defined.

(** C9 as it was stated fails on a local path: the record carries the
    resolved directory, not the input. *)
Lemma C9_counterexample :
  exists d, Demo.run_local.1.1 = Ret d /\
    d !! "repo_input" = Some (VStr "/work/proj") /\
    d !! "repo_input" <> Some (VStr "proj").
Proof.
  exists (<["output_file" := VStr "gitingest_outputs/Local_proj_20240101_120000.txt"]>
          (ok_record "/work/proj")).
  split; [evaluate|]. split; [done|]. rewrite lookup_insert_ne by done.
  unfold ok_record. rewrite !lookup_insert_ne by done. rewrite lookup_insert_eq.
  discriminate.
Qed.

(** ** Local paths *)

Lemma prefix_apart (c : key) (a b : string) (k : key) :
  a <> b -> (c ++ [a])%list `prefix_of` k -> k <> (c ++ [b])%list.
Proof.
  intros Hab [l ->] Heq. rewrite <- app_assoc in Heq.
  apply app_inv_head in Heq. injection Heq as Heq _. done.
Qed.


(** C7 (amended).  [ingest_repo] makes the output directory before it
    looks for the path, so the path must be no directory then: take an
    input classified as local whose normalised path is not an existing
    directory at the call, an output directory that exists or can be
    made, and a path that is still not a directory once that is done.
    The result is the failure record "Local path not found or not a
    directory", nothing is written, no marker file in particular, and the
    tree is left as the creation of the output directory left it: nothing
    at or below [my_repos] has changed unless the output directory lies
    there, which the default one does not. *)
Theorem C7_missing_local_path (H : host) (token : option string)
    (repo_input output_dir : string) (clone : bool) (indexes_dir : string)
    (t t1 : tree) evs0 :
  blank repo_input = false ->
  RepoIngestor._is_probable_git_url (PyStr.strip repo_input) = false ->
  OS.isdir t (cwd H) (RepoIngestor._normalize_local_path H (PyStr.strip repo_input)) = false ->
  path_mkdir H false true (PathLib.Path output_dir) t = (Ret tt, t1, evs0) ->
  OS.isdir t1 (cwd H) (RepoIngestor._normalize_local_path H (PyStr.strip repo_input)) = false ->
  RepoIngestor.ingest_repo H token repo_input output_dir clone indexes_dir t
    = (Ret (not_found_record (RepoIngestor._normalize_local_path H (PyStr.strip repo_input))),
       t1, [])
  /\ (t1 = t \/
      exists k, OS.locate t (cwd H) (PathLib.to_str (PathLib.Path output_dir)) = inr k /\
                OS.node_at t k = None /\ t1 = <[k := Dir]> t)
  /\ ((forall k, OS.locate t (cwd H) (PathLib.to_str (PathLib.Path output_dir)) = inr k ->
                 ~ (cwd H ++ ["my_repos"])%list `prefix_of` k) ->
      same_below (cwd H ++ ["my_repos"])%list t t1)
  /\ (output_dir = "gitingest_outputs" -> same_below (cwd H ++ ["my_repos"])%list t t1).
Proof.
  intros Hb Hu _ Hm Hd.
  assert (Hmk : t1 = t \/
      exists k, OS.locate t (cwd H) (PathLib.to_str (PathLib.Path output_dir)) = inr k /\
                OS.node_at t k = None /\ t1 = <[k := Dir]> t).
  { apply mkdir_here_inv in Hm as [_ [-> | (_ & k & Hk & Hn & ->)]]; [by left|].
    right. by exists k. }
  split; [|split; [done|split]].
  - unfold RepoIngestor.ingest_repo.
    destruct (path_mkdir_grows _ _ _ _ _ _ _ _ Hm) as [-> _].
    rewrite (bind_step _ _ _ _ _ _ Hm). fold (blank repo_input). rewrite Hb. cbv zeta.
    rewrite Hu. cbn [negb]. unfold RepoIngestor.ingest_local.
    rewrite (bind_ret _ _ _ _ (os_path_isdir_run H _ t1)), Hd. done.
  - intros Hout k' Hk'. destruct Hmk as [-> | (k & Hk & Hn & ->)]; [done|].
    apply lookup_insert_ne. intros ->. by apply (Hout k' Hk).
  - intros -> k' Hk'. destruct Hmk as [-> | (k & Hk & Hn & ->)]; [done|].
    apply locate_lex in Hk. apply lookup_insert_ne. rewrite Hk. apply not_eq_sym.
    apply (prefix_apart (cwd H) "my_repos" "gitingest_outputs"); done.
Qed.

Lemma C7_missing_local_path_witness :
  Demo.run_missing = (Ret (not_found_record "nothere"), Demo.seen_by_tool, [])
  /\ same_below ["work"; "my_repos"] Demo.workdir Demo.seen_by_tool.
Proof.
  destruct (C7_missing_local_path (Demo.host_with Demo.tool_ok Demo.git_ok) None
              "nothere" "gitingest_outputs" true "indexes" Demo.workdir Demo.seen_by_tool [])
    as (Hrun & _ & _ & Hsame).
  - evaluate.
  - evaluate.
  - evaluate.
  - evaluate.
  - evaluate.
  - split; [exact Hrun | exact (Hsame eq_refl)].
Defined.

(** C7 as it was stated fails on the name of the output directory: it
    is no directory at the call, yet it is one when [ingest_repo] looks
    for it, so the marker file is written, the tool is run, and the
    record is a success. *)
Lemma C7_counterexample :
  blank "gitingest_outputs" = false
  /\ RepoIngestor._is_probable_git_url (PyStr.strip "gitingest_outputs") = false
  /\ OS.isdir Demo.workdir ["work"]
       (RepoIngestor._normalize_local_path (Demo.host_with Demo.tool_ok Demo.git_ok)
          (PyStr.strip "gitingest_outputs")) = false
  /\ Demo.run_output_dir.1.1
     = Ret (<["output_file" :=
                VStr "gitingest_outputs/Local_gitingest_outputs_20240101_120000.txt"]>
            (ok_record "/work/gitingest_outputs"))
  /\ Demo.run_output_dir.2 !! 0%nat
     = Some (Wrote "my_repos/Local/gitingest_outputs/repopath.txt" "/work/gitingest_outputs")
  /\ Demo.workdir
       !! ["work"; "my_repos"; "Local"; "gitingest_outputs"; "repopath.txt"] = None
  /\ Demo.run_output_dir.1.2
       !! ["work"; "my_repos"; "Local"; "gitingest_outputs"; "repopath.txt"]
     = Some (File "/work/gitingest_outputs").
Proof. repeat split; evaluate. Qed.



(** ** Invalidation of a stale index *)

Lemma isdir_locate (t : tree) (c : key) (s : string) :
  OS.isdir t c s = true ->
  exists k, OS.locate t c s = inr k /\ OS.node_at t k = Some Dir.
Proof.
  unfold OS.isdir, OS.stat. destruct (OS.locate t c s) as [e|k]; [done|].
  destruct (OS.node_at t k) as [[x|]|] eqn:Hn; try done. by exists k.
Qed.

Lemma isdir_exists (t : tree) (c : key) (s : string) :
  OS.isdir t c s = true -> OS.exists_ t c s = true.
Proof. unfold OS.isdir, OS.exists_. by destruct (OS.stat t c s) as [e|[x|]]. Qed.

(** A complete index lies in an index directory that exists. *)
Lemma index_complete_dir (t : tree) (c : key) (indexes_dir repo : string) :
  index_complete t c indexes_dir repo = true ->
  OS.isdir t c (index_dir indexes_dir repo) = true.
Proof.
  unfold index_complete. intros [[H1 _]%andb_prop _]%andb_prop.
  apply (exists_child_parent _ "repo.index"); [|by split|done|done].
  apply tidy_div, tidy_Path.
Qed.




(** C10 (the code departs from the claim).  On the reference
    [https://github.com/../indexes] the owner is [..], so the destination
    of the clone, [my_repos/../indexes], is the directory of the indexes
    itself.  In a working directory that has [my_repos] and an incomplete
    index of the repository [indexes] (its [chunks.json] only), with a
    tool that writes its output file and a client that touches nothing,
    [clone_repo] removes that destination before it calls the client:
    the incomplete index is gone with all the indexes, and the record
    says [success] all the same. *)
Theorem C10_parent_owner_removes_index :
  parse_github_url_groups Demo.url_up = Some ("..", "indexes")
  /\ index_complete Demo.partial ["work"] "indexes" "indexes" = false
  /\ Demo.partial !! ["work"; "indexes"; "indexes"; "chunks.json"] = Some (File "c")
  /\ Demo.run_partial_up.1.1
     = Ret (<["local_repo" := VNone]>
            (<["output_file" := VStr "gitingest_outputs/.._indexes_20240101_120000.txt"]>
            (ok_record Demo.url_up)))
  /\ Demo.run_partial_up.2 !! 1%nat = Some (Removed "my_repos/../indexes")
  /\ Demo.run_partial_up.1.2 !! ["work"; "indexes"; "indexes"; "chunks.json"] = None
  /\ Demo.run_partial_up.1.2 !! ["work"; "indexes"; "indexes"] = None
  /\ Demo.run_partial_up.1.2 !! ["work"; "indexes"] = None.
Proof. repeat split; evaluate. Qed.

(** ** What a run leaves alone *)

Local Abbreviation rel ws := (PathLib.mk_path EmptyString ws).

Lemma same_below_refl (d : key) (t : tree) : same_below d t t.
Proof. by intros k _. Qed.

Lemma same_below_trans (d : key) (t1 t2 t3 : tree) :
  same_below d t1 t2 -> same_below d t2 t3 -> same_below d t1 t3.
Proof. intros H12 H23 k Hk. by rewrite (H23 k Hk), (H12 k Hk). Qed.

Lemma same_below_weaken (d d' : key) (t t' : tree) :
  d `prefix_of` d' -> same_below d t t' -> same_below d' t t'.
Proof. intros Hd Hs k Hk. apply Hs. by etrans. Qed.

Lemma same_below_insert (d k : key) (n : node) (t : tree) :
  ~ d `prefix_of` k -> same_below d t (<[k := n]> t).
Proof. intros Hk k' Hk'. rewrite lookup_insert_ne; [done|]. by intros ->. Qed.

(** Emptying and removing [k] leaves alone what is not below it. *)
Lemma same_below_remove (d k : key) (t : tree) :
  (forall k', d `prefix_of` k' -> ~ k `prefix_of` k') ->
  same_below d t (OS.prune k t) /\ same_below d t (delete k (OS.prune k t)).
Proof.
  intros Hap.
  assert (Hp : same_below d t (OS.prune k t)).
  { intros k' Hk'. rewrite lookup_prune.
    destruct (OS.below k k') eqn:Hb; [|done].
    apply below_spec in Hb as [Hb _]. by destruct (Hap k' Hk'). }
  split; [done|]. intros k' Hk'. rewrite lookup_delete_ne; [by apply Hp|].
  intros ->. by destruct (Hap k' Hk').
Qed.

(** Two entries of the same directory have nothing in common below them. *)
Lemma apart_heads (c : key) (a b : string) (xs ys k : key) :
  a <> b -> (c ++ a :: xs)%list `prefix_of` k -> ~ (c ++ b :: ys)%list `prefix_of` k.
Proof.
  intros Hab [l1 ->] [l2 E]. rewrite <- !app_assoc in E.
  apply app_inv_head in E. cbn in E. congruence.
Qed.

Lemma removelast_prefix {A} (l : list A) : removelast l `prefix_of` l.
Proof.
  destruct l as [|a l]; [done|]. exists [List.last (a :: l) a].
  by apply app_removelast_last.
Qed.

Lemma Forall_prefix {A} (P : A -> Prop) (l l' : list A) :
  l' `prefix_of` l -> Forall P l -> Forall P l'.
Proof. intros [k ->] Hl. by apply Forall_app in Hl as [? _]. Qed.

(** *** Relative paths of plain parts *)

Ltac plain_parts :=
  repeat (apply Forall_cons_2; [first [assumption | by repeat split] |]);
  apply Forall_nil_2.

Lemma step_plain (cur : key) (w : string) : plain w -> OS.step cur w = (cur ++ [w])%list.
Proof.
  intros ([Hne _] & Hd & Hdd). unfold OS.step.
  destruct w as [|a w]; [done|]. cbn [PyStr.is_empty orb].
  destruct (String.eqb_spec (String a w) "."); [done|].
  by destruct (String.eqb_spec (String a w) "..").
Qed.

Lemma fold_step_plain (ws : list string) (cur : key) :
  Forall plain ws -> fold_left OS.step ws cur = (cur ++ ws)%list.
Proof.
  intros Hws. revert cur. induction Hws as [|w ws Hw _ IH]; intros cur; cbn [fold_left].
  - by rewrite app_nil_r.
  - rewrite step_plain, IH by done. by rewrite <- app_assoc.
Qed.

Lemma split_concat (w : string) (ws : list string) :
  Forall plain (w :: ws) -> PyStr.split_on "/" (String.concat "/" (w :: ws)) = w :: ws.
Proof.
  revert w. induction ws as [|w' ws IH]; intros w Hws;
    apply Forall_cons in Hws as [Hw Hws].
  - cbn [String.concat]. apply split_on_segment, Hw.
  - change (String.concat "/" (w :: w' :: ws))
      with (w +:+ String "/" (String.concat "/" (w' :: ws))).
    rewrite split_on_sep by apply Hw. by rewrite IH.
Qed.

Lemma to_str_rel (w : string) (ws : list string) :
  PathLib.to_str (rel (w :: ws)) = String.concat "/" (w :: ws).
Proof. reflexivity. Qed.

Lemma concat_head (w : string) (ws : list string) :
  plain w ->
  exists a s, a <> "/"%char /\ w = String a s /\
              String.concat "/" (w :: ws) = String a (String.concat "/" (s :: ws)).
Proof.
  intros ([Hne Hs] & _). destruct w as [|a s]; [done|].
  cbn [all_chars] in Hs. apply andb_prop in Hs as [Ha _]. unfold not_slash in Ha.
  exists a, s. split; [|split; [done|]].
  - intros ->. done.
  - by destruct ws.
Qed.

Lemma concat_not_abs (w : string) (ws : list string) :
  plain w -> OS.is_abs (String.concat "/" (w :: ws)) = false.
Proof.
  intros Hw. destruct (concat_head w ws Hw) as (a & s & Ha & _ & ->).
  unfold OS.is_abs, PyStr.startswith. cbn [String.prefix].
  destruct (ascii_dec "/" a); [congruence | done].
Qed.

Lemma lex_rel (c : key) (ws : list string) :
  Forall plain ws -> lex c (PathLib.to_str (rel ws)) = (c ++ ws)%list.
Proof.
  intros Hws. destruct ws as [|w ws].
  - cbn. by rewrite app_nil_r.
  - rewrite to_str_rel. unfold lex.
    rewrite concat_not_abs, split_concat by (done || by inversion Hws).
    by apply fold_step_plain.
Qed.

Lemma locate_rel (t : tree) (c : key) (w : string) (ws : list string) :
  Forall plain (w :: ws) ->
  OS.locate t c (PathLib.to_str (rel (w :: ws))) =
    if OS.has_nul (String.concat "/" (w :: ws)) then inl ENUL
    else match OS.node_at t c with
         | Some Dir => OS.walk t (c ++ [w]) ws
         | Some (File _) => inl ENOTDIR
         | None => inl ENOENT
         end.
Proof.
  intros Hws. assert (Hw : plain w) by (by inversion Hws).
  rewrite to_str_rel. unfold OS.locate.
  rewrite concat_not_abs, split_concat by done.
  destruct (concat_head w ws Hw) as (a & s & _ & _ & ->). cbn [PyStr.is_empty].
  cbn [OS.walk]. by rewrite step_plain.
Qed.

Lemma locate_rel_cwd (t : tree) (c : key) (w : string) (ws : list string) (k : key) :
  Forall plain (w :: ws) ->
  OS.locate t c (PathLib.to_str (rel (w :: ws))) = inr k -> OS.node_at t c = Some Dir.
Proof.
  intros Hws. rewrite locate_rel by done.
  destruct (OS.has_nul _); [done|]. by destruct (OS.node_at t c) as [[?|]|].
Qed.

Lemma Path_plain (s : string) : plain s -> PathLib.Path s = rel [s].
Proof. intros Hs. rewrite Path_segment by apply Hs. by rewrite keeps_plain. Qed.

Lemma div_plain (p : PathLib.path) (s : string) :
  plain s -> p </> s = PathLib.mk_path (PathLib.anchor p) (PathLib.parts p ++ [s]).
Proof. intros Hs. rewrite div_segment by apply Hs. by rewrite keeps_plain. Qed.

Lemma index_dir_plain (repo : string) :
  plain repo -> index_dir "indexes" repo = PathLib.to_str (rel ["indexes"; repo]).
Proof. intros Hr. unfold index_dir. by rewrite div_plain. Qed.

(** *** Looking at a part of the tree that has not changed *)

Lemma node_at_same (d : key) (t t' : tree) (k : key) :
  same_below d t t' -> d `prefix_of` k -> OS.node_at t' k = OS.node_at t k.
Proof. intros Hs Hk. destruct k as [|w k]; [done|]. by apply Hs. Qed.

Lemma walk_same (d : key) (t t' : tree) (cur : key) (ws : list string) :
  same_below d t t' -> d `prefix_of` cur -> Forall plain ws ->
  OS.walk t' cur ws = OS.walk t cur ws.
Proof.
  intros Hs Hcur Hws. revert cur Hcur.
  induction Hws as [|w ws Hw _ IH]; intros cur Hcur; cbn [OS.walk]; [done|].
  rewrite (node_at_same d t t') by done.
  destruct (OS.node_at t cur) as [[?|]|]; try done.
  rewrite step_plain by done. apply IH. by apply prefix_app_r.
Qed.

Lemma exists_same (t t' : tree) (c : key) (w : string) (ws : list string) :
  OS.node_at t c = Some Dir -> same_below (c ++ [w]) t t' -> Forall plain (w :: ws) ->
  OS.exists_ t' c (PathLib.to_str (rel (w :: ws))) = true ->
  OS.exists_ t c (PathLib.to_str (rel (w :: ws))) = true.
Proof.
  intros Hc Hs Hws. assert (Hws' : Forall plain ws) by (by inversion Hws).
  unfold OS.exists_, OS.stat. rewrite !locate_rel by done.
  destruct (OS.has_nul _); [done|]. rewrite Hc.
  destruct (OS.node_at t' c) as [[?|]|]; try done.
  rewrite (walk_same (c ++ [w]) t t') by done.
  destruct (OS.walk t (c ++ [w]) ws) as [?|k] eqn:Hk; [done|].
  apply walk_lex in Hk as Hk'. rewrite fold_step_plain in Hk' by done.
  rewrite (node_at_same (c ++ [w]) t t'); [done | done |].
  subst k. by apply prefix_app_r.
Qed.

(** An index that is complete in a tree was so before, when nothing at or
    below the directory of the indexes has changed. *)
Lemma index_complete_same (t t' : tree) (c : key) (repo : string) :
  OS.node_at t c = Some Dir -> same_below (c ++ ["indexes"]) t t' -> plain repo ->
  index_complete t' c "indexes" repo = true -> index_complete t c "indexes" repo = true.
Proof.
  intros Hc Hs Hr. unfold index_complete. cbv zeta.
  assert (Hf : forall f, plain f ->
    PathLib.Path "indexes" </> repo </> f = rel ["indexes"; repo; f]).
  { intros f Hpf. by rewrite !div_plain. }
  rewrite !Hf by (by repeat split).
  assert (Hex : forall f, plain f ->
    OS.exists_ t' c (PathLib.to_str (rel ["indexes"; repo; f])) = true ->
    OS.exists_ t c (PathLib.to_str (rel ["indexes"; repo; f])) = true).
  { intros f Hpf. apply exists_same; [done | done |].
    plain_parts. }
  intros [[H1 H2]%andb_prop H3]%andb_prop.
  rewrite !Hex; done || by repeat split.
Qed.

(** *** The calls that change the tree *)

Section KeepFacts.
Variable H : host.
Variable d : key.

Lemma mkdir_here_keeps (exist_ok : bool) (p : PathLib.path) (t : tree) r t' evs :
  ~ d `prefix_of` lex (cwd H) (PathLib.to_str p) ->
  mkdir_here H exist_ok p t = (r, t', evs) -> same_below d t t'.
Proof.
  intros Hk (_ & [-> | (_ & k & Hloc & _ & ->)])%mkdir_here_inv; [apply same_below_refl|].
  apply locate_lex in Hloc as ->. by apply same_below_insert.
Qed.

(** A directory that [mkdir_here] accepts is looked up from a working
    directory that exists. *)
Lemma mkdir_here_ret_cwd (exist_ok : bool) (w : string) (t : tree) t' evs :
  plain w ->
  mkdir_here H exist_ok (rel [w]) t = (Ret tt, t', evs) ->
  OS.node_at t (cwd H) = Some Dir.
Proof.
  intros Hw. unfold mkdir_here. intros Hrun.
  assert (Hws : Forall plain [w]) by (by constructor).
  apply try_except_inv in Hrun as [(a & Hm & _) | (e & t1 & ev1 & ev2 & Hm & Hh & ->)];
    rewrite os_mkdir_run in Hm;
    destruct (OS.mkdir t (cwd H) (PathLib.to_str (rel [w]))) as [e0|t0] eqn:Hmk;
    try discriminate; injection Hm as <- <- <-.
  - apply OS_mkdir_inv in Hmk as (k & Hloc & _). by eapply locate_rel_cwd.
  - destruct e0; cbn [os_error] in Hh; try discriminate;
      rewrite (bind_ret _ _ _ _ (path_is_dir_run H _ t)) in Hh;
      destruct exist_ok; cbn [andb] in Hh; try discriminate;
      destruct (OS.isdir t (cwd H) (PathLib.to_str (rel [w]))) eqn:Hd; try discriminate;
      apply isdir_locate in Hd as (k & Hloc & _); by eapply locate_rel_cwd.
Qed.

Lemma mkdir_parents_keeps (n : nat) (exist_ok : bool) (ws : list string)
    (t : tree) r t' evs :
  Forall plain ws -> ~ d `prefix_of` (cwd H ++ ws)%list ->
  mkdir_parents H n exist_ok (rel ws) t = (r, t', evs) -> same_below d t t'.
Proof.
  revert exist_ok ws t r t' evs.
  induction n as [|n IH]; intros exist_ok ws t r t' evs Hws Hk; cbn [mkdir_parents];
    intros Hrun;
    apply try_except_inv in Hrun as [(a & Hm & ->) | (e & t1 & ev1 & ev2 & Hm & Hh & ->)];
    rewrite os_mkdir_run in Hm;
    destruct (OS.mkdir t (cwd H) (PathLib.to_str (rel ws))) as [e0|t0] eqn:Hmk;
    try discriminate; injection Hm as <- <- <-.
  1,3: apply OS_mkdir_inv in Hmk as (k & Hloc & _ & ->);
       apply locate_lex in Hloc as ->; rewrite lex_rel by done;
       by apply same_below_insert.
  - destruct e0; cbn [os_error] in Hh;
      try (injection Hh as <- <- <-; apply same_below_refl);
      rewrite (bind_ret _ _ _ _ (path_is_dir_run H _ t)) in Hh;
      destruct (exist_ok && _); injection Hh as <- <- <-; apply same_below_refl.
  - destruct e0; cbn [os_error] in Hh;
      try (injection Hh as <- <- <-; apply same_below_refl).
    2-5: rewrite (bind_ret _ _ _ _ (path_is_dir_run H _ t)) in Hh;
      destruct (exist_ok && _); injection Hh as <- <- <-; apply same_below_refl.
    change (PathLib.parent (rel ws)) with (rel (removelast ws)) in Hh.
    assert (Hws' : Forall plain (removelast ws))
      by (eapply Forall_prefix; [apply removelast_prefix | done]).
    assert (Hk' : ~ d `prefix_of` (cwd H ++ removelast ws)%list).
    { intros Hp. apply Hk. etrans; [done|].
      apply prefix_app, removelast_prefix. }
    apply bind_inv in Hh as [(a & t2 & ev3 & ev4 & E & Hh & ->) | (e' & E & ->)].
    + apply IH in E; [|done..]. apply (same_below_trans _ _ t2); [done|].
      apply mkdir_here_keeps in Hh; [done|]. by rewrite lex_rel.
    + by apply IH in E.
Qed.

Lemma write_file_keeps (s content : string) (t t' : tree) :
  ~ d `prefix_of` lex (cwd H) s ->
  OS.write_file t (cwd H) s content = inr t' -> same_below d t t'.
Proof.
  intros Hk. unfold OS.write_file.
  destruct (OS.locate t (cwd H) s) as [?|k] eqn:Hloc; [done|].
  apply locate_lex in Hloc as ->.
  destruct (OS.node_at t _) as [[?|]|]; intros [= <-]; by apply same_below_insert.
Qed.

Lemma rmtree_keeps (s : string) (t : tree) r t' evs :
  (forall k', d `prefix_of` k' -> ~ lex (cwd H) s `prefix_of` k') ->
  rmtree H s t = (r, t', evs) ->
  same_below d t t' /\ (evs = [] \/ evs = [Removed s]).
Proof.
  intros Hap [(_ & -> & ->) | (k & Hloc & _ & -> & Hc)]%rmtree_inv.
  { split; [apply same_below_refl | by left]. }
  apply locate_lex in Hloc as ->.
  destruct (same_below_remove d _ t Hap) as [Hp Hd].
  split; [|by right]. by destruct Hc as [[_ ->] | [_ ->]].
Qed.

End KeepFacts.

(** *** The orchestrator and an index it has no reason to touch *)

Lemma str_app_inv_head (a x y : string) : a +:+ x = a +:+ y -> x = y.
Proof.
  induction a as [|c a IH]; [done|]. rewrite !str_app_cons. intros [= Heq]. by apply IH.
Qed.

Lemma prefix_extend (c : key) (w : string) (ws : key) :
  (c ++ [w])%list `prefix_of` (c ++ w :: ws)%list.
Proof. exists ws. by rewrite <- app_assoc. Qed.

Section FrameFacts.
Variable H : host.
Variable github_token : option string.
Variable repo : string.
Hypothesis Hrepo : plain repo.

Local Abbreviation d0 := (cwd H ++ ["indexes"])%list.
Local Abbreviation d := (cwd H ++ ["indexes"; repo])%list.
Local Abbreviation idx := (index_dir "indexes" repo).

Lemma index_dir_inj (x : string) : plain x -> index_dir "indexes" x = idx -> x = repo.
Proof.
  intros Hx. rewrite !index_dir_plain, !to_str_rel by done. cbn [String.concat].
  intros Heq. apply (str_app_inv_head "indexes") in Heq.
  by apply (str_app_inv_head "/") in Heq.
Qed.

Lemma my_repos_not_index (ws : list string) :
  PathLib.to_str (rel ("my_repos" :: ws)) <> idx.
Proof.
  rewrite index_dir_plain, !to_str_rel by done.
  destruct ws; cbn [String.concat]; discriminate.
Qed.

Lemma below_my_repos_apart (ws : list string) (k : key) :
  d `prefix_of` k -> ~ (cwd H ++ "my_repos" :: ws)%list `prefix_of` k.
Proof. intros Hk. by apply (apart_heads (cwd H) "indexes" "my_repos" [repo] ws k). Qed.

Lemma my_repos_outside (ws : list string) : ~ d0 `prefix_of` (cwd H ++ "my_repos" :: ws)%list.
Proof.
  apply (apart_heads (cwd H) "my_repos" "indexes" ws [] (cwd H ++ "my_repos" :: ws)); done.
Qed.

Lemma tools_keep_app (ev1 ev2 : list event) :
  tools_keep H d (ev1 ++ ev2) -> tools_keep H d ev1 /\ tools_keep H d ev2.
Proof. apply Forall_app. Qed.

(** [clone_repo] for plain names: it works below [my_repos] only. *)
Lemma clone_repo_keeps (url : string) (t : tree) r t' evs :
  (forall owner x, parse_github_url_groups url = Some (owner, x) -> plain owner /\ plain x) ->
  RepoIngestor.clone_repo H github_token url "my_repos" true t = (r, t', evs) ->
  tools_keep H d evs ->
  same_below d t t' /\ Removed idx ∉ evs.
Proof.
  intros Hnames. unfold RepoIngestor.clone_repo, RepoIngestor.parse_github_url.
  intros Hrun Htools.
  destruct (parse_github_url_groups url) as [[owner x]|] eqn:Hp.
  2: { injection Hrun as <- <- <-. split; [apply same_below_refl | apply not_elem_of_nil]. }
  destruct (Hnames owner x eq_refl) as [Ho Hx].
  rewrite (bind_ret _ _ _ (owner, x)) in Hrun by done.
  assert (Hpath : PathLib.Path "my_repos" </> owner </> x = rel ["my_repos"; owner; x])
    by (by rewrite !div_plain).
  rewrite Hpath in Hrun.
  change (PathLib.parent (rel ["my_repos"; owner; x])) with (rel ["my_repos"; owner]) in Hrun.
  assert (Hrm : forall r0 t0 ev0,
    (ex <- path_exists H (rel ["my_repos"; owner; x]);;
     (if ex then rmtree H (PathLib.to_str (rel ["my_repos"; owner; x])) else ret tt)) t
      = (r0, t0, ev0) ->
    same_below d t t0 /\ Removed idx ∉ ev0).
  { intros r0 t0 ev0 E.
    rewrite (bind_ret _ _ _ _ (path_exists_run H _ t)) in E.
    destruct (OS.exists_ t (cwd H) _).
    - apply (rmtree_keeps H d) in E as [Hs Hev].
      + split; [done|]. destruct Hev as [-> | ->]; [apply not_elem_of_nil|].
        intros [= Heq]%list_elem_of_singleton. symmetry in Heq.
        by apply my_repos_not_index in Heq.
      + intros k' Hk'. rewrite lex_rel by plain_parts. by apply below_my_repos_apart.
    - injection E as _ <- <-. split; [apply same_below_refl | apply not_elem_of_nil]. }
  apply bind_inv in Hrun as [(a & t1 & ev1 & ev2 & E & Hrun & ->) | (e & E & ->)].
  2: { by eapply Hrm. }
  destruct (Hrm _ _ _ E) as [Hs1 He1].
  apply tools_keep_app in Htools as [_ Htools].
  apply bind_inv in Hrun as [(a' & t2 & ev3 & ev4 & E' & Hrun & ->) | (e & E' & ->)].
  - pose proof (path_mkdir_grows _ _ _ _ _ _ _ _ E') as [-> _].
    apply (mkdir_parents_keeps H d) in E';
      [| plain_parts | intros Hp'; eapply my_repos_outside; etrans; [|exact Hp'];
                        apply prefix_extend].
    rewrite (bind_step _ _ _ _ _ _ (run_git_run H _ t2)) in Hrun.
    match type of Hrun with context [git H ?c t2] => set (cmd := c) in * end.
    assert (Hgit : same_below d t2 (git H cmd t2).2).
    { destruct (git H cmd t2) as [res t3] eqn:Hg. cbn [fst snd] in *.
      assert (ev4 = [GitClone cmd t2 res]) as ->.
      { destruct res as [rc out err|e]; cbn in Hrun;
          [destruct (negb (rc =? 0)%Z)|]; by injection Hrun as _ _ <-. }
      apply Forall_inv in Htools. cbn in Htools. by rewrite Hg in Htools. }
    assert (t' = (git H cmd t2).2 /\ ev4 = [GitClone cmd t2 (git H cmd t2).1]) as [-> ->].
    { destruct (git H cmd t2) as [res t3]. cbn [fst snd] in *.
      destruct res as [rc out err|e]; cbn in Hrun;
        [destruct (negb (rc =? 0)%Z)|]; by injection Hrun as _ <- <-. }
    split.
    + apply (same_below_trans _ _ t1); [done|]. by apply (same_below_trans _ _ t2).
    + rewrite !not_elem_of_app. split; [done|]. split; [apply not_elem_of_nil|].
      by intros [=]%list_elem_of_singleton.
  - pose proof (path_mkdir_grows _ _ _ _ _ _ _ _ E') as [-> _].
    apply (mkdir_parents_keeps H d) in E';
      [| plain_parts | intros Hp'; eapply my_repos_outside; etrans; [|exact Hp'];
                        apply prefix_extend].
    split; [by apply (same_below_trans _ _ t1)|].
    rewrite not_elem_of_app. split; [done | apply not_elem_of_nil].
Qed.

(** The invalidation of the index of [x]: the index of [repo] is another
    one, or it is not complete. *)
Lemma invalidate_keeps (x : string) (t : tree) r t2 ev0 :
  plain x ->
  (x = repo -> index_complete t (cwd H) "indexes" repo = false) ->
  (if index_complete t (cwd H) "indexes" x
   then RepoIngestor.delete_repo_index H x "indexes";; ret tt
   else ret tt) t = (r, t2, ev0) ->
  same_below d t t2 /\ (Removed idx ∉ ev0) /\ tools_keep H d ev0.
Proof.
  intros Hx Hinc E.
  destruct (index_complete t (cwd H) "indexes" x) eqn:Hc.
  2: { injection E as _ <- <-.
       split; [apply same_below_refl|]. split; [apply not_elem_of_nil | constructor]. }
  assert (Hne : x <> repo) by (intros ->; rewrite Hinc in Hc; done).
  assert (Hdel : forall r0 t0 ev,
    RepoIngestor.delete_repo_index H x "indexes" t = (r0, t0, ev) ->
    same_below d t t0 /\ (Removed idx ∉ ev) /\ tools_keep H d ev).
  { intros r0 t0 ev E0. unfold RepoIngestor.delete_repo_index in E0.
    rewrite (bind_ret _ _ _ _ (path_exists_run H _ t)) in E0.
    assert (Hp : PathLib.Path "indexes" </> x = rel ["indexes"; x]) by (by rewrite div_plain).
    rewrite Hp in E0.
    assert (Hrm : forall r1 t1 ev1,
      rmtree H (PathLib.to_str (rel ["indexes"; x])) t = (r1, t1, ev1) ->
      same_below d t t1 /\ (Removed idx ∉ ev1) /\ tools_keep H d ev1).
    { intros r1 t1 ev1 E1. apply (rmtree_keeps H d) in E1 as [Hs Hev].
      - split; [done|].
        destruct Hev as [-> | ->]; (split; [|repeat constructor]);
          [apply not_elem_of_nil|].
        intros [= Heq]%list_elem_of_singleton. apply Hne, index_dir_inj; [done|].
        by rewrite index_dir_plain.
      - intros k' Hk'. rewrite lex_rel by plain_parts.
        replace (cwd H ++ ["indexes"; x])%list with (d0 ++ x :: [])%list
          by (by rewrite <- app_assoc).
        apply (apart_heads d0 repo x [] [] k'); [done|].
        by rewrite <- app_assoc. }
    destruct (OS.exists_ t (cwd H) _).
    - apply bind_inv in E0 as [(a & t1 & ev1 & ev2 & E1 & E2 & ->) | (e & E1 & _)].
      + injection E2 as _ <- <-. rewrite app_nil_r. by eapply Hrm.
      + by eapply Hrm.
    - injection E0 as _ <- <-.
      split; [apply same_below_refl|]. split; [apply not_elem_of_nil | constructor]. }
  apply bind_inv in E as [(a & t1 & ev1 & ev2 & E1 & E2 & ->) | (e & E1 & _)].
  - injection E2 as _ <- <-. rewrite app_nil_r. by eapply Hdel.
  - by eapply Hdel.
Qed.

Lemma ingest_finish_keeps (owner x input : string) (is_url clone : bool) (t : tree)
    r t' evs :
  plain x ->
  (is_url = true ->
   forall o x', parse_github_url_groups input = Some (o, x') -> plain o /\ plain x') ->
  (x = repo -> index_complete t (cwd H) "indexes" repo = false) ->
  RepoIngestor.ingest_finish H github_token owner x input is_url "gitingest_outputs"
    clone "indexes" t = (r, t', evs) ->
  tools_keep H d evs ->
  same_below d t t' /\ Removed idx ∉ evs.
Proof.
  intros Hx Hnames Hinc Hrun Htools. unfold RepoIngestor.ingest_finish in Hrun.
  rewrite (bind_ret _ _ _ _ (repo_index_exists_run H x "indexes" t)) in Hrun.
  fold (output_name "gitingest_outputs" owner x (now H)) in Hrun.
  apply bind_inv in Hrun as [(a & t2 & ev0 & ev2 & E & Hrun & ->) | (e & E & ->)].
  2: { apply invalidate_keeps in E as (? & ? & _); done. }
  apply invalidate_keeps in E as (Hs0 & He0 & _); [|done..].
  apply tools_keep_app in Htools as [_ Htools].
  apply bind_inv in Hrun as [(d1 & t3 & ev3 & ev4 & E' & Hrun & ->) | (e & E' & ->)].
  2: { apply run_gitingest_inv in E' as (? & ? & ? & ? & _ & _ & _ & ? & _); [done|].
       apply output_name_not_empty. }
  apply run_gitingest_inv in E' as (cmd & token & res & d2 & _ & Hres & -> & _ & _);
    [|apply output_name_not_empty].
  apply tools_keep_app in Htools as [Htool Htools].
  apply Forall_inv in Htool. cbn in Htool. rewrite Hres in Htool. cbn [snd] in Htool.
  assert (Hs3 : same_below d t t3) by (by apply (same_below_trans _ _ t2)).
  assert (Hno : forall ev, Removed idx ∉ ev ->
            Removed idx ∉ (ev0 ++ [Gitingest cmd token t2 res] ++ ev)%list).
  { intros ev Hev. rewrite !not_elem_of_app. split; [done|]. split; [|done].
    by intros [=]%list_elem_of_singleton. }
  destruct (negb (get_truthy d1 "success")).
  { injection Hrun as _ <- <-. split; [done|]. apply Hno, not_elem_of_nil. }
  rewrite (bind_ret _ _ _ _ (os_path_isdir_run H input t3)) in Hrun.
  destruct (clone && is_url && negb (OS.isdir t3 (cwd H) input)) eqn:Hc.
  2: { injection Hrun as _ <- <-. split; [done|]. apply Hno, not_elem_of_nil. }
  apply andb_prop in Hc as [[_ ->]%andb_prop _].
  assert (Hcl : forall rc t4 evc,
    RepoIngestor.clone_repo H github_token input "my_repos" true t3 = (rc, t4, evc) ->
    tools_keep H d evc -> same_below d t t4 /\ Removed idx ∉ evc).
  { intros rc t4 evc Ec Ht. apply clone_repo_keeps in Ec as [? ?]; [|by apply Hnames|done].
    split; [by apply (same_below_trans _ _ t3) | done]. }
  apply try_except_inv in Hrun
    as [(a' & Hm & _) | (e & t1 & ev1 & ev2 & Hm & Hh & ->)].
  - apply bind_inv in Hm as [(p & t4 & ev5 & ev6 & Ec & Hm & ->) | (e & Ec & ?)]; [|done].
    injection Hm as _ <- <-. rewrite app_nil_r in *.
    apply Hcl in Ec as [? ?]; [|done]. split; [done | by apply Hno].
  - apply bind_inv in Hm as [(p & t4 & ev5 & ev6 & Ec & Hm & ?) | (e' & Ec & _)]; [done|].
    injection Hh as _ <- <-. rewrite app_nil_r in *.
    apply Hcl in Ec as [? ?]; [|done]. split; [done | by apply Hno].
Qed.

End FrameFacts.

Section FrameTheorem.
Variable H : host.
Variable github_token : option string.

Local Abbreviation normalize := (RepoIngestor._normalize_local_path H).
Local Abbreviation is_url := RepoIngestor._is_probable_git_url.

(** X15.  What [ingest_repo] never does to an index it has no reason to
    touch.  Take the default directories, an input whose owner and
    repository are names of directory entries (neither [.] nor [..]), and
    a run in which the external programs leave [indexes/<repo>] alone, for
    some name [repo], that of the repository ingested or any other.  If
    the index of [repo] is incomplete when the run starts, then every
    entry at or below [indexes/<repo>] is the same when it ends, however
    it ends, and the removal of that directory is not in the journal. *)
Theorem ingest_repo_keeps_incomplete_index (repo_input : string) (clone : bool)
    (t : tree) r t' evs (repo : string) :
  RepoIngestor.ingest_repo H github_token repo_input "gitingest_outputs" clone "indexes" t
    = (r, t', evs) ->
  plain_names H (PyStr.strip repo_input) ->
  plain repo ->
  tools_keep H (cwd H ++ ["indexes"; repo]) evs ->
  index_complete t (cwd H) "indexes" repo = false ->
  same_below (cwd H ++ ["indexes"; repo]) t t'
  /\ Removed (index_dir "indexes" repo) ∉ evs.
Proof.
  intros Hrun Hnames Hrepo Htools Hinc.
  set (d0 := (cwd H ++ ["indexes"])%list).
  set (d := (cwd H ++ ["indexes"; repo])%list) in *.
  assert (Hd : d0 `prefix_of` d) by apply prefix_extend.
  assert (Hout : ~ d0 `prefix_of`
                   lex (cwd H) (PathLib.to_str (PathLib.Path "gitingest_outputs"))).
  { change (PathLib.Path "gitingest_outputs") with (rel ["gitingest_outputs"]).
    rewrite lex_rel by plain_parts.
    apply (apart_heads (cwd H) "gitingest_outputs" "indexes" [] []
             (cwd H ++ ["gitingest_outputs"])); done. }
  unfold RepoIngestor.ingest_repo in Hrun.
  apply bind_inv in Hrun as [(a & t1 & ev1 & ev2 & E & Hrun & ->) | (e & E & ->)].
  2: { pose proof (path_mkdir_grows _ _ _ _ _ _ _ _ E) as [-> _].
       apply (mkdir_here_keeps H d0) in E; [|done].
       split; [by apply (same_below_weaken d0) | apply not_elem_of_nil]. }
  pose proof (path_mkdir_grows _ _ _ _ _ _ _ _ E) as [-> _]. destruct a.
  assert (Hcwd : OS.node_at t (cwd H) = Some Dir).
  { apply (mkdir_here_ret_cwd H true "gitingest_outputs" t t1 []); [by repeat split | done]. }
  apply (mkdir_here_keeps H d0) in E; [|done].
  rewrite app_nil_l in *.
  (* the index of [repo] is still incomplete wherever nothing below
     [indexes] has changed *)
  assert (Hstill : forall t2, same_below d0 t t2 ->
            index_complete t2 (cwd H) "indexes" repo = false).
  { intros t2 Hs. destruct (index_complete t2 (cwd H) "indexes" repo) eqn:Hc; [|done].
    apply (index_complete_same t t2) in Hc; [congruence | done..]. }
  destruct (PyStr.is_empty repo_input || PyStr.is_empty (PyStr.strip repo_input)).
  { injection Hrun as _ <- <-.
    split; [by apply (same_below_weaken d0) | apply not_elem_of_nil]. }
  cbv zeta in Hrun.
  destruct (is_url (PyStr.strip repo_input)) eqn:Hu; cbn [negb] in Hrun.
  - (* a remote reference *)
    unfold RepoIngestor.parse_github_url in Hrun.
    destruct (parse_github_url_groups (PyStr.strip repo_input)) as [[owner x]|] eqn:Hp.
    2: { injection Hrun as _ <- <-.
         split; [by apply (same_below_weaken d0) | apply not_elem_of_nil]. }
    rewrite (bind_ret _ _ _ (owner, x)) in Hrun by done.
    assert (Hox : plain owner /\ plain x).
    { apply Hnames. unfold derived_names. by rewrite Hu. }
    apply (ingest_finish_keeps H github_token repo Hrepo) in Hrun as [Hs He].
    + split; [|done]. apply (same_below_trans _ _ t1); [|done].
      by apply (same_below_weaken d0).
    + apply Hox.
    + intros _ o x' Hp'. rewrite Hp in Hp'. by injection Hp' as <- <-.
    + intros _. by apply Hstill.
    + done.
  - (* a local path *)
    unfold RepoIngestor.ingest_local in Hrun. cbv zeta in Hrun.
    rewrite (bind_ret _ _ _ _ (os_path_isdir_run H _ t1)) in Hrun.
    destruct (OS.isdir t1 (cwd H) (normalize (PyStr.strip repo_input))); cbn [negb] in Hrun.
    2: { injection Hrun as _ <- <-.
         split; [by apply (same_below_weaken d0) | apply not_elem_of_nil]. }
    set (x := PathLib.name (path_resolve H (PathLib.Path (normalize (PyStr.strip repo_input)))))
      in *.
    assert (Hx : plain x).
    { apply (Hnames "Local" x). unfold derived_names. by rewrite Hu. }
    assert (Hdir : PathLib.Path "my_repos" </> "Local" </> x = rel ["my_repos"; "Local"; x]).
    { rewrite !div_plain; first [done | by repeat split]. }
    rewrite Hdir in Hrun.
    assert (Hfile : rel ["my_repos"; "Local"; x] </> "repopath.txt"
                    = rel ["my_repos"; "Local"; x; "repopath.txt"]).
    { rewrite div_plain; first [done | by repeat split]. }
    rewrite Hfile in Hrun.
    assert (Hlocal : plain "Local") by (by repeat split).
    assert (Hmarker : plain "repopath.txt") by (by repeat split).
    apply bind_inv in Hrun as [(a & t2 & ev3 & ev4 & E2 & Hrun & ->) | (e & E2 & ->)].
    2: { pose proof (path_mkdir_grows _ _ _ _ _ _ _ _ E2) as [-> _].
         apply (mkdir_parents_keeps H d0) in E2;
           [| plain_parts | apply (my_repos_outside H ["Local"; x])].
         split; [|apply not_elem_of_nil].
         apply (same_below_weaken d0); [done|]. by apply (same_below_trans _ _ t1). }
    pose proof (path_mkdir_grows _ _ _ _ _ _ _ _ E2) as [-> _].
    apply (mkdir_parents_keeps H d0) in E2;
      [| plain_parts | apply (my_repos_outside H ["Local"; x])].
    assert (Hs2 : same_below d0 t t2) by (by apply (same_below_trans _ _ t1)).
    rewrite app_nil_l in *.
    apply bind_inv in Hrun as [(a' & t3 & ev5 & ev6 & E3 & Hrun & ->) | (e & E3 & ->)];
      rewrite write_text_run in E3;
      destruct (OS.write_file t2 (cwd H) _ _) as [e0|t3'] eqn:Hw; try discriminate;
      injection E3 as <- <- <-.
    2: { split; [by apply (same_below_weaken d0) | apply not_elem_of_nil]. }
    apply (write_file_keeps H d0) in Hw.
    2: { rewrite lex_rel by plain_parts.
         apply (my_repos_outside H ["Local"; x; "repopath.txt"]). }
    assert (Hs3 : same_below d0 t t3') by (by apply (same_below_trans _ _ t2)).
    apply tools_keep_app in Htools as [_ Htools].
    apply (ingest_finish_keeps H github_token repo Hrepo) in Hrun as [Hs He].
    + split.
      * apply (same_below_trans _ _ t3'); [|done]. by apply (same_below_weaken d0).
      * rewrite not_elem_of_app. split; [|done]. by intros [=]%list_elem_of_singleton.
    + done.
    + done.
    + intros _. by apply Hstill.
    + done.
Qed.

End FrameTheorem.

(* ===================================================================== *)
(** * Further properties of the code *)
(* ===================================================================== *)

(** ** [parse_github_url]: what it accepts and what it rejects *)

Lemma startswith_strip_prefix (t s : string) :
  PyStr.startswith t s = match strip_prefix t s with Some _ => true | None => false end.
Proof.
  unfold PyStr.startswith. revert s.
  induction t as [|a t IH]; intros s; [by destruct s|].
  destruct s as [|b s]; [done|]. cbn [String.prefix strip_prefix].
  destruct (ascii_dec a b) as [->|Hne].
  - by rewrite Ascii.eqb_refl.
  - by destruct (Ascii.eqb_spec a b).
Qed.

Lemma strip_prefix_split (a b s : string) :
  strip_prefix (a +:+ b) s =
  match strip_prefix a s with
  | Some s' => strip_prefix b s'
  | None => None
  end.
Proof.
  revert s. induction a as [|x a IH]; intros s; [done|].
  rewrite str_app_cons. cbn [strip_prefix].
  destruct s as [|y s]; [by destruct b|]. by destruct (Ascii.eqb x y).
Qed.

Lemma contains_here (t s : string) :
  PyStr.startswith t s = true -> PyStr.contains t s = true.
Proof. unfold PyStr.startswith. intros Hp. destruct s; cbn [PyStr.contains]; by rewrite Hp. Qed.

Lemma contains_app (t a s : string) :
  PyStr.contains t s = true -> PyStr.contains t (a +:+ s) = true.
Proof.
  intros Hs. induction a as [|c a IH]; [done|].
  rewrite str_app_cons. cbn [PyStr.contains]. rewrite IH. apply orb_true_r.
Qed.

(** Where [re.search] finds its match. *)
Lemma search_from_suffix (r : regex) (n : nat) (s : string) (m : groups) :
  search_from r n s = Some m ->
  exists before s', s = before +:+ s' /\ run r n s' ∅ accept = Some m.
Proof.
  induction s as [|c s IH]; cbn [search_from].
  - destruct (run r n EmptyString ∅ accept) eqn:Hr; [|done].
    intros [= ->]. by exists EmptyString, EmptyString.
  - destruct (run r n (String c s) ∅ accept) eqn:Hr.
    + intros [= ->]. by exists EmptyString, (String c s).
    + intros (before & s' & -> & Hs')%IH. by exists (String c before), s'.
Qed.

(** The end of a subject that [$] accepts. *)
Lemma at_eol_cases (s : string) :
  at_eol s = true -> s = EmptyString \/ s = String PyStr.LF EmptyString.
Proof.
  destruct s as [|c [|d s]]; cbn; intros Hs; try done; [by left|].
  right. by apply Ascii.eqb_eq in Hs as ->.
Qed.

(** A match of the pattern, read backwards: the host name, a colon or a
    slash, the owner, a slash, the repository, and then nothing, [.git], a
    line feed or both. *)
Lemma run_github_url_shape (n : nat) (s : string) (m : groups) :
  run github_url_re n s ∅ accept = Some m ->
  exists sep owner repo after,
    s = "github.com" +:+ String sep (owner +:+ "/" +:+ repo +:+ after) /\
    (sep = ":"%char \/ sep = "/"%char) /\
    segment owner /\ segment repo /\
    (after = EmptyString \/ after = ".git" \/
     after = String PyStr.LF EmptyString \/ after = ".git" +:+ String PyStr.LF EmptyString) /\
    m = <["repo" := repo]> (<["owner" := owner]> ∅).
Proof.
  unfold github_url_re. rewrite run_cat. cbn [run].
  destruct (strip_prefix "github.com" s) as [s1|] eqn:Hs; [|done].
  apply strip_prefix_Some in Hs as ->.
  destruct s1 as [|c1 s2]; [done|].
  destruct (existsb (Ascii.eqb c1) [":"%char; "/"%char]) eqn:Hc1; [|done].
  assert (Hsep : c1 = ":"%char \/ c1 = "/"%char).
  { cbn in Hc1. destruct (Ascii.eqb_spec c1 ":"); [by left|].
    destruct (Ascii.eqb_spec c1 "/"); [by right | done]. }
  destruct s2 as [|oc s2]; [done|]. cbn [plus].
  destruct (item_ok (NotIn ["/"%char]) oc) eqn:Hoc; [|done].
  intros (a & b & -> & Ha & Hb)%star_greedy_inv.
  rewrite <- str_app_cons, str_take_app in Hb.
  destruct (strip_prefix "/" b) as [b1|] eqn:Hb1; [|done].
  apply strip_prefix_Some in Hb1 as ->.
  destruct b1 as [|rc b1]; [done|]. cbn [plus] in Hb.
  destruct (item_ok (NotIn ["/"%char]) rc) eqn:Hrc; [|done].
  apply star_lazy_inv in Hb as (a' & b' & -> & Ha' & Hb').
  rewrite <- str_app_cons, str_take_app in Hb'.
  exists c1, (String oc a), (String rc a'), b'.
  assert (Hshape : (b' = EmptyString \/ b' = ".git" \/
            b' = String PyStr.LF EmptyString \/ b' = ".git" +:+ String PyStr.LF EmptyString) /\
          m = <["repo":=String rc a']> (<["owner":=String oc a]> ∅)).
  { unfold accept in Hb'.
    destruct (strip_prefix ".git" b') as [r|] eqn:Hr.
    - apply strip_prefix_Some in Hr as ->.
      destruct (at_eol r) eqn:Hr.
      + split; [|congruence]. destruct (at_eol_cases _ Hr) as [-> | ->]; auto.
      + destruct (at_eol (".git" +:+ r)) eqn:Hr'; [|done].
        by destruct (at_eol_cases _ Hr').
    - destruct (at_eol b') eqn:Hr'; [|done].
      split; [|congruence]. destruct (at_eol_cases _ Hr') as [-> | ->]; auto. }
  destruct Hshape as [Hafter ->].
  split; [by rewrite !str_app_cons|]. split; [done|]. split; [|split; [|done]].
  - split; [done|]. cbn [all_chars].
    by rewrite <- item_not_slash, Hoc, (all_chars_ext _ _ _ (fun c => eq_sym (item_not_slash c))).
  - split; [done|]. cbn [all_chars].
    by rewrite <- item_not_slash, Hrc, (all_chars_ext _ _ _ (fun c => eq_sym (item_not_slash c))).
Qed.

(** X1.  Whenever [parse_github_url] returns, the reference has the
    shape [...github.com<sep><owner>/<repo><after>]: the separator is a
    colon or a slash, the owner and the repository are the two names
    returned, neither is empty nor contains a slash, and after the
    repository comes nothing, [.git], a line feed, or [.git] and a line
    feed.  The tree is not touched and nothing is emitted. *)
Theorem parse_github_url_shape (url owner repo : string) (t t' : tree) evs :
  RepoIngestor.parse_github_url url t = (Ret (owner, repo), t', evs) ->
  t' = t /\ evs = [] /\ segment owner /\ segment repo /\
  exists before sep after,
    url = before +:+ "github.com" +:+ String sep (owner +:+ "/" +:+ repo +:+ after) /\
    (sep = ":"%char \/ sep = "/"%char) /\
    (after = EmptyString \/ after = ".git" \/
     after = String PyStr.LF EmptyString \/ after = ".git" +:+ String PyStr.LF EmptyString).
Proof.
  unfold RepoIngestor.parse_github_url, parse_github_url_groups, search.
  destruct (search_from github_url_re (String.length url) url) as [m|] eqn:Hm; [|done].
  apply search_from_suffix in Hm as (before & s' & -> & Hm).
  apply run_github_url_shape in Hm as (sep & o & r & after & -> & Hsep & Ho & Hr & Hafter & ->).
  destruct (groups_owner_repo o r) as [-> ->]. intros [= <- <- <- <-].
  split; [done|]. split; [done|]. split; [done|]. split; [done|].
  by exists before, sep, after.
Qed.

Lemma parse_github_url_shape_witness :
  exists before sep after,
    "https://github.com/octo/hello.git"
      = before +:+ "github.com" +:+ String sep ("octo" +:+ "/" +:+ "hello" +:+ after) /\
    (sep = ":"%char \/ sep = "/"%char).
Proof.
  destruct (parse_github_url_shape "https://github.com/octo/hello.git" "octo" "hello"
              Demo.workdir Demo.workdir [] eq_refl)
    as (_ & _ & _ & _ & before & sep & after & Hurl & Hsep & _).
  exists before, sep, after. split; [exact Hurl | exact Hsep].
Defined.

Lemma search_from_none (r : regex) (n : nat) (s : string) :
  (forall before s', s = before +:+ s' -> run r n s' ∅ accept = None) ->
  search_from r n s = None.
Proof.
  induction s as [|c s IH]; intros Hno; cbn [search_from].
  - by rewrite (Hno EmptyString EmptyString).
  - rewrite (Hno EmptyString (String c s)) by done. apply IH.
    intros before s' ->. by apply (Hno (String c before) s').
Qed.

Lemma github_url_needs_host (n : nat) (s : string) :
  PyStr.startswith "github.com" s = false -> run github_url_re n s ∅ accept = None.
Proof.
  rewrite startswith_strip_prefix. unfold github_url_re. rewrite run_cat. cbn [run].
  by destruct (strip_prefix "github.com" s).
Qed.

Lemma parse_github_url_other_host_run (url : string) (t : tree) :
  PyStr.contains "github.com" url = false ->
  RepoIngestor.parse_github_url url t
  = (Raise (ValueError ("Invalid GitHub URL: " +:+ url)), t, []).
Proof.
  intros Hc. unfold RepoIngestor.parse_github_url, parse_github_url_groups, search.
  rewrite search_from_none; [done|].
  intros before s' ->. apply github_url_needs_host.
  destruct (PyStr.startswith "github.com" s') eqn:Hs; [|done].
  by rewrite (contains_app _ before s' (contains_here _ _ Hs)) in Hc.
Qed.

(** X2.  A reference in which [github.com] does not occur is rejected:
    [parse_github_url] raises [ValueError] with the message
    "Invalid GitHub URL: " followed by the reference, and touches
    nothing. *)
Theorem parse_github_url_other_host (url : string) (t : tree) :
  PyStr.contains "github.com" url = false ->
  RepoIngestor.parse_github_url url t
  = (Raise (ValueError ("Invalid GitHub URL: " +:+ url)), t, []).
Proof. apply parse_github_url_other_host_run. Qed.

Lemma parse_github_url_other_host_witness :
  RepoIngestor.parse_github_url "https://gitlab.com/octo/hello.git" Demo.workdir
  = (Raise (ValueError "Invalid GitHub URL: https://gitlab.com/octo/hello.git"),
     Demo.workdir, []).
Proof.
  apply (parse_github_url_other_host "https://gitlab.com/octo/hello.git" Demo.workdir).
  reflexivity.
Defined.

(** The match of the pattern at the host name, for either separator. *)
Lemma run_github_url_sep (n : nat) (sep : ascii) (owner seg : string) :
  existsb (Ascii.eqb sep) [":"%char; "/"%char] = true ->
  segment owner -> segment seg -> last_char seg <> Some PyStr.LF ->
  run github_url_re n ("github.com" +:+ String sep (owner +:+ "/" +:+ seg)) ∅ accept
  = Some (<["repo" := chop_git seg]> (<["owner" := owner]> ∅)).
Proof.
  intros Hsep [Ho1 Ho2] [Hs1 Hs2] Hlf.
  destruct owner as [|oc owner]; [done|].
  destruct seg as [|sc seg]; [done|].
  cbn [all_chars] in Ho2, Hs2.
  apply andb_prop in Ho2 as [Hoc Ho2]. apply andb_prop in Hs2 as [Hsc Hs2].
  destruct (closes_after_name sc seg Hlf) as (pre & suf & Hchop & -> & Hsuf & Hfirst).
  rewrite str_all_chars_app in Hs2. apply andb_prop in Hs2 as [Hpre _].
  unfold github_url_re.
  rewrite run_cat, run_lit, run_cat, run_in by done.
  rewrite run_cat, str_app_cons, run_group_plus by by rewrite item_not_slash.
  change ("/" +:+ ?x) with (String "/" x).
  apply star_greedy_stop;
    [by rewrite (all_chars_ext _ _ _ item_not_slash) | by rewrite item_not_slash |].
  rewrite <- (str_app_cons oc owner), str_take_app.
  change (String "/" ?x) with ("/" +:+ x).
  rewrite run_cat, run_lit, run_cat, run_group_plus by by rewrite item_not_slash.
  apply star_lazy_first.
  - by rewrite (all_chars_ext _ _ _ item_not_slash).
  - intros a b Hab Hb. by rewrite run_tail, (Hfirst a b Hab Hb).
  - rewrite run_tail, Hsuf, Hchop.
    by rewrite <- (str_app_cons sc pre), str_take_app.
Qed.

Lemma parse_github_scp (owner seg : string) :
  segment owner -> segment seg -> last_char seg <> Some PyStr.LF ->
  parse_github_url_groups ("git@github.com:" +:+ owner +:+ "/" +:+ seg)
  = Some (owner, chop_git seg).
Proof.
  intros Ho Hs Hlf. unfold parse_github_url_groups, search.
  generalize (String.length ("git@github.com:" +:+ owner +:+ "/" +:+ seg)) as n.
  intros n.
  change ("git@github.com:" +:+ owner +:+ "/" +:+ seg) with
    (String "g" (String "i" (String "t" (String "@"
      ("github.com" +:+ String ":" (owner +:+ "/" +:+ seg)))))).
  rewrite search_from_skip by reflexivity.
  rewrite !search_from_skip by by apply github_url_not_here.
  rewrite (search_from_here _ _ _ _ (run_github_url_sep n ":" owner seg eq_refl Ho Hs Hlf)).
  destruct (groups_owner_repo owner (chop_git seg)) as [-> ->]. done.
Qed.

(** X3.  The SSH spelling is accepted as well: on
    [git@github.com:<owner>/<repo>.git], for an owner and a repository
    that are not empty and have no slash, [parse_github_url] returns that
    owner and that repository; without the [.git] it returns the owner and
    the repository with a final [.git] taken off, provided the repository
    does not end in a line feed. *)
Theorem parse_github_url_scp (owner repo : string) (t : tree) :
  segment owner -> segment repo ->
  RepoIngestor.parse_github_url ("git@github.com:" +:+ owner +:+ "/" +:+ repo +:+ ".git") t
    = (Ret (owner, repo), t, [])
  /\ (last_char repo <> Some PyStr.LF ->
      RepoIngestor.parse_github_url ("git@github.com:" +:+ owner +:+ "/" +:+ repo) t
        = (Ret (owner, chop_git repo), t, [])).
Proof.
  intros Ho Hr. unfold RepoIngestor.parse_github_url. split.
  - rewrite (parse_github_scp owner (repo +:+ ".git")); [| done | |].
    + rewrite chop_git_app by apply Hr. done.
    + destruct Hr as [Hne Hr]. split.
      * destruct repo; [done|]. by rewrite str_app_cons.
      * by rewrite str_all_chars_app, Hr.
    + destruct Hr as [Hne _]. change ".git" with (String "." "git").
      by rewrite last_char_app_cons.
  - intros Hlf. by rewrite (parse_github_scp owner repo).
Qed.

Lemma parse_github_url_scp_witness :
  RepoIngestor.parse_github_url "git@github.com:octo/hello.git" Demo.workdir
    = (Ret ("octo", "hello"), Demo.workdir, [])
  /\ RepoIngestor.parse_github_url "git@github.com:octo/hello" Demo.workdir
    = (Ret ("octo", "hello"), Demo.workdir, []).
Proof.
  assert (Ho : segment "octo") by (by split).
  assert (Hr : segment "hello") by (by split).
  destruct (parse_github_url_scp "octo" "hello" Demo.workdir Ho Hr) as [H1 H2].
  split; [exact H1 | apply H2; discriminate].
Defined.

(** ** [_is_probable_git_url] *)

(** X4.  The test for a remote reference, spelled out: after white space
    is stripped from both ends, the text starts with [http://], [https://],
    [git@] or [ssh://], or [github.com] occurs somewhere in it. *)
Theorem is_probable_git_url_spec (s : string) :
  RepoIngestor._is_probable_git_url s =
  PyStr.startswith "http://" (PyStr.strip s)
  || PyStr.startswith "https://" (PyStr.strip s)
  || PyStr.startswith "git@" (PyStr.strip s)
  || PyStr.startswith "ssh://" (PyStr.strip s)
  || PyStr.contains "github.com" (PyStr.strip s).
Proof.
  unfold RepoIngestor._is_probable_git_url. f_equal.
  generalize (PyStr.strip s) as x. intros x.
  rewrite !startswith_strip_prefix.
  change "http://" with ("http" +:+ "://").
  change "https://" with ("http" +:+ ("s" +:+ "://")).
  rewrite !strip_prefix_split.
  unfold rematch, scheme_re. cbn [run]. rewrite Nat.eqb_refl.
  unfold accept.
  destruct (strip_prefix "http" x) as [x1|];
    [rewrite strip_prefix_split;
     destruct (strip_prefix "s" x1) as [x2|];
       [destruct (strip_prefix "://" x2)|]; destruct (strip_prefix "://" x1)|];
    destruct (strip_prefix "git@" x); destruct (strip_prefix "ssh://" x);
    done.
Qed.

(** ** [run_gitingest] *)

(** The text of an [OSError] ends with the [repr] of the file name: the
    name between single quotes when it has nothing to escape, and between
    double quotes when it has a single quote and no double quote. *)
Lemma repr_chars_plain (s : string) :
  all_chars (fun c => PyStr.is_printable c && negb (Ascii.eqb c "'")
                      && negb (Ascii.eqb c "\")) s = true ->
  PyStr.repr_chars "'" s = s /\ PyStr.contains "'" s = false.
Proof.
  induction s as [|c s IH]; [done|]. cbn [all_chars].
  intros [[[Hp Hq%negb_true_iff]%andb_true_iff Hb%negb_true_iff]%andb_true_iff
          Hs]%andb_true_iff.
  destruct (IH Hs) as [IH1 IH2]. split.
  - cbn [PyStr.repr_chars]. rewrite IH1. unfold PyStr.repr_char. rewrite Hq, Hb, Hp.
    unfold PyStr.is_printable in Hp. cbv zeta in *.
    destruct (Nat.eqb_spec (nat_of_ascii c) 9) as [E|_];
      [rewrite E in Hp; discriminate Hp|].
    destruct (Nat.eqb_spec (nat_of_ascii c) 10) as [E|_];
      [rewrite E in Hp; discriminate Hp|].
    destruct (Nat.eqb_spec (nat_of_ascii c) 13) as [E|_];
      [rewrite E in Hp; discriminate Hp|].
    done.
  - cbn [PyStr.contains String.prefix]. rewrite IH2.
    destruct (ascii_dec "'" c) as [<-|_]; [discriminate Hq | done].
Qed.

Lemma exn_str_plain_name (e : errno) (p : string) :
  e <> ENUL ->
  all_chars (fun c => PyStr.is_printable c && negb (Ascii.eqb c "'")
                      && negb (Ascii.eqb c "\")) p = true ->
  exn_str (OSError e p) = strerror e +:+ ": '" +:+ p +:+ "'".
Proof.
  intros He Hp. destruct (repr_chars_plain p Hp) as [Hr Hc].
  assert (exn_str (OSError e p) = strerror e +:+ ": " +:+ PyStr.repr p) as ->
    by (by destruct e).
  unfold PyStr.repr. cbv zeta. rewrite Hc. cbn [andb]. by rewrite Hr.
Qed.

Lemma exn_str_quoted_name :
  exn_str (OSError ENOENT "it's.txt")
  = "[Errno 2] No such file or directory: "
    +:+ String PyStr.dquote ("it's.txt" +:+ String PyStr.dquote EmptyString).
Proof. reflexivity. Qed.

Section ToolRunFacts.
Variable H : host.
Variable github_token : option string.

Lemma os_remove_run (s : string) (t : tree) :
  os_remove H s t =
  match OS.remove t (cwd H) s with
  | inr t' => (Ret tt, t', [])
  | inl e => (Raise (os_error e s), t, [])
  end.
Proof. unfold os_remove, bind, get_tree, lift_os. by destruct (OS.remove t (cwd H) s). Qed.

Lemma create_file_run (s : string) (t : tree) :
  create_file H s t =
  match OS.write_file t (cwd H) s EmptyString with
  | inr t' => (Ret tt, t', [])
  | inl e => (Raise (os_error e s), t, [])
  end.
Proof.
  unfold create_file, bind, get_tree, lift_os.
  by destruct (OS.write_file t (cwd H) s EmptyString).
Qed.

(** Whether the token is handed to the tool. *)
Local Abbreviation hands_over t repo_input :=
  (truthy github_token && negb (OS.isdir t (cwd H) repo_input)).

(** The body of [run_gitingest] under its [except]: one call of the tool,
    and a record whatever happens. *)
Lemma guarded_body (repo_input output_file : string) (t : tree) :
  let env := if hands_over t repo_input
             then Some (RepoIngestor.token_text github_token) else None in
  let cmd := gitingest_cmd repo_input output_file env in
  exists d,
    try_except (RepoIngestor.run_gitingest_body H github_token repo_input output_file)
               (RepoIngestor.failure repo_input) t
    = (Ret d, (gitingest H cmd env t).2, [Gitingest cmd env t (gitingest H cmd env t).1]) /\
    match (gitingest H cmd env t).1,
          OS.read_file (gitingest H cmd env t).2 (cwd H) output_file with
    | Exited 0 _ _, inr _ => d = ok_record repo_input
    | Exited 0 _ _, inl e => d = failed_record repo_input (exn_str (os_error e output_file))
    | Exited _ _ err, _ => d = failed_record repo_input (PyStr.strip err)
    | Failed e, _ => d = failed_record repo_input (exn_str e)
    end.
Proof.
  cbv zeta. unfold try_except, RepoIngestor.run_gitingest_body.
  rewrite (bind_ret _ _ _ _ (os_path_isdir_run H repo_input t)). cbv zeta.
  assert (Hcmd :
    (["gitingest"; repo_input; "--output"; output_file]
       ++ (if hands_over t repo_input
           then ["--token"; RepoIngestor.token_text github_token] else []))%list
    = gitingest_cmd repo_input output_file
        (if hands_over t repo_input
         then Some (RepoIngestor.token_text github_token) else None)).
  { by destruct (hands_over t repo_input). }
  rewrite Hcmd.
  set (env := if hands_over t repo_input
              then Some (RepoIngestor.token_text github_token) else None).
  set (cmd := gitingest_cmd repo_input output_file env).
  rewrite (bind_step _ _ _ _ _ _ (run_gitingest_tool_run H cmd env t)).
  destruct (gitingest H cmd env t) as [res t2]. cbn [fst snd].
  destruct res as [rc out err|e]; cbn [ret raise RepoIngestor.failure].
  - destruct (rc =? 0)%Z eqn:Hrc; cbn [negb].
    + apply Z.eqb_eq in Hrc as ->.
      pose proof (read_text_run H output_file t2) as Hrd.
      destruct (OS.read_file t2 (cwd H) output_file) as [e|c].
      * rewrite (bind_raise _ _ _ _ _ _ Hrd). cbn. by eexists.
      * rewrite (bind_ret _ _ _ _ Hrd). cbn. by eexists.
    + cbn. eexists. split; [done|].
      by destruct rc.
  - cbn. by eexists.
Qed.

(** The [finally] never raises. *)
Lemma cleanup_ret (temp_file : option string) (t : tree) :
  exists t', RepoIngestor.cleanup H temp_file t = (Ret tt, t', []).
Proof.
  unfold RepoIngestor.cleanup. destruct temp_file as [f|]; [|by eexists].
  destruct (PyStr.is_empty f); [by eexists|].
  rewrite (bind_ret _ _ _ _ (os_path_exists_run H f t)).
  destruct (OS.exists_ t (cwd H) f); [|by eexists].
  unfold try_except. rewrite os_remove_run.
  destruct (OS.remove t (cwd H) f); by eexists.
Qed.

(** After the [finally], no file is left under the name of the temporary
    file. *)
Lemma cleanup_removes (f : string) (t : tree) r t' evs :
  RepoIngestor.cleanup H (Some f) t = (r, t', evs) ->
  forall content, OS.stat t' (cwd H) f <> inr (File content).
Proof.
  unfold RepoIngestor.cleanup.
  destruct (PyStr.is_empty f) eqn:Hf.
  { intros [= _ <- _] content. destruct f; [|done]. done. }
  rewrite (bind_ret _ _ _ _ (os_path_exists_run H f t)).
  destruct (OS.exists_ t (cwd H) f) eqn:Hex.
  2: { intros [= _ <- _] content Hs. unfold OS.exists_ in Hex. by rewrite Hs in Hex. }
  unfold try_except. rewrite os_remove_run. unfold OS.remove.
  destruct (OS.locate t (cwd H) f) as [e|k] eqn:Hk.
  { intros [= _ <- _] content. unfold OS.stat. by rewrite Hk. }
  destruct (OS.node_at t k) as [[c|]|] eqn:Hn.
  - intros [= _ <- _] content. unfold OS.stat.
    destruct (OS.locate (delete k t) (cwd H) f) as [e|k'] eqn:Hk'; [done|].
    apply locate_lex in Hk, Hk'. subst k k'.
    destruct (lex (cwd H) f) as [|w k]; [done|].
    cbn [OS.node_at]. by rewrite lookup_delete_eq.
  - intros [= _ <- _] content. unfold OS.stat. by rewrite Hk, Hn.
  - intros [= _ <- _] content. unfold OS.stat. by rewrite Hk, Hn.
Qed.

(** X5.  [run_gitingest] never raises: whatever the tool does, whether the
    output can be read or not, and with or without an output file of its
    own, it returns a record, and the record is the success record or a
    failure record with a message, both carrying the input. *)
Theorem run_gitingest_never_raises (repo_input output_file : string) (t : tree) :
  exists d t' evs,
    RepoIngestor.run_gitingest H github_token repo_input output_file t = (Ret d, t', evs) /\
    tool_record repo_input d.
Proof.
  assert (Hrec : forall out tf t0, exists d t' evs,
    try_finally
      (try_except (RepoIngestor.run_gitingest_body H github_token repo_input out)
                  (RepoIngestor.failure repo_input))
      (RepoIngestor.cleanup H tf) t0
    = (Ret d, t', evs) /\ tool_record repo_input d).
  { intros out tf t0. unfold try_finally.
    destruct (guarded_body repo_input out t0) as (d & -> & Hd).
    match goal with
    | |- context [RepoIngestor.cleanup H tf ?t2] =>
        destruct (cleanup_ret tf t2) as [t3 ->]
    end.
    exists d. do 2 eexists. split; [done|].
    destruct (gitingest H _ _ t0).1 as [[| |] ? ?|]; try destruct (OS.read_file _ _ _);
      subst d; first [by left | right; by eexists]. }
  unfold RepoIngestor.run_gitingest.
  destruct (PyStr.is_empty output_file) eqn:Hout; [|apply Hrec].
  rewrite (bind_ret _ _ _ t) by done. cbv zeta.
  unfold try_except at 1. unfold bind at 1. rewrite create_file_run.
  destruct (OS.write_file t (cwd H) (mkstemp H t) EmptyString) as [e|t1].
  - cbn. do 3 eexists. split; [done|]. right. by eexists.
  - cbv beta iota.
    destruct (Hrec (mkstemp H t) (Some (mkstemp H t)) t1) as (d & t' & evs & -> & Hd).
    exists d, t', evs. done.
Qed.

(** X6.  [run_gitingest] with an output file runs the tool exactly
    once.  The token reaches the tool exactly when it is not empty and the
    input is not an existing directory, and then both as the [--token]
    option and as the variable [GITHUB_TOKEN]; otherwise as neither.  The
    record is the success record exactly when the tool exits with 0 and
    the output file can be read afterwards; when it cannot, the message is
    that of the failed read; when the tool exits with another status, it
    is its stripped standard error; when the call itself fails, it is the
    message of that failure. *)
Theorem run_gitingest_outcome (repo_input output_file : string) (t : tree) r t' evs :
  PyStr.is_empty output_file = false ->
  RepoIngestor.run_gitingest H github_token repo_input output_file t = (r, t', evs) ->
  let env := if truthy github_token && negb (OS.isdir t (cwd H) repo_input)
             then github_token else None in
  let cmd := gitingest_cmd repo_input output_file env in
  exists res d,
    gitingest H cmd env t = (res, t') /\
    evs = [Gitingest cmd env t res] /\
    r = Ret d /\
    match res, OS.read_file t' (cwd H) output_file with
    | Exited 0 _ _, inr _ => d = ok_record repo_input
    | Exited 0 _ _, inl e => d = failed_record repo_input (exn_str (os_error e output_file))
    | Exited _ _ err, _ => d = failed_record repo_input (PyStr.strip err)
    | Failed e, _ => d = failed_record repo_input (exn_str e)
    end.
Proof.
  intros Hout. unfold RepoIngestor.run_gitingest. rewrite Hout.
  unfold try_finally. cbv zeta.
  destruct (guarded_body repo_input output_file t) as (d & -> & Hd).
  assert (Henv : (if hands_over t repo_input
                  then Some (RepoIngestor.token_text github_token) else None)
                 = (if hands_over t repo_input then github_token else None)).
  { destruct github_token as [tk|]; [|done]. by destruct (hands_over t repo_input). }
  rewrite Henv in *. clear Henv.
  cbn [RepoIngestor.cleanup ret]. intros [= <- <- <-].
  destruct (gitingest H _ _ t) as [res t2] eqn:Hres. cbn [fst snd] in *.
  by exists res, d.
Qed.

(** X7.  Without an output file of the caller, [run_gitingest] works on
    a temporary file and does not leave it behind: when it returns, the
    name that [mkstemp] picked is not the name of a file. *)
Theorem run_gitingest_temp_file_removed (repo_input : string) (t : tree) r t' evs :
  RepoIngestor.run_gitingest H github_token repo_input EmptyString t = (r, t', evs) ->
  forall content, OS.stat t' (cwd H) (mkstemp H t) <> inr (File content).
Proof.
  unfold RepoIngestor.run_gitingest. cbn [PyStr.is_empty].
  rewrite (bind_ret _ _ _ t) by done. cbv zeta.
  unfold try_except at 1. unfold bind at 1. rewrite create_file_run.
  unfold OS.write_file at 1.
  destruct (OS.locate t (cwd H) (mkstemp H t)) as [e|k] eqn:Hk.
  { cbn. intros [= _ <- _] content. unfold OS.stat. by rewrite Hk. }
  destruct (OS.node_at t k) as [[c|]|] eqn:Hn.
  2: { cbn. intros [= _ <- _] content. unfold OS.stat. by rewrite Hk, Hn. }
  all: unfold try_finally;
    match goal with
    | |- context [try_except ?m ?h ?t1] => destruct (try_except m h t1) as [[r1 t2] ev1]
    end;
    destruct (RepoIngestor.cleanup H (Some (mkstemp H t)) t2) as [[r2 t3] ev2] eqn:Hc;
    pose proof (cleanup_removes _ _ _ _ _ Hc) as Hc';
    destruct r2, r1; cbn; intros [= _ <- _]; exact Hc'.
Qed.

End ToolRunFacts.

(** ** [delete_repo_index] and [repo_index_exists] *)

Section IndexFacts.
Variable H : host.

(** [rmtree] that returns has emptied and removed a directory that is not
    the root. *)
Lemma rmtree_ret (s : string) (t : tree) t' evs :
  rmtree H s t = (Ret tt, t', evs) ->
  exists k, k <> [] /\ OS.locate t (cwd H) s = inr k /\
            evs = [Removed s] /\ t' = delete k (OS.prune k t).
Proof.
  unfold rmtree. rewrite (bind_ret _ _ _ t) by done.
  destruct (OS.locate t (cwd H) s) as [e|k] eqn:Hk; [done|].
  rewrite (bind_ret _ _ _ k) by done.
  destruct (OS.node_at t k) as [[c|]|] eqn:Hn; [done| |done].
  rewrite (bind_step _ _ t (OS.prune k t) tt []) by done.
  rewrite (bind_step _ _ _ (OS.prune k t) tt [Removed s]) by done.
  destruct (OS.locate (OS.prune k t) (cwd H) s) as [e|k'] eqn:Hk'; [done|].
  rewrite (bind_ret _ _ _ k') by done.
  apply locate_lex in Hk' as Hk''. apply locate_lex in Hk as Hk3. subst k'.
  rewrite <- Hk3. destruct k as [|w k]; [done|].
  cbn. intros [= <- <-]. by exists (w :: k).
Qed.

(** Once a directory is gone, the path that led to it finds nothing. *)
Lemma exists_after_delete (t : tree) (c : key) (s : string) (k : key) :
  k <> [] -> OS.locate t c s = inr k ->
  OS.exists_ (delete k (OS.prune k t)) c s = false.
Proof.
  intros Hne Hk. unfold OS.exists_, OS.stat.
  destruct (OS.locate (delete k (OS.prune k t)) c s) as [e|k'] eqn:Hk'; [done|].
  apply locate_lex in Hk, Hk'. subst k k'.
  rewrite node_at_lookup by done. by rewrite lookup_delete_eq.
Qed.

(** X8.  When [delete_repo_index] returns [True], the index directory is
    the one thing it removed: nothing is left at or below it, every entry
    elsewhere is as before, and the removal is in the journal.  After that
    [repo_index_exists] answers [False], and a second
    [delete_repo_index] returns [False] and changes nothing. *)
Theorem delete_repo_index_done (repo indexes_dir : string) (t : tree) t' evs :
  RepoIngestor.delete_repo_index H repo indexes_dir t = (Ret true, t', evs) ->
  evs = [Removed (index_dir indexes_dir repo)]
  /\ (exists k, OS.locate t (cwd H) (index_dir indexes_dir repo) = inr k /\
                gone k t' /\
                forall k', ~ k `prefix_of` k' -> t' !! k' = t !! k')
  /\ RepoIngestor.repo_index_exists H repo indexes_dir t' = (Ret false, t', [])
  /\ RepoIngestor.delete_repo_index H repo indexes_dir t' = (Ret false, t', []).
Proof.
  unfold RepoIngestor.delete_repo_index at 1. intros E.
  rewrite (bind_ret _ _ _ _ (path_exists_run H _ t)) in E.
  fold (index_dir indexes_dir repo) in E.
  destruct (OS.exists_ t (cwd H) (index_dir indexes_dir repo)) eqn:Hex; [|done].
  apply bind_inv in E as [(a & t1 & ev1 & ev2 & E & E2 & ->) | (e & E & ?)]; [|done].
  injection E2 as <- <-. destruct a.
  apply rmtree_ret in E as (k & Hne & Hk & -> & ->).
  pose proof (exists_after_delete t (cwd H) _ k Hne Hk) as Hgone.
  split; [done|]. split; [|split].
  - exists k. split; [done|]. split; [apply gone_delete_prune|].
    intros k' Hk'. rewrite lookup_delete_ne by (by intros ->).
    rewrite lookup_prune. destruct (OS.below k k') eqn:Hb; [|done].
    by apply below_spec in Hb as [Hb _].
  - rewrite repo_index_exists_run.
    destruct (index_complete _ (cwd H) indexes_dir repo) eqn:Hc; [|done].
    apply index_complete_dir, isdir_exists in Hc. congruence.
  - unfold RepoIngestor.delete_repo_index.
    rewrite (bind_ret _ _ _ _ (path_exists_run H _ _)).
    fold (index_dir indexes_dir repo). by rewrite Hgone.
Qed.

End IndexFacts.

(** ** [clone_repo] *)

Lemma replace_from_none (old new s : string) :
  PyStr.contains old s = false -> PyStr.replace_from old new 0 s = s.
Proof.
  induction s as [|c s IH]; [done|]. cbn [PyStr.contains PyStr.replace_from].
  intros [Hp Hs]%orb_false_elim. rewrite Hp. by rewrite IH.
Qed.

Lemma replace_from_skip (old new a rest : string) :
  PyStr.replace_from old new (String.length a) (a +:+ rest)
  = PyStr.replace_from old new 0 rest.
Proof.
  induction a as [|c a IH]; [by destruct rest|].
  rewrite str_app_cons. cbn [String.length PyStr.replace_from]. apply IH.
Qed.

(** [s.replace(old, new)] on a text that starts with [old] and has no
    second one. *)
Lemma replace_at_start (c : ascii) (old new rest : string) :
  PyStr.contains (String c old) rest = false ->
  PyStr.replace (String c old) new (String c old +:+ rest) = new +:+ rest.
Proof.
  intros Hr. unfold PyStr.replace. rewrite str_app_cons. cbn [PyStr.replace_from].
  rewrite <- str_app_cons.
  assert (String.prefix (String c old) (String c old +:+ rest) = true) as ->.
  { pose proof (startswith_strip_prefix (String c old) (String c old +:+ rest)) as Hp.
    by rewrite strip_prefix_app in Hp. }
  cbn [String.length]. rewrite Nat.sub_1_r. cbn [Nat.pred].
  by rewrite replace_from_skip, replace_from_none.
Qed.

Section CloneFacts.
Variable H : host.
Variable github_token : option string.

(** The address handed to the client. *)
Local Abbreviation clone_url url :=
  (if truthy github_token && negb (PyStr.contains "@" url%string)
   then PyStr.replace "https://"
          ("https://" +:+ RepoIngestor.token_text github_token +:+ "@") url%string
   else url%string).

(** Every way [clone_repo] can go. *)
Lemma clone_repo_run (url target_dir : string) (fresh : bool) (t : tree) r t' evs :
  RepoIngestor.clone_repo H github_token url target_dir fresh t = (r, t', evs) ->
  (parse_github_url_groups url = None /\
   r = Raise (ValueError ("Invalid GitHub URL: " +:+ url)) /\ t' = t /\ evs = [])
  \/ exists owner repo,
       parse_github_url_groups url = Some (owner, repo) /\
       let dest := PathLib.to_str (PathLib.Path target_dir </> owner </> repo) in
       let cmd := ["git"; "clone"; "--depth"; "1"; clone_url url; dest] in
       exists pre,
         (pre = [] \/ (fresh = true /\ pre = [Removed dest])) /\
         ((raised r /\ evs = pre)
          \/ exists seen,
               evs = (pre ++ [GitClone cmd seen (git H cmd seen).1])%list /\
               t' = (git H cmd seen).2 /\
               match (git H cmd seen).1 with
               | Exited 0 _ _ => r = Ret dest
               | Exited _ _ err =>
                   r = Raise (RuntimeError ("Git clone failed: " +:+ PyStr.strip err))
               | Failed e => r = Raise e
               end).
Proof.
  unfold RepoIngestor.clone_repo, RepoIngestor.parse_github_url. intros Hrun.
  destruct (parse_github_url_groups url) as [[owner repo]|] eqn:Hp.
  2: { injection Hrun as <- <- <-. by left. }
  right. exists owner, repo. split; [done|]. cbv zeta.
  rewrite (bind_ret _ _ _ (owner, repo)) in Hrun by done.
  set (repo_path := PathLib.Path target_dir </> owner </> repo) in *.
  assert (Hrm : forall r0 t0 ev0,
    (if fresh
     then ex <- path_exists H repo_path;;
          (if ex then rmtree H (PathLib.to_str repo_path) else ret tt)
     else ret tt) t = (r0, t0, ev0) ->
    ev0 = [] \/ (fresh = true /\ ev0 = [Removed (PathLib.to_str repo_path)])).
  { intros r0 t0 ev0 E. destruct fresh; [|injection E as _ _ <-; by left].
    rewrite (bind_ret _ _ _ _ (path_exists_run H repo_path t)) in E.
    destruct (OS.exists_ t (cwd H) (PathLib.to_str repo_path)).
    - apply rmtree_inv in E as [(_ & _ & ->) | (k & _ & _ & -> & _)]; auto.
    - injection E as _ _ <-. by left. }
  apply bind_inv in Hrun as [(a & t1 & ev1 & ev2 & E & Hrun & ->) | (e & E & ->)].
  - exists ev1. split; [by eapply Hrm|].
    apply bind_inv in Hrun as [(a' & t2 & ev3 & ev4 & E' & Hrun & ->) | (e & E' & ->)].
    + apply path_mkdir_grows in E' as [-> _].
      rewrite (bind_step _ _ _ _ _ _ (run_git_run H _ t2)) in Hrun.
      match type of Hrun with context [git H ?c t2] => set (cmd := c) in * end.
      right. exists t2.
      destruct (git H cmd t2) as [res t3]. cbn [fst snd] in *.
      destruct res as [rc out err|e]; cbn in Hrun.
      * destruct (rc =? 0)%Z eqn:Hrc; cbn in Hrun; injection Hrun as <- <- <-.
        -- apply Z.eqb_eq in Hrc as ->. done.
        -- split; [done|]. split; [done|]. by destruct rc.
      * injection Hrun as <- <- <-. done.
    + apply path_mkdir_grows in E' as [-> _]. left. split; [by eexists|].
      by rewrite app_nil_r.
  - exists evs. split; [by eapply Hrm|]. left. split; [by eexists | done].
Qed.

(** X9.  [clone_repo] puts the token into the address it hands to the
    client only when the token is not empty and the address has no [@]:
    an address [https://<rest>] without a second [https://] then
    becomes [https://<token>@<rest>].  In every other case (no token,
    an empty one, an address with an [@] such as the SSH spelling, or an
    address in which [https://] does not occur) the address is handed on
    as it is. *)
Theorem clone_repo_address (url target_dir : string) (fresh : bool) (t : tree)
    r t' evs cmd seen res :
  RepoIngestor.clone_repo H github_token url target_dir fresh t = (r, t', evs) ->
  GitClone cmd seen res ∈ evs ->
  (forall tk rest,
     github_token = Some tk -> tk <> EmptyString ->
     PyStr.contains "@" url = false ->
     url = "https://" +:+ rest -> PyStr.contains "https://" rest = false ->
     cmd !! 4%nat = Some ("https://" +:+ tk +:+ "@" +:+ rest))
  /\ (truthy github_token = false \/ PyStr.contains "@" url = true
      \/ PyStr.contains "https://" url = false ->
      cmd !! 4%nat = Some url).
Proof.
  intros Hrun Hin.
  apply clone_repo_run in Hrun
    as [(_ & _ & _ & ->) | (owner & repo & _ & pre & Hpre & Hcases)];
    [by apply elem_of_nil in Hin|].
  cbv zeta in Hcases.
  assert (Hcmd : cmd !! 4%nat = Some (clone_url url)).
  { destruct Hcases as [(_ & ->) | (seen' & -> & _)].
    - destruct Hpre as [-> | [_ ->]]; [by apply elem_of_nil in Hin|].
      by apply list_elem_of_singleton in Hin.
    - apply elem_of_app in Hin as [Hin | Hin].
      + destruct Hpre as [-> | [_ ->]]; [by apply elem_of_nil in Hin|].
        by apply list_elem_of_singleton in Hin.
      + apply list_elem_of_singleton in Hin. by injection Hin as -> _ _. }
  rewrite Hcmd. split.
  - intros tk rest -> Htk Hat -> Hrest. rewrite Hat.
    assert (truthy (Some tk) = true) as -> by (by destruct tk).
    cbn [andb negb RepoIngestor.token_text default].
    change "https://" with (String "h" "ttps://") at 1 3.
    rewrite replace_at_start by done. by rewrite !str_app_assoc.
  - intros [-> | [-> | Hno]]; [done | by rewrite andb_false_r |].
    destruct (truthy github_token && negb (PyStr.contains "@" url)); [|done].
    unfold PyStr.replace. by rewrite replace_from_none.
Qed.

(** X10.  A reference that [clone_repo] cannot parse makes it raise the
    [ValueError] of [parse_github_url] before it does anything: nothing is
    removed or made, and the client is not run.  This is so, in
    particular, for every reference in which [github.com] does not
    occur. *)
Theorem clone_repo_validates_first (url target_dir : string) (fresh : bool) (t : tree) :
  PyStr.contains "github.com" url = false ->
  RepoIngestor.clone_repo H github_token url target_dir fresh t
  = (Raise (ValueError ("Invalid GitHub URL: " +:+ url)), t, []).
Proof.
  intros Hc. unfold RepoIngestor.clone_repo.
  by rewrite (bind_raise _ _ _ _ _ _ (parse_github_url_other_host_run url t Hc)).
Qed.

(** X11.  The client is the last thing [clone_repo] does, and its exit
    status decides the outcome: with 0 the destination
    [<target_dir>/<owner>/<repo>] is returned; with any other status
    [RuntimeError] is raised, its message "Git clone failed: " followed by
    the stripped standard error; a call that fails raises what it failed
    with.  The tree is as the client left it. *)
Theorem clone_repo_outcome (url target_dir : string) (fresh : bool) (t : tree)
    r t' evs cmd seen res :
  RepoIngestor.clone_repo H github_token url target_dir fresh t = (r, t', evs) ->
  GitClone cmd seen res ∈ evs ->
  (exists pre, evs = (pre ++ [GitClone cmd seen res])%list /\ no_clone pre)
  /\ git H cmd seen = (res, t')
  /\ match res with
     | Exited 0 _ _ =>
         exists owner repo,
           parse_github_url_groups url = Some (owner, repo) /\
           r = Ret (PathLib.to_str (PathLib.Path target_dir </> owner </> repo))
     | Exited _ _ err => r = Raise (RuntimeError ("Git clone failed: " +:+ PyStr.strip err))
     | Failed e => r = Raise e
     end.
Proof.
  intros Hrun Hin.
  apply clone_repo_run in Hrun
    as [(_ & _ & _ & ->) | (owner & repo & Hp & pre & Hpre & Hcases)];
    [by apply elem_of_nil in Hin|].
  cbv zeta in Hcases.
  assert (Hq : no_clone pre) by (destruct Hpre as [-> | [_ ->]]; repeat constructor).
  destruct Hcases as [(_ & ->) | (seen' & -> & -> & Hres)].
  { by destruct (not_clone_event _ _ _ _ Hq Hin). }
  apply elem_of_app in Hin as [Hin | Hin%list_elem_of_singleton];
    [by destruct (not_clone_event _ _ _ _ Hq Hin)|].
  injection Hin as -> -> ->.
  split; [by exists pre|]. split; [by destruct (git H _ seen')|].
  destruct (git H _ seen').1 as [[| |] ? ?|]; try done. by exists owner, repo.
Qed.

End CloneFacts.

(** ** [ingest_repo]: its input, its output directory, its token *)

Lemma lstrip_all (p : ascii -> bool) (s : string) :
  all_chars p (PyStr.lstrip_by p s) = true -> all_chars p s = true.
Proof.
  induction s as [|c s IH]; [done|]. cbn [PyStr.lstrip_by all_chars].
  destruct (p c) eqn:Hc; [done|]. cbn [all_chars]. by rewrite Hc.
Qed.

Lemma lstrip_of_all (p : ascii -> bool) (s : string) :
  all_chars p s = true -> PyStr.lstrip_by p s = EmptyString.
Proof.
  induction s as [|c s IH]; [done|]. cbn [PyStr.lstrip_by all_chars].
  intros [-> Hs]%andb_prop. by apply IH.
Qed.

Lemma rstrip_empty (p : ascii -> bool) (s : string) :
  PyStr.rstrip_by p s = EmptyString -> all_chars p s = true.
Proof.
  induction s as [|c s IH]; [done|]. cbn [PyStr.rstrip_by all_chars].
  destruct (PyStr.rstrip_by p s) as [|d r]; [|done].
  cbn [PyStr.is_empty andb]. destruct (p c); [|done]. intros _. by apply IH.
Qed.

(** An input is blank exactly when it has nothing but white space. *)
Lemma blank_spec (s : string) : blank s = all_chars PyStr.is_space s.
Proof.
  unfold blank, PyStr.strip, PyStr.strip_by.
  destruct (all_chars PyStr.is_space s) eqn:Hs.
  - rewrite (lstrip_of_all _ _ Hs). by destruct s.
  - destruct s as [|c s]; [done|]. cbn [PyStr.is_empty orb].
    destruct (PyStr.rstrip_by _ _) eqn:Hr; [|done].
    apply rstrip_empty, lstrip_all in Hr. congruence.
Qed.

Section OrchestratorFacts.
Variable H : host.
Variable github_token : option string.

(** X12.  An input that is empty or has nothing but white space is
    answered with the record "No repository URL or local path provided.":
    the output directory has been made by then, and that is all that has
    happened. *)
Theorem ingest_repo_blank (repo_input output_dir : string) (clone : bool)
    (indexes_dir : string) (t t1 : tree) evs0 :
  all_chars PyStr.is_space repo_input = true ->
  path_mkdir H false true (PathLib.Path output_dir) t = (Ret tt, t1, evs0) ->
  RepoIngestor.ingest_repo H github_token repo_input output_dir clone indexes_dir t
  = (Ret no_input_record, t1, []).
Proof.
  intros Hb Hm. unfold RepoIngestor.ingest_repo.
  destruct (path_mkdir_grows _ _ _ _ _ _ _ _ Hm) as [-> _].
  rewrite (bind_step _ _ _ _ _ _ Hm). fold (blank repo_input).
  by rewrite blank_spec, Hb.
Qed.

(** X13.  The output directory comes before everything else.  When it
    cannot be made and is not there as a directory already (its parent is
    missing, or its name is that of a file), [ingest_repo] raises the
    error of the failed [mkdir], whatever the input is, and nothing else
    happens. *)
Theorem ingest_repo_output_dir_error (repo_input output_dir : string) (clone : bool)
    (indexes_dir : string) (t : tree) (e : errno) :
  OS.mkdir t (cwd H) (PathLib.to_str (PathLib.Path output_dir)) = inl e ->
  OS.isdir t (cwd H) (PathLib.to_str (PathLib.Path output_dir)) = false ->
  RepoIngestor.ingest_repo H github_token repo_input output_dir clone indexes_dir t
  = (Raise (os_error e (PathLib.to_str (PathLib.Path output_dir))), t, []).
Proof.
  intros Hmk Hd. unfold RepoIngestor.ingest_repo.
  apply bind_raise. unfold path_mkdir, mkdir_here, try_except.
  rewrite os_mkdir_run, Hmk.
  destruct e; cbn [os_error]; try done;
    rewrite (bind_ret _ _ _ _ (path_is_dir_run H _ t)), Hd; done.
Qed.

(** X14.  An empty token is no token: with the empty string as token
    every call of [ingest_repo] does exactly what it does without one. *)
Theorem ingest_repo_empty_token (repo_input output_dir : string) (clone : bool)
    (indexes_dir : string) (t : tree) :
  RepoIngestor.ingest_repo H (Some EmptyString) repo_input output_dir clone indexes_dir t
  = RepoIngestor.ingest_repo H None repo_input output_dir clone indexes_dir t.
Proof. reflexivity. Qed.

End OrchestratorFacts.

(** ** [ingest_repo]: the journal and the record *)

Lemma shape_failed (input message : string) : result_shape (failed_record input message).
Proof. left. split; [done|]. split; [by eexists | done]. Qed.

Lemma shape_ok (input output_file : string) :
  result_shape (<["output_file" := VStr output_file]> (ok_record input)).
Proof. right. split; [done|]. split; [done|]. split; [done|]. by eexists. Qed.

Lemma shape_cloned (input output_file : string) (v : pyval) :
  result_shape (<["local_repo" := v]> (<["output_file" := VStr output_file]> (ok_record input))).
Proof. right. split; [done|]. split; [done|]. split; [done|]. by eexists. Qed.

Section JournalFacts.
Variable H : host.
Variable github_token : option string.

(** A run of [ingest_finish] that raises without the tool having run
    stopped in the invalidation of the index. *)
Lemma finish_raised_journal (owner repo input : string) (is_url : bool)
    (output_dir : string) (clone : bool) (indexes_dir : string) (t : tree) e t' evs :
  RepoIngestor.ingest_finish H github_token owner repo input is_url output_dir clone
    indexes_dir t = (Raise e, t', evs) ->
  evs = [] \/ evs = [Removed (index_dir indexes_dir repo)].
Proof.
  unfold RepoIngestor.ingest_finish. intros Hrun.
  rewrite (bind_ret _ _ _ _ (repo_index_exists_run H repo indexes_dir t)) in Hrun.
  fold (output_name output_dir owner repo (now H)) in Hrun.
  apply bind_inv in Hrun as [(a & t2 & ev0 & ev2 & E & Hrun & ->) | (e' & E & _)].
  - exfalso.
    apply bind_inv in Hrun as [(d0 & t3 & ev3 & ev4 & E' & Hrun & ->) | (e' & E' & _)].
    2: { apply run_gitingest_inv in E' as (? & ? & ? & ? & _ & _ & _ & ? & _); [done|].
         apply output_name_not_empty. }
    destruct (negb (get_truthy d0 "success")); [done|].
    rewrite (bind_ret _ _ _ _ (os_path_isdir_run H input t3)) in Hrun.
    destruct (clone && is_url && negb (OS.isdir t3 (cwd H) input)); [|done].
    apply try_except_inv in Hrun as [(a' & _ & ?) | (? & ? & ? & ? & _ & ? & _)]; done.
  - destruct (index_complete t (cwd H) indexes_dir repo); [|done].
    apply bind_inv in E as [(a' & t1' & ev1' & ev2' & E & E2 & ->) | (e'' & E & _)];
      [done|].
    unfold RepoIngestor.delete_repo_index in E.
    rewrite (bind_ret _ _ _ _ (path_exists_run H _ t)) in E.
    fold (index_dir indexes_dir repo) in E.
    destruct (OS.exists_ t (cwd H) (index_dir indexes_dir repo)); [|done].
    apply bind_inv in E as [(a & t1 & ev1 & ev2 & E & E2 & ->) | (e3 & E & _)]; [done|].
    apply rmtree_inv in E as [(_ & _ & ->) | (k & _ & _ & -> & _)]; auto.
Qed.

(** From the index check on: no file is written; the client runs only for
    a remote reference with [clone] set; when it runs, its call is the
    last entry of the journal, and before it the tool has run once and
    exited with 0; the record has one of the two shapes. *)
Lemma finish_journal (owner repo input : string) (is_url : bool) (output_dir : string)
    (clone : bool) (indexes_dir : string) (t : tree) r t' evs :
  RepoIngestor.ingest_finish H github_token owner repo input is_url output_dir clone
    indexes_dir t = (r, t', evs) ->
  no_write evs
  /\ (clone = false \/ is_url = false -> no_clone evs)
  /\ (forall d, r = Ret d -> result_shape d)
  /\ (forall cmd seen res, GitClone cmd seen res ∈ evs ->
      exists pre c tk s r0 mid,
        evs = (pre ++ Gitingest c tk s r0 :: mid ++ [GitClone cmd seen res])%list /\
        exit_ok r0 = true /\
        no_tool pre /\ no_clone pre /\ no_write pre /\
        no_tool mid /\ no_clone mid /\ no_write mid).
Proof.
  intros Hrun.
  assert (Hinvq : forall t2 ev0, invalidated (cwd H) indexes_dir repo t t2 ev0 ->
            no_tool ev0 /\ no_clone ev0 /\ no_write ev0).
  { intros t2 ev0 [(_ & _ & ->) | [(_ & _ & _ & ->) | (_ & k & _ & -> & _)]];
      repeat split; repeat constructor. }
  pose proof Hrun as Hrun0.
  apply ingest_finish_inv in Hrun
    as [(_ & [e ->] & Hnt & Hnc) | (t2 & ev0 & cmd & tk & res & t3 & Hinv & _ & _ & Hcases)].
  { apply finish_raised_journal in Hrun0.
    split; [destruct Hrun0 as [-> | ->]; repeat constructor|].
    split; [done|]. split; [done|].
    intros c s r0 Hin. by destruct (not_clone_event _ _ _ _ Hnc Hin). }
  destruct (Hinvq _ _ Hinv) as (Hq1 & Hq2 & Hq3).
  assert (Hone : forall d,
    r = Ret d -> result_shape d ->
    evs = (ev0 ++ [Gitingest cmd tk t2 res])%list ->
    no_write evs
    /\ (clone = false \/ is_url = false -> no_clone evs)
    /\ (forall d, r = Ret d -> result_shape d)
    /\ (forall cmd seen res, GitClone cmd seen res ∈ evs ->
        exists pre c tk s r0 mid,
          evs = (pre ++ Gitingest c tk s r0 :: mid ++ [GitClone cmd seen res])%list /\
          exit_ok r0 = true /\
          no_tool pre /\ no_clone pre /\ no_write pre /\
          no_tool mid /\ no_clone mid /\ no_write mid)).
  { intros d -> Hd ->.
    assert (Hnc : no_clone (ev0 ++ [Gitingest cmd tk t2 res])).
    { apply Forall_app. split; [done | repeat constructor]. }
    split; [apply Forall_app; split; [done | repeat constructor]|].
    split; [done|]. split; [by intros ? [= <-]|].
    intros c s r0 Hin. by destruct (not_clone_event _ _ _ _ Hnc Hin). }
  destruct Hcases as [(m & -> & _ & -> & _) | [(_ & _ & -> & _ & ->) |
                      (Hok & -> & -> & rc & ev_c & Hc & -> & ->)]].
  - eapply Hone; [done | apply shape_failed | done].
  - eapply Hone; [done | apply shape_ok | done].
  - pose proof (clone_repo_run H github_token _ _ _ _ _ _ _ Hc) as Hc'.
    assert (Hshape : exists pre,
      no_tool pre /\ no_clone pre /\ no_write pre /\
      (ev_c = pre \/ exists c s r0, ev_c = (pre ++ [GitClone c s r0])%list)).
    { destruct Hc' as [(_ & _ & _ & ->) | (o & rp & _ & pre & Hpre & Hcs)].
      - exists []. split; [constructor|]. split; [constructor|]. split; [constructor|].
        by left.
      - exists pre. cbv zeta in Hcs.
        assert (no_tool pre /\ no_clone pre /\ no_write pre) as (? & ? & ?)
          by (destruct Hpre as [-> | [_ ->]]; repeat split; repeat constructor).
        repeat split; try done.
        destruct Hcs as [(_ & ->) | (s & -> & _)]; [by left | right; eauto]. }
    destruct Hshape as (pre & Hp1 & Hp2 & Hp3 & Hev).
    assert (Hnw : no_write ev_c).
    { destruct Hev as [-> | (c & s & r0 & ->)]; [done|].
      apply Forall_app. split; [done | repeat constructor]. }
    split; [apply Forall_app; split; [done|]; by constructor|].
    split; [by intros [? | ?]|]. split; [intros d [= <-]; apply shape_cloned|].
    intros c s r0 Hin.
    apply elem_of_app in Hin as [Hin | Hin]; [by destruct (not_clone_event _ _ _ _ Hq2 Hin)|].
    apply elem_of_cons in Hin as [Hin | Hin]; [done|].
    destruct Hev as [-> | (c' & s' & r0' & ->)];
      [by destruct (not_clone_event _ _ _ _ Hp2 Hin)|].
    apply elem_of_app in Hin as [Hin | Hin%list_elem_of_singleton];
      [by destruct (not_clone_event _ _ _ _ Hp2 Hin)|].
    injection Hin as <- <- <-.
    by exists ev0, cmd, tk, t2, res, pre.
Qed.

(** X16.  What is done for one kind of input only.  The marker file is
    the only file [ingest_repo] writes itself, and it writes none for an
    input it takes for a remote reference, even when that input names a
    directory that exists; the client is never run for a local input,
    nor when [clone] is not set. *)
Theorem ingest_repo_by_kind (repo_input output_dir : string) (clone : bool)
    (indexes_dir : string) (t : tree) r t' evs :
  RepoIngestor.ingest_repo H github_token repo_input output_dir clone indexes_dir t
    = (r, t', evs) ->
  (RepoIngestor._is_probable_git_url (PyStr.strip repo_input) = true -> no_write evs)
  /\ (clone = false \/ RepoIngestor._is_probable_git_url (PyStr.strip repo_input) = false ->
      no_clone evs).
Proof.
  intros Hrun.
  apply ingest_repo_inv in Hrun
    as [(_ & -> & _) | (t1 & _ & [(_ & _ & _ & ->) | [(_ & _ & _ & _ & _ & ->) |
         [(_ & Hu & o & rp & _ & Hrun) | (_ & Hu & Hrun)]]])]; cbv zeta in *;
    try (split; intros; constructor).
  - apply finish_journal in Hrun as (Hw & Hc & _). split; [done|].
    intros [-> | ?]; [by apply Hc; left | congruence].
  - split; [congruence|]. intros _.
    apply ingest_local_inv in Hrun
      as [(_ & _ & _ & ->) | (_ & [(_ & -> & _) | (t2 & t3 & evs' & _ & _ & -> & Hrun)])];
      cbv zeta in *; try constructor; [done|].
    apply finish_journal in Hrun as (_ & Hc & _). by apply Hc; right.
Qed.

(** X17.  The client is run at most once, as the last thing
    [ingest_repo] does, and only after the tool has run, once, and exited
    with 0: in the journal the call of the client is the last entry, one
    successful call of the tool precedes it, and there is no other call of
    either. *)
Theorem ingest_repo_clone_last (repo_input output_dir : string) (clone : bool)
    (indexes_dir : string) (t : tree) r t' evs cmd seen res :
  RepoIngestor.ingest_repo H github_token repo_input output_dir clone indexes_dir t
    = (r, t', evs) ->
  GitClone cmd seen res ∈ evs ->
  exists pre c tk s r0 mid,
    evs = (pre ++ Gitingest c tk s r0 :: mid ++ [GitClone cmd seen res])%list /\
    exit_ok r0 = true /\
    no_tool pre /\ no_clone pre /\ no_tool mid /\ no_clone mid.
Proof.
  intros Hrun Hin.
  apply ingest_repo_inv in Hrun
    as [(_ & -> & _) | (t1 & _ & [(_ & _ & _ & ->) | [(_ & _ & _ & _ & _ & ->) |
         [(_ & Hu & o & rp & _ & Hrun) | (_ & Hu & Hrun)]]])]; cbv zeta in *;
    try (by apply elem_of_nil in Hin).
  - apply finish_journal in Hrun as (_ & _ & _ & Hc).
    destruct (Hc _ _ _ Hin) as (pre & c & tk & s & r0 & mid & -> & ? & ? & ? & _ & ? & ? & _).
    by exists pre, c, tk, s, r0, mid.
  - apply ingest_local_inv in Hrun
      as [(_ & _ & _ & ->) | (_ & [(_ & -> & _) | (t2 & t3 & evs' & _ & _ & -> & Hrun)])];
      cbv zeta in *; try (by apply elem_of_nil in Hin).
    apply elem_of_cons in Hin as [Hin | Hin]; [done|].
    apply finish_journal in Hrun as (_ & Hc & _).
    by destruct (not_clone_event _ _ _ _ (Hc (or_intror eq_refl)) Hin).
Qed.

Lemma ingest_repo_shape (repo_input output_dir : string) (clone : bool)
    (indexes_dir : string) (t : tree) d t' evs :
  RepoIngestor.ingest_repo H github_token repo_input output_dir clone indexes_dir t
    = (Ret d, t', evs) ->
  result_shape d.
Proof.
  intros Hrun.
  assert (Hfail : forall m, result_shape (<["success" := VBool false]>
                                          (<["error" := VStr m]> ∅))).
  { intros m. left. split; [done|]. split; [by eexists | done]. }
  apply ingest_repo_inv in Hrun
    as [([e ?] & _) | (t1 & _ & [(_ & [= ->] & _) | [(_ & _ & _ & ? & _) |
         [(_ & Hu & o & rp & _ & Hrun) | (_ & Hu & Hrun)]]])]; cbv zeta in *;
    try done.
  - apply Hfail.
  - apply finish_journal in Hrun as (_ & _ & Hs & _). by apply Hs.
  - apply ingest_local_inv in Hrun
      as [(_ & [= ->] & _) | (_ & [([e ?] & _) | (t2 & t3 & evs' & _ & _ & -> & Hrun)])];
      cbv zeta in *; try done; [apply Hfail|].
    apply finish_journal in Hrun as (_ & _ & Hs & _). by apply Hs.
Qed.

(** X18.  Every record that [ingest_repo] returns has one of two shapes:
    [success] is [False] and there is an [error] message, with no
    [output_file] and no [local_repo]; or [success] is [True], there is no
    [error], [structured_text] is the fixed text
    "File Successfully Ingested!" (never the text of the output file) and
    [output_file] is set. *)
Theorem ingest_repo_result_shape (repo_input output_dir : string) (clone : bool)
    (indexes_dir : string) (t : tree) d t' evs :
  RepoIngestor.ingest_repo H github_token repo_input output_dir clone indexes_dir t
    = (Ret d, t', evs) ->
  result_shape d.
Proof. apply ingest_repo_shape. Qed.

(** X19.  The HTTP route always answers with a record, for a body whose
    [repo_link] is a string: what [ingest_repo] raises is caught and
    becomes a failure record with the text of the exception, so the
    answer has one of the two shapes of a record of [ingest_repo], and
    the tree and the journal are those of [ingest_repo]. *)
Theorem ingest_route_always_answers (repo_link : string) (t : tree) :
  exists d,
    (RepoIngestor.ingest_route H github_token repo_link t).1.1 = Ret d
    /\ result_shape d
    /\ (RepoIngestor.ingest_route H github_token repo_link t).1.2
       = (RepoIngestor.ingest_repo H github_token repo_link
            "gitingest_outputs" true "indexes" t).1.2
    /\ (RepoIngestor.ingest_route H github_token repo_link t).2
       = (RepoIngestor.ingest_repo H github_token repo_link
            "gitingest_outputs" true "indexes" t).2
    /\ forall e,
         (RepoIngestor.ingest_repo H github_token repo_link
            "gitingest_outputs" true "indexes" t).1.1 = Raise e ->
         d = <["success" := VBool false]> (<["error" := VStr (exn_str e)]> ∅).
Proof.
  unfold RepoIngestor.ingest_route, try_except.
  destruct (RepoIngestor.ingest_repo H github_token repo_link
              "gitingest_outputs" true "indexes" t) as [[[d|e] t'] evs] eqn:Hrun.
  - exists d. cbn. split; [done|]. split; [by eapply ingest_repo_shape|].
    repeat split; done.
  - eexists. cbn. rewrite app_nil_r. split; [done|]. split.
    + left. split; [done|]. split; [by eexists | done].
    + repeat split. by intros e' [= <-].
Qed.

End JournalFacts.

(** ** The command line *)

Lemma ask_choice_answer (again : bool) (junk : list string) (l : string) (rest : list string) :
  Forall no_choice junk -> is_choice (PyStr.strip l) = true ->
  (ask_choice again (junk ++ l :: rest)%list).1 = (Terminal.Done (PyStr.strip l), rest).
Proof.
  intros Hjunk Hl. revert again.
  induction Hjunk as [|j junk Hj _ IH]; intros again; cbn [app ask_choice].
  - by rewrite Hl.
  - unfold no_choice in Hj. rewrite Hj. specialize (IH true).
    destruct (ask_choice true (junk ++ l :: rest)%list) as [[r rest'] out]. done.
Qed.

Lemma ask_choice_never (again : bool) (lines : list string) :
  Forall no_choice lines -> (ask_choice again lines).1 = (Terminal.EOFError, []).
Proof.
  intros Hl. revert again. induction Hl as [|j junk Hj _ IH]; intros again; cbn [ask_choice].
  - done.
  - unfold no_choice in Hj. rewrite Hj. specialize (IH true).
    destruct (ask_choice true junk) as [[r rest'] out]. done.
Qed.

Lemma ask_choice_prompts (again : bool) (lines : list string) :
  ~ shows_record (ask_choice again lines).2.
Proof.
  revert again. induction lines as [|l lines IH]; intros again; cbn [ask_choice].
  - intros [d Hd]. by apply list_elem_of_singleton in Hd.
  - destruct (is_choice (PyStr.strip l)).
    + intros [d Hd]. by apply list_elem_of_singleton in Hd.
    + specialize (IH true). destruct (ask_choice true lines) as [[r rest'] out].
      intros [d Hd]. apply elem_of_cons in Hd as [Hd | Hd]; [done|].
      apply IH. by exists d.
Qed.

Lemma ask_path_answer (H : host) (t : tree) (wrong : list string) (l : string)
    (rest : list string) :
  Forall (no_directory H t) wrong -> OS.isdir t (cwd H) (typed_path H l) = true ->
  (ask_path H t (wrong ++ l :: rest)%list).1 = (Terminal.Done (typed_path H l), rest).
Proof.
  intros Hwrong Hl.
  induction Hwrong as [|j wrong Hj _ IH]; cbn [app ask_path].
  - fold (typed_path H l). by rewrite Hl.
  - fold (typed_path H j). unfold no_directory in Hj. rewrite Hj.
    destruct (ask_path H t (wrong ++ l :: rest)%list) as [[r rest'] out]. done.
Qed.

Lemma ask_path_directory (H : host) (t : tree) (lines : list string) p rest out :
  ask_path H t lines = (Terminal.Done p, rest, out) ->
  OS.isdir t (cwd H) p = true /\ ~ shows_record out.
Proof.
  revert rest out. induction lines as [|l lines IH]; intros rest out; cbn [ask_path]; [done|].
  fold (typed_path H l).
  destruct (OS.isdir t (cwd H) (typed_path H l)) eqn:Hd.
  - intros [= <- <- <-]. split; [done|]. intros [d Hin].
    by apply list_elem_of_singleton in Hin.
  - destruct (ask_path H t lines) as [[r rest'] out'].
    intros [= -> <- <-]. destruct (IH _ _ eq_refl) as [Hp Hout]. split; [done|].
    intros [d Hin]. apply elem_of_cons in Hin as [Hin | Hin]; [done|].
    apply elem_of_cons in Hin as [Hin | Hin]; [done|]. apply Hout. by exists d.
Qed.

Lemma ask_path_prompts (H : host) (t : tree) (lines : list string) :
  ~ shows_record (ask_path H t lines).2.
Proof.
  induction lines as [|l lines IH]; cbn [ask_path].
  - intros [d Hd]. by apply list_elem_of_singleton in Hd.
  - destruct (OS.isdir t (cwd H) _).
    + intros [d Hd]. by apply list_elem_of_singleton in Hd.
    + destruct (ask_path H t lines) as [[r rest'] out].
      intros [d Hd]. apply elem_of_cons in Hd as [Hd | Hd]; [done|].
      apply elem_of_cons in Hd as [Hd | Hd]; [done|]. apply IH. by exists d.
Qed.

Section PromptFacts.
Variable H : host.
Variable t : tree.

(** X20.  [prompt_repo_input] asks for the input type until the answer,
    stripped, is [1] or [2]; what is typed before is ignored.  After [1]
    the next line, stripped, is the reference, and the line after it,
    stripped, the token, or no token when it is blank; the lines after
    that are left unread. *)
Theorem prompt_repo_input_url (junk : list string) (l url token : string)
    (rest : list string) :
  Forall no_choice junk -> PyStr.strip l = "1" ->
  (prompt_repo_input H t (junk ++ l :: url :: token :: rest)%list).1
  = (Terminal.Done (PyStr.strip url,
                    if PyStr.is_empty (PyStr.strip token) then None
                    else Some (PyStr.strip token)),
     rest).
Proof.
  intros Hjunk Hl.
  assert (Hc : is_choice (PyStr.strip l) = true) by (by rewrite Hl).
  pose proof (ask_choice_answer false junk l (url :: token :: rest) Hjunk Hc) as Ha.
  unfold prompt_repo_input, Terminal.bind, Terminal.print, Terminal.input, Terminal.ret.
  destruct (ask_choice false (junk ++ l :: url :: token :: rest)%list) as [[r rest'] out].
  cbn [fst] in Ha. injection Ha as -> ->. by rewrite Hl.
Qed.

(** X21.  After [2], [prompt_repo_input] asks for a path until the line
    typed, stripped of white space and of quotes and with the home
    directory expanded, is the path of a directory; that path is returned,
    without a token, and the lines after it are left unread.  So a local
    path that [prompt_repo_input] returns is always that of a directory
    that exists. *)
Theorem prompt_repo_input_path (junk : list string) (l : string) (wrong : list string)
    (p : string) (rest : list string) :
  Forall no_choice junk -> PyStr.strip l = "2" ->
  Forall (no_directory H t) wrong ->
  OS.isdir t (cwd H) (typed_path H p) = true ->
  (prompt_repo_input H t (junk ++ l :: wrong ++ p :: rest)%list).1
  = (Terminal.Done (typed_path H p, None), rest).
Proof.
  intros Hjunk Hl Hwrong Hp.
  assert (Hc : is_choice (PyStr.strip l) = true) by (by rewrite Hl).
  pose proof (ask_choice_answer false junk l (wrong ++ p :: rest)%list Hjunk Hc) as Ha.
  pose proof (ask_path_answer H t wrong p rest Hwrong Hp) as Hb.
  unfold prompt_repo_input, Terminal.bind, Terminal.print, Terminal.input, Terminal.ret.
  destruct (ask_choice false (junk ++ l :: wrong ++ p :: rest)%list) as [[r rest'] out].
  cbn [fst] in Ha. injection Ha as -> ->. rewrite Hl. cbn [String.eqb Ascii.eqb Bool.eqb].
  destruct (ask_path H t (wrong ++ p :: rest)%list) as [[r rest'] out'].
  cbn [fst] in Hb. by injection Hb as -> ->.
Qed.

(** [prompt_repo_input] prints no record. *)
Lemma prompt_repo_input_prompts (lines : list string) :
  ~ shows_record (prompt_repo_input H t lines).2.
Proof.
  unfold prompt_repo_input, Terminal.bind, Terminal.print, Terminal.input, Terminal.ret.
  pose proof (ask_choice_prompts false lines) as Hc.
  destruct (ask_choice false lines) as [[[choice| |e] rest] out]; cbn [snd] in *.
  2,3: intros [d Hd]; rewrite !elem_of_app, !elem_of_cons, elem_of_nil in Hd;
       destruct Hd as [[? | ?] | [[? | ?] | [[? | ?] | Hd]]]; try done;
       apply Hc; by exists d.
  assert (Hmenu : forall out', ~ shows_record out' ->
    ~ shows_record
        ([Terminal.Print (String PyStr.LF "Select input type:")]
         ++ [Terminal.Print "  [1] Git URL (e.g., https://github.com/owner/repo.git)"]
         ++ [Terminal.Print "  [2] Local repo path (e.g., C:\dev\myproject)"]
         ++ out ++ out')%list).
  { intros out' Ho [d Hd]. rewrite !elem_of_app, !elem_of_cons, !elem_of_nil in Hd.
    destruct Hd as [[? | ?] | [[? | ?] | [[? | ?] | [Hd | Hd]]]]; try done;
      [apply Hc | apply Ho]; by exists d. }
  destruct (String.eqb choice "1").
  - destruct rest as [|url [|token rest]]; cbn [snd]; apply Hmenu;
      intros [d Hd]; rewrite ?elem_of_app, ?elem_of_cons, ?elem_of_nil in Hd; intuition discriminate.
  - pose proof (ask_path_prompts H t rest) as Hp.
    destruct (ask_path H t rest) as [[[p| |e] rest'] out']; cbn [snd] in *; apply Hmenu;
      try done.
    rewrite app_nil_r. done.
Qed.

End PromptFacts.

Section ScriptFacts.
Variable H : host.

(** X22.  Without [--repo] (or with an empty one) the script asks for the
    input and ingests it, but the record that [ingest_repo] returns is
    never printed: only the prompts, the notices about paths that are no
    directories, and, when a record was returned, the heading
    "Ingest result:". *)
Theorem main_interactive_hides_result (repo token : option string) (lines : list string)
    (t : tree) :
  truthy repo = false ->
  ~ shows_record (output (main H repo token lines t)).
Proof.
  intros Hr. unfold main. rewrite Hr.
  pose proof (prompt_repo_input_prompts H t lines) as Hp.
  destruct (prompt_repo_input H t lines) as [[[[repo_input tk]| |e] rest] out];
    cbn [snd] in Hp; cbn [output]; [|done..].
  destruct (RepoIngestor.ingest_repo H tk repo_input "gitingest_outputs" true "indexes" t)
    as [[[d|e] t'] evs]; cbn [output]; [|done].
  intros [d' Hd]. apply elem_of_app in Hd as [Hd | Hd%list_elem_of_singleton]; [|done].
  apply Hp. by exists d'.
Qed.

(** X23.  With [--repo], a reference to another host ends the script
    with the [ValueError] of [parse_github_url]: when the reference,
    stripped, starts with a scheme that [_is_probable_git_url] knows and
    [github.com] does not occur in it, the output directory is made, the
    exception leaves [ingest_repo] and the script, and nothing is
    printed, no record and no heading. *)
Theorem main_crashes_on_other_host (repo : string) (token : option string)
    (lines : list string) (t t1 : tree) evs0 :
  blank repo = false ->
  RepoIngestor._is_probable_git_url (PyStr.strip repo) = true ->
  PyStr.contains "github.com" (PyStr.strip repo) = false ->
  path_mkdir H false true (PathLib.Path "gitingest_outputs") t = (Ret tt, t1, evs0) ->
  main H (Some repo) token lines t
  = {| ended := Terminal.Crashed
                  (ValueError ("Invalid GitHub URL: " +:+ PyStr.strip repo));
       final_tree := t1; journal := []; unread := lines; output := [] |}.
Proof.
  intros Hb Hu Hc Hm. unfold main.
  assert (truthy (Some repo) = true) as ->.
  { destruct repo; [done|]. done. }
  cbv zeta. cbn [default].
  assert (Hp : parse_github_url_groups (PyStr.strip repo) = None).
  { pose proof (parse_github_url_other_host_run (PyStr.strip repo) t Hc) as Hrun.
    unfold RepoIngestor.parse_github_url in Hrun.
    by destruct (parse_github_url_groups (PyStr.strip repo)) as [[? ?]|]. }
  by rewrite (invalid_reference_raises H _ repo "gitingest_outputs" true "indexes" t t1 evs0
                Hb Hu Hp Hm).
Qed.

End ScriptFacts.

(** ** The further properties at work *)

Lemma run_gitingest_outcome_witness :
  exists d,
    gitingest (Demo.host_with Demo.tool_ok Demo.git_ok) Demo.tool_cmd None Demo.seen_by_tool
      = (Exited 0 EmptyString EmptyString, Sample.digested) /\
    Ret (ok_record Demo.url) = Ret d /\ d = ok_record Demo.url.
Proof.
  assert (Hrun : RepoIngestor.run_gitingest (Demo.host_with Demo.tool_ok Demo.git_ok) None
                   Demo.url Sample.output_file Demo.seen_by_tool
                 = (Ret (ok_record Demo.url), Sample.digested,
                    [Gitingest Demo.tool_cmd None Demo.seen_by_tool
                       (Exited 0 EmptyString EmptyString)])) by evaluate.
  assert (Hread : OS.read_file Sample.digested
                    (cwd (Demo.host_with Demo.tool_ok Demo.git_ok)) Sample.output_file
                  = inr "digest") by evaluate.
  pose proof (run_gitingest_outcome (Demo.host_with Demo.tool_ok Demo.git_ok) None
                Demo.url Sample.output_file Demo.seen_by_tool _ _ _ eq_refl Hrun) as Hx.
  cbv zeta in Hx. destruct Hx as (res & d & Hres & Hev & Hr & Hd).
  assert (res = Exited 0 EmptyString EmptyString) as -> by (by injection Hev).
  rewrite Hread in Hd.
  exists d. split; [exact Hres | split; [exact Hr | exact Hd]].
Defined.

Lemma run_gitingest_temp_file_removed_witness :
  Sample.run_tool_temp.1.1 = Ret (ok_record Demo.url) /\
  OS.stat Sample.run_tool_temp.1.2 ["work"] "/tmp/gitingest_abc.txt" <> inr (File "digest").
Proof.
  split; [evaluate|].
  exact (run_gitingest_temp_file_removed (Demo.host_with Demo.tool_ok Demo.git_ok) None
           Demo.url Demo.workdir
           Sample.run_tool_temp.1.1 Sample.run_tool_temp.1.2 Sample.run_tool_temp.2
           (run_eta Sample.run_tool_temp) "digest").
Defined.

Lemma delete_repo_index_done_witness :
  RepoIngestor.repo_index_exists (Demo.host_with Demo.tool_ok Demo.git_ok) "r" "indexes"
    Sample.unindexed = (Ret false, Sample.unindexed, [])
  /\ RepoIngestor.delete_repo_index (Demo.host_with Demo.tool_ok Demo.git_ok) "r" "indexes"
       Sample.unindexed = (Ret false, Sample.unindexed, []).
Proof.
  assert (Hrun : RepoIngestor.delete_repo_index (Demo.host_with Demo.tool_ok Demo.git_ok)
                   "r" "indexes" Demo.indexed
                 = (Ret true, Sample.unindexed, [Removed "indexes/r"])) by evaluate.
  destruct (delete_repo_index_done (Demo.host_with Demo.tool_ok Demo.git_ok)
              "r" "indexes" Demo.indexed Sample.unindexed [Removed "indexes/r"] Hrun)
    as (_ & _ & H1 & H2).
  split; [exact H1 | exact H2].
Defined.

Lemma clone_repo_address_witness :
  GitClone Sample.token_cmd Sample.before_clone (Exited 0 EmptyString EmptyString)
    ∈ Sample.run_clone.2
  /\ Sample.token_cmd !! 4%nat = Some "https://s3cr3t@github.com/o/r.git".
Proof.
  assert (Hev : Sample.run_clone.2 =
    [GitClone Sample.token_cmd Sample.before_clone (Exited 0 EmptyString EmptyString)])
    by evaluate.
  assert (Hin : GitClone Sample.token_cmd Sample.before_clone
                  (Exited 0 EmptyString EmptyString) ∈ Sample.run_clone.2)
    by (rewrite Hev; constructor).
  destruct (clone_repo_address (Demo.host_with Demo.tool_ok Demo.git_ok)
              (Some Sample.token) Demo.url "my_repos" true Demo.workdir
              Sample.run_clone.1.1 Sample.run_clone.1.2 Sample.run_clone.2
              Sample.token_cmd Sample.before_clone (Exited 0 EmptyString EmptyString)
              (run_eta Sample.run_clone) Hin) as [Htok _].
  split; [exact Hin|].
  apply (Htok Sample.token "github.com/o/r.git");
    [reflexivity | discriminate | reflexivity | reflexivity | reflexivity].
Defined.

Lemma clone_repo_validates_first_witness :
  RepoIngestor.clone_repo (Demo.host_with Demo.tool_ok Demo.git_ok) None
    "https://gitlab.com/o/r.git" "my_repos" true Demo.workdir
  = (Raise (ValueError "Invalid GitHub URL: https://gitlab.com/o/r.git"), Demo.workdir, []).
Proof.
  apply (clone_repo_validates_first (Demo.host_with Demo.tool_ok Demo.git_ok) None
           "https://gitlab.com/o/r.git" "my_repos" true Demo.workdir).
  reflexivity.
Defined.

Lemma clone_repo_outcome_witness :
  Sample.run_clone_fail.1.1
  = Raise (RuntimeError "Git clone failed: fatal: repository not found").
Proof.
  assert (Hev : Sample.run_clone_fail.2 =
    [GitClone Demo.clone_cmd Sample.before_clone
       (Exited 128 EmptyString "fatal: repository not found")]) by evaluate.
  assert (Hin : GitClone Demo.clone_cmd Sample.before_clone
                  (Exited 128 EmptyString "fatal: repository not found")
                ∈ Sample.run_clone_fail.2)
    by (rewrite Hev; constructor).
  destruct (clone_repo_outcome (Demo.host_with Demo.tool_ok Demo.git_fail) None
              Demo.url "my_repos" true Demo.workdir
              Sample.run_clone_fail.1.1 Sample.run_clone_fail.1.2 Sample.run_clone_fail.2
              Demo.clone_cmd Sample.before_clone
              (Exited 128 EmptyString "fatal: repository not found")
              (run_eta Sample.run_clone_fail) Hin) as (_ & _ & Hr).
  exact Hr.
Defined.

Lemma ingest_repo_blank_witness :
  RepoIngestor.ingest_repo (Demo.host_with Demo.tool_ok Demo.git_ok) None
    "   " "gitingest_outputs" true "indexes" Demo.workdir
  = (Ret no_input_record, Demo.seen_by_tool, []).
Proof.
  apply (ingest_repo_blank (Demo.host_with Demo.tool_ok Demo.git_ok) None
           "   " "gitingest_outputs" true "indexes" Demo.workdir Demo.seen_by_tool []);
    [reflexivity | evaluate].
Defined.

Lemma ingest_repo_output_dir_error_witness :
  RepoIngestor.ingest_repo (Demo.host_with Demo.tool_ok Demo.git_ok) None
    Demo.url "gitingest_outputs" true "indexes" Sample.blocked
  = (Raise (OSError EEXIST "gitingest_outputs"), Sample.blocked, []).
Proof.
  apply (ingest_repo_output_dir_error (Demo.host_with Demo.tool_ok Demo.git_ok) None
           Demo.url "gitingest_outputs" true "indexes" Sample.blocked EEXIST);
    evaluate.
Defined.

Lemma ingest_repo_by_kind_witness :
  no_write Demo.run_cloned.2 /\ no_clone Demo.run_local.2.
Proof.
  destruct (ingest_repo_by_kind (Demo.host_with Demo.tool_ok Demo.git_ok) None
              Demo.url "gitingest_outputs" true "indexes" Demo.workdir
              Demo.run_cloned.1.1 Demo.run_cloned.1.2 Demo.run_cloned.2
              (run_eta Demo.run_cloned)) as [Hw _].
  destruct (ingest_repo_by_kind (Demo.host_with Demo.tool_ok Demo.git_ok) None
              "proj" "gitingest_outputs" true "indexes" Demo.workdir
              Demo.run_local.1.1 Demo.run_local.1.2 Demo.run_local.2
              (run_eta Demo.run_local)) as [_ Hc].
  split; [apply Hw; evaluate | apply Hc; right; evaluate].
Defined.

Lemma ingest_repo_clone_last_witness :
  exists pre c tk s r0 mid,
    Demo.run_cloned.2
    = (pre ++ Gitingest c tk s r0 :: mid ++
         [GitClone Demo.clone_cmd Demo.seen_by_client (Exited 0 EmptyString EmptyString)])%list
    /\ exit_ok r0 = true.
Proof.
  assert (Hev : Demo.run_cloned.2 =
    [Gitingest Demo.tool_cmd None Demo.seen_by_tool (Exited 0 EmptyString EmptyString);
     GitClone Demo.clone_cmd Demo.seen_by_client (Exited 0 EmptyString EmptyString)])
    by evaluate.
  assert (Hin : GitClone Demo.clone_cmd Demo.seen_by_client
                  (Exited 0 EmptyString EmptyString) ∈ Demo.run_cloned.2)
    by (rewrite Hev; do 2 constructor).
  destruct (ingest_repo_clone_last (Demo.host_with Demo.tool_ok Demo.git_ok) None
              Demo.url "gitingest_outputs" true "indexes" Demo.workdir
              Demo.run_cloned.1.1 Demo.run_cloned.1.2 Demo.run_cloned.2
              Demo.clone_cmd Demo.seen_by_client (Exited 0 EmptyString EmptyString)
              (run_eta Demo.run_cloned) Hin)
    as (pre & c & tk & s & r0 & mid & Heq & Hok & _).
  exists pre, c, tk, s, r0, mid. split; [exact Heq | exact Hok].
Defined.

Lemma ingest_repo_result_shape_witness :
  result_shape
    (<["local_repo" := VStr "my_repos/o/r"]>
       (<["output_file" := VStr Sample.output_file]> (ok_record Demo.url))).
Proof.
  assert (Hr : Demo.run_cloned.1.1 =
    Ret (<["local_repo" := VStr "my_repos/o/r"]>
           (<["output_file" := VStr Sample.output_file]> (ok_record Demo.url))))
    by evaluate.
  pose proof (run_eta Demo.run_cloned) as He. rewrite Hr in He.
  exact (ingest_repo_result_shape (Demo.host_with Demo.tool_ok Demo.git_ok) None
           Demo.url "gitingest_outputs" true "indexes" Demo.workdir _ _ _ He).
Defined.

Lemma ingest_repo_keeps_incomplete_index_witness :
  same_below ["work"; "indexes"; "indexes"] Demo.partial Demo.run_partial.1.2
  /\ Removed "indexes/indexes" ∉ Demo.run_partial.2.
Proof.
  assert (Hev : Demo.run_partial.2 =
    [Gitingest Sample.partial_cmd None Sample.partial_seen_by_tool
       (Exited 0 EmptyString EmptyString);
     GitClone Sample.partial_clone_cmd Sample.partial_seen_by_client
       (Exited 0 EmptyString EmptyString)]) by evaluate.
  assert (Hu : RepoIngestor._is_probable_git_url (PyStr.strip Demo.url_plain) = true)
    by evaluate.
  assert (Hp : parse_github_url_groups (PyStr.strip Demo.url_plain) = Some ("o", "indexes"))
    by evaluate.
  assert (Htool : (Demo.tool_ok Sample.partial_cmd None Sample.partial_seen_by_tool).2
                  = Sample.partial_digested) by evaluate.
  assert (Hgit : (Demo.git_ok Sample.partial_clone_cmd Sample.partial_seen_by_client).2
                 = Sample.partial_cloned) by evaluate.
  apply (ingest_repo_keeps_incomplete_index (Demo.host_with Demo.tool_ok Demo.git_ok) None
           Demo.url_plain true Demo.partial
           Demo.run_partial.1.1 Demo.run_partial.1.2 Demo.run_partial.2 "indexes"
           (run_eta Demo.run_partial)).
  - intros owner x Hd. unfold derived_names in Hd. rewrite Hu, Hp in Hd.
    injection Hd as <- <-. split; by repeat split.
  - by repeat split.
  - rewrite Hev. apply Forall_cons_2; [|apply Forall_cons_2; [|apply Forall_nil_2]].
    + unfold keeps_below. cbn [gitingest Demo.host_with]. rewrite Htool.
      apply same_below_insert. by intros [l [=]].
    + unfold keeps_below. cbn [git Demo.host_with]. rewrite Hgit.
      apply same_below_insert. by intros [l [=]].
  - evaluate.
Defined.

Lemma prompt_repo_input_url_witness :
  (prompt_repo_input (Demo.host_with Demo.tool_ok Demo.git_ok) Demo.workdir
     ["3"; " 1 "; " https://github.com/o/r.git "; "  "; "left"]).1
  = (Terminal.Done ("https://github.com/o/r.git", None), ["left"]).
Proof.
  assert (Hjunk : Forall no_choice ["3"]) by (constructor; [reflexivity | constructor]).
  exact (prompt_repo_input_url (Demo.host_with Demo.tool_ok Demo.git_ok) Demo.workdir
           ["3"] " 1 " " https://github.com/o/r.git " "  " ["left"] Hjunk eq_refl).
Defined.

Lemma prompt_repo_input_path_witness :
  (prompt_repo_input (Demo.host_with Demo.tool_ok Demo.git_ok) Demo.workdir
     ["x"; "2"; "nowhere"; " 'proj' "; "left"]).1
  = (Terminal.Done ("proj", None), ["left"]).
Proof.
  assert (Hjunk : Forall no_choice ["x"]) by (constructor; [reflexivity | constructor]).
  assert (Hwrong : Forall (no_directory (Demo.host_with Demo.tool_ok Demo.git_ok)
                             Demo.workdir) ["nowhere"])
    by (constructor; [unfold no_directory; evaluate | constructor]).
  assert (Hdir : OS.isdir Demo.workdir (cwd (Demo.host_with Demo.tool_ok Demo.git_ok))
                   (typed_path (Demo.host_with Demo.tool_ok Demo.git_ok) " 'proj' ") = true)
    by evaluate.
  exact (prompt_repo_input_path (Demo.host_with Demo.tool_ok Demo.git_ok) Demo.workdir
           ["x"] "2" ["nowhere"] " 'proj' " ["left"] Hjunk eq_refl Hwrong Hdir).
Defined.

Lemma main_interactive_hides_result_witness :
  truthy (@None string) = false /\
  ~ shows_record
      (output (main (Demo.host_with Demo.tool_ok Demo.git_ok) None None
                 ["1"; Demo.url; EmptyString] Demo.workdir)).
Proof.
  split; [reflexivity|].
  exact (main_interactive_hides_result (Demo.host_with Demo.tool_ok Demo.git_ok)
           None None ["1"; Demo.url; EmptyString] Demo.workdir eq_refl).
Defined.

Lemma main_crashes_on_other_host_witness :
  main (Demo.host_with Demo.tool_ok Demo.git_ok) (Some "https://gitlab.com/o/r.git")
    None ["unread"] Demo.workdir
  = {| ended := Terminal.Crashed (ValueError "Invalid GitHub URL: https://gitlab.com/o/r.git");
       final_tree := Demo.seen_by_tool; journal := []; unread := ["unread"];
       output := [] |}.
Proof.
  assert (Hm : path_mkdir (Demo.host_with Demo.tool_ok Demo.git_ok) false true
                 (PathLib.Path "gitingest_outputs") Demo.workdir
               = (Ret tt, Demo.seen_by_tool, [])) by evaluate.
  exact (main_crashes_on_other_host (Demo.host_with Demo.tool_ok Demo.git_ok)
           "https://gitlab.com/o/r.git" None ["unread"] Demo.workdir Demo.seen_by_tool []
           eq_refl eq_refl eq_refl Hm).
Defined.
